(** * Dragnn kernels of the Myelin JIT compiler (myelin/kernel/dragnn.cc)

    A shallow embedding of the kernel family registered by
    [RegisterDragnnKernels]: the applicability predicates ([Supports]), the
    layout negotiation ([Adjust]), the code emission ([Generate]) and the
    type-inference hook ([DragnnTyper::InferTypes]).

    [Generate] is embedded as a computation in a small state-and-error monad
    over the macro assembler: it allocates registers and appends instructions,
    line by line as the C++ does.  The emitted instruction list is then given
    its meaning by an executable interpreter of the x86-64 subset the kernels
    use, so that a statement about "the emitted code" is a statement about
    running that list.

    Conventions.
    - [int] and [size_t] values of the compiler (extents, strides, sizes,
      offsets) are unbounded [Z]; the registers of the generated code hold
      values modulo 2^64, with the wrap-around written out ([wrap64]).
    - The memory is a total map from addresses to bytes; a single-precision
      number is its IEEE 754 bit pattern, added by [Binary32.add].
    - The code of a step is entered after the code of other steps: only the
      instance register and the memory are known then ([entered]), and the
      statements about a run hold for every content of the other registers.
    - What the kernels call in compute.h and macro-assembler.h (register
      pools, [LoadTensorAddress], [Copy], [Multiply], [AllowInPlace], ...)
      is not in dragnn.cc; each such part is marked "Modelled from the spec"
      where it is defined. *)

From Stdlib Require Import ZArith List String Bool Lia.
From Stdlib Require Import SpecFloat.
From stdpp Require Import base option list.
Import ListNotations.

Local Open Scope string_scope.
Local Open Scope Z_scope.

(** ** Fatal checks

    [CHECK(c)] aborts the process when [c] is false.  A computation that can
    abort returns [Fatal] with the text of the failed condition. *)

Inductive Result (A : Type) : Type :=
| Ok (a : A)
| Fatal (msg : string).
Arguments Ok {A} a.
Arguments Fatal {A} msg.

Definition is_fatal {A} (r : Result A) : bool :=
  match r with Fatal _ => true | Ok _ => false end.

(** ** Tensors and steps (the part of compute.h the kernels read) *)

(** Element types.  Only [DT_FLOAT] and [DT_INT32] are named in dragnn.cc; the
    enumeration itself is declared in the flow headers. *)
Inductive Type_ : Set :=
| DT_INVALID | DT_FLOAT | DT_DOUBLE | DT_INT32 | DT_UINT8
| DT_INT16 | DT_INT8 | DT_STRING | DT_INT64 | DT_BOOL.

Definition Type_eqb (a b : Type_) : bool :=
  match a, b with
  | DT_INVALID, DT_INVALID | DT_FLOAT, DT_FLOAT | DT_DOUBLE, DT_DOUBLE
  | DT_INT32, DT_INT32 | DT_UINT8, DT_UINT8 | DT_INT16, DT_INT16
  | DT_INT8, DT_INT8 | DT_STRING, DT_STRING | DT_INT64, DT_INT64
  | DT_BOOL, DT_BOOL => true
  | _, _ => false
  end.

Inductive Order : Set := ANY_ORDER | ROW_MAJOR | COLUMN_MAJOR.

(** Layout requests a kernel files on a tensor during [Adjust].

    Modelled from the spec: [Tensor::SetRequiredOrder], [Tensor::Align] and
    [Tensor::SetMiniumAlignment] are declared in compute.h, which is not part
    of the sources at hand.  The spec describes them as setters of the
    required memory order, the per-dimension alignment granularity and the
    minimum byte alignment; the model records each request on the tensor, in
    the order the kernel files them, and leaves their resolution to the
    allocator. *)
Inductive Request : Set :=
| RequiredOrder (order : Order)
| Alignment (align : list Z)
| MinimumAlignment (bytes : Z).

(** The members of [Tensor] that dragnn.cc reads or writes.  Integers of the
    source ([int], [size_t]) are unbounded [Z] here: extents, strides and
    sizes are far below 2^31 for any tensor that fits in memory.

    [data_] is the address of the constant data of a constant tensor (a null
    pointer, [None], for the others); [value_] holds the bytes found there,
    and [offset_] the position in the instance block of a tensor that is not
    constant.  [shared_] names the tensor whose storage this one shares, and
    [consumers_] the steps that read it. *)
Record Tensor : Set := mkTensor {
  name_ : string;
  type_ : Type_;
  shape_ : list Z;
  stride_ : list Z;
  size_ : Z;
  ref_ : bool;
  link_ : option string;
  shared_ : option string;
  offset_ : Z;
  data_ : option Z;
  value_ : list Z;
  consumers_ : list string;
  requests_ : list Request
}.

Definition rank (t : Tensor) : Z := Z.of_nat (length (shape_ t)).

(** [dim(d)] and [stride(d)] index a std::vector without a bounds check.  The
    model reads 0 out of range; every use in the kernels that the theorems
    below rely on is on a tensor whose rank has been checked. *)
Definition dim (t : Tensor) (d : nat) : Z := nth d (shape_ t) 0.
Definition stride (t : Tensor) (d : nat) : Z := nth d (stride_ t) 0.

(** Modelled from the spec: [Shape::elements] and [Tensor::elements] are not
    in the sources at hand; the spec calls them the total element count, the
    product of the extents (1 for a scalar). *)
Definition elements (t : Tensor) : Z := fold_right Z.mul 1 (shape_ t).

Definition set_ref (b : bool) (t : Tensor) : Tensor :=
  mkTensor (name_ t) (type_ t) (shape_ t) (stride_ t) (size_ t) b (link_ t)
           (shared_ t) (offset_ t) (data_ t) (value_ t) (consumers_ t)
           (requests_ t).

Definition set_link (target : Tensor) (t : Tensor) : Tensor :=
  mkTensor (name_ t) (type_ t) (shape_ t) (stride_ t) (size_ t) (ref_ t)
           (Some (name_ target)) (shared_ t) (offset_ t) (data_ t) (value_ t)
           (consumers_ t) (requests_ t).

Definition request (r : Request) (t : Tensor) : Tensor :=
  mkTensor (name_ t) (type_ t) (shape_ t) (stride_ t) (size_ t) (ref_ t)
           (link_ t) (shared_ t) (offset_ t) (data_ t) (value_ t)
           (consumers_ t) (requests_ t ++ [r]).

Definition SetRequiredOrder (o : Order) : Tensor -> Tensor :=
  request (RequiredOrder o).
Definition Align (a : list Z) : Tensor -> Tensor := request (Alignment a).
Definition SetMiniumAlignment (n : Z) : Tensor -> Tensor :=
  request (MinimumAlignment n).

(** Modelled from the spec: [Tensor::SharedWith] is not in the sources at
    hand; two tensors share storage when one is recorded as sharing the
    other's. *)
Definition shares (t other : Tensor) : bool :=
  match shared_ t with
  | Some n => String.eqb n (name_ other)
  | None => false
  end.

Definition SharedWith (t other : Tensor) : bool :=
  shares t other || shares other t.

(** Little-endian value of a byte string, and two's complement reading. *)
Fixpoint le_value (bs : list Z) : Z :=
  match bs with
  | [] => 0
  | b :: rest => b + 256 * le_value rest
  end.

Definition signed (bits : Z) (v : Z) : Z :=
  if v <? 2 ^ (bits - 1) then v else v - 2 ^ bits.

(** [value<int32>()] reads the first four bytes of the constant data.  (On a
    tensor without constant data the source reads through a null pointer;
    the model reads 0.) *)
Definition value_int32 (t : Tensor) : Z :=
  signed 32 (le_value (take 4 (value_ t))).

Record Step : Set := mkStep {
  step_name : string;
  step_type : string;
  inputs_ : list Tensor;
  outputs_ : list Tensor
}.

Definition null_tensor : Tensor :=
  mkTensor "" DT_INVALID [] [] 0 false None None 0 None [] [] [].

Definition indegree (s : Step) : Z := Z.of_nat (length (inputs_ s)).
Definition outdegree (s : Step) : Z := Z.of_nat (length (outputs_ s)).

(** [input(i)] and [output(i)] index a std::vector; the kernels call them
    after the arity check, the model reads [null_tensor] out of range. *)
Definition input (s : Step) (i : nat) : Tensor :=
  default null_tensor (inputs_ s !! i).
Definition output (s : Step) (i : nat) : Tensor :=
  default null_tensor (outputs_ s !! i).

(** [step->input(i)->m(...)] for a mutating member [m]: the tensor at that
    position is replaced by the updated one. *)
Definition on_input (i : nat) (m : Tensor -> Tensor) (s : Step) : Step :=
  mkStep (step_name s) (step_type s) (alter m i (inputs_ s)) (outputs_ s).
Definition on_output (i : nat) (m : Tensor -> Tensor) (s : Step) : Step :=
  mkStep (step_name s) (step_type s) (inputs_ s) (alter m i (outputs_ s)).

(** Modelled from the spec: [Step::AllowInPlace] is not in the sources at
    hand.  The spec describes it as the request that the allocator let an
    output share the storage of an input, answered at once and verified after
    allocation.  The model grants the request unless the output already shares
    storage with some tensor, and records a grant in the output's [shared_]. *)
Definition set_shared (target : Tensor) (t : Tensor) : Tensor :=
  mkTensor (name_ t) (type_ t) (shape_ t) (stride_ t) (size_ t) (ref_ t)
           (link_ t) (Some (name_ target)) (offset_ t) (data_ t) (value_ t)
           (consumers_ t) (requests_ t).

Definition AllowInPlace (i o : nat) (s : Step) : bool * Step :=
  match shared_ (output s o) with
  | Some _ => (false, s)
  | None => (true, on_output o (set_shared (input s i)) s)
  end.

(** Hardware capabilities, as reported by [CPU::Enabled]. *)
Inductive CpuFeature : Set := SSE | SSE2 | SSE3 | SSE41 | AVX | AVX2 | FMA3.

Definition CpuFeature_eqb (a b : CpuFeature) : bool :=
  match a, b with
  | SSE, SSE | SSE2, SSE2 | SSE3, SSE3 | SSE41, SSE41 | AVX, AVX
  | AVX2, AVX2 | FMA3, FMA3 => true
  | _, _ => false
  end.

Record CPU : Set := mkCPU { features : list CpuFeature }.

Definition Enabled (cpu : CPU) (f : CpuFeature) : bool :=
  existsb (CpuFeature_eqb f) (features cpu).

(** ** The macro assembler *)

Inductive Register : Set :=
| rax | rcx | rdx | rbx | rsp | rbp | rsi | rdi
| r8 | r9 | r10 | r11 | r12 | r13 | r14 | r15.

Definition code_of (r : Register) : nat :=
  match r with
  | rax => 0 | rcx => 1 | rdx => 2 | rbx => 3 | rsp => 4 | rbp => 5
  | rsi => 6 | rdi => 7 | r8 => 8 | r9 => 9 | r10 => 10 | r11 => 11
  | r12 => 12 | r13 => 13 | r14 => 14 | r15 => 15
  end%nat.

Definition Register_eqb (a b : Register) : bool :=
  Nat.eqb (code_of a) (code_of b).

(** SIMD registers are named by their number: xmm[i] is the low half of
    ymm[i]. *)
Definition XMMRegister : Set := nat.
Definition YMMRegister : Set := nat.

Inductive ScaleFactor : Set := times_1 | times_2 | times_4 | times_8.

Definition scale_of (s : ScaleFactor) : Z :=
  match s with times_1 => 1 | times_2 => 2 | times_4 => 4 | times_8 => 8 end.

(** Memory operands: [Operand(base)], [Operand(base, disp)] and
    [Operand(base, index, scale)]. *)
Inductive Operand : Set :=
| Operand_ (base : Register)
| OperandD (base : Register) (disp : Z)
| OperandI (base : Register) (index : Register) (scale : ScaleFactor).

Inductive Arg : Set :=
| Reg (r : Register)
| Immediate (value : Z)
| Mem (op : Operand).
Coercion Reg : Register >-> Arg.
Coercion Mem : Operand >-> Arg.

Inductive SIMDArg : Set :=
| Vec (r : nat)
| VMem (op : Operand).
Coercion VMem : Operand >-> SIMDArg.

Inductive Condition : Set := positive | negative | not_equal.

Definition Label : Set := nat.

(** The instructions the Dragnn kernels emit.  A mnemonic takes the operand
    forms of its C++ overloads; [bind] marks the position of a label;
    [LoadTensorAddress] and [Copy] are macro instructions of the assembler
    whose expansion is not part of the sources at hand. *)
Inductive Instr : Set :=
| bind (l : Label)
| j (cc : Condition) (l : Label)
| jmp (l : Label)
| movq (dst src : Arg)
| movl (dst src : Arg)
| movsxlq (dst : Register) (src : Operand)
| leaq (dst : Register) (src : Operand)
| xorq (dst src : Register)
| addq (dst : Register) (src : Arg)
| incq (dst : Register)
| imulq (dst src : Register) (imm : Z)
| testq (a b : Register)
| cmpq (a : Register) (b : Arg)
| cmovq (cc : Condition) (dst src : Register)
| movss (dst src : SIMDArg)
| addss (dst : XMMRegister) (src : Operand)
| vxorps (dst a b : YMMRegister)
| vaddps (dst a : YMMRegister) (src : Operand)
| vmovaps (dst : Operand) (src : YMMRegister)
| LoadTensorAddress_ (dst : Register) (tensor : Tensor)
| Copy_ (dst : Register) (ofs1 : Z) (src : Register) (ofs2 : Z) (size : Z).

(** The assembler state a kernel sees: the general and the SIMD register
    pools (the registers in use) and the code emitted so far. *)
Record MacroAssembler : Set := mkMasm {
  rr : list Register;
  mm : list nat;
  code : list Instr
}.

(** Emission is a state-and-error computation over the assembler. *)
Definition Masm (A : Type) : Type :=
  MacroAssembler -> Result (A * MacroAssembler).

Definition ret {A} (a : A) : Masm A := fun masm => Ok (a, masm).
Definition and_then {A B} (m : Masm A) (f : A -> Masm B) : Masm B :=
  fun masm =>
    match m masm with
    | Ok (a, masm') => f a masm'
    | Fatal msg => Fatal msg
    end.

Declare Scope masm_scope.
Delimit Scope masm_scope with masm.
Bind Scope masm_scope with Masm.
Notation "x ← y ; z" := (and_then y (fun x => z))
  (at level 20, y at level 100, z at level 200, only parsing) : masm_scope.
Notation "x ;; z" := (and_then x (fun _ => z))
  (at level 100, z at level 200, only parsing, right associativity)
  : masm_scope.
Local Open Scope masm_scope.

Definition CHECK (c : bool) (msg : string) : Masm unit :=
  fun masm => if c then Ok (tt, masm) else Fatal msg.

Definition emit (i : Instr) : Masm unit :=
  fun masm => Ok (tt, mkMasm (rr masm) (mm masm) (code masm ++ [i])).

Definition when (c : bool) (m : Masm unit) : Masm unit :=
  if c then m else ret tt.

(** [for (int i = 0; i < n; ++i) body(i)], with [i] counted from [i0]. *)
Fixpoint for_from (i0 : nat) (n : nat) (body : nat -> Masm unit) : Masm unit :=
  match n with
  | O => ret tt
  | S n' => body i0 ;; for_from (S i0) n' body
  end.
Definition for_ (n : Z) (body : nat -> Masm unit) : Masm unit :=
  for_from 0 (Z.to_nat n) body.

(** Modelled from the spec: the register pools ([Registers],
    [SIMDRegisters]) are not in the sources at hand.  The spec describes
    scoped acquisition from a fixed set of slots that fails loudly when the
    pool is exhausted.  [alloc] hands out the free register of lowest number;
    the stack pointer and the instance register are never free. *)
Definition all_registers : list Register :=
  [rax; rcx; rdx; rbx; rsp; rbp; rsi; rdi; r8; r9; r10; r11; r12; r13; r14; r15].

Definition used (masm : MacroAssembler) (r : Register) : bool :=
  existsb (Register_eqb r) (rr masm).

Definition rr_use (r : Register) : Masm unit :=
  fun masm => Ok (tt, mkMasm (r :: rr masm) (mm masm) (code masm)).

Definition rr_release (r : Register) : Masm unit :=
  fun masm =>
    Ok (tt, mkMasm (filter (fun r' => negb (Register_eqb r r')) (rr masm))
                   (mm masm) (code masm)).

Definition rr_alloc : Masm Register :=
  fun masm =>
    match find (fun r => negb (used masm r)) all_registers with
    | Some r => Ok (r, mkMasm (r :: rr masm) (mm masm) (code masm))
    | None => Fatal "Register overflow"
    end.

Definition rr_alloc_preferred (r : Register) : Masm Register :=
  fun masm =>
    if used masm r then rr_alloc masm
    else Ok (r, mkMasm (r :: rr masm) (mm masm) (code masm)).

Definition mm_alloc : Masm nat :=
  fun masm =>
    match find (fun i => negb (existsb (Nat.eqb i) (mm masm))) (seq 0 16) with
    | Some i => Ok (i, mkMasm (rr masm) (i :: mm masm) (code masm))
    | None => Fatal "SIMD register overflow"
    end.
Definition mm_allocx : Masm XMMRegister := mm_alloc.
Definition mm_allocy : Masm YMMRegister := mm_alloc.

(** [masm->instance()]: the register that holds the address of the instance
    block while generated code runs. *)
Definition instance : Register := rbp.

(** The assembler as a kernel receives it: nothing emitted, all registers
    free but the stack pointer and the instance register. *)
Definition new_masm : MacroAssembler := mkMasm [rsp; instance] [] [].

(** Modelled from the spec: [MacroAssembler::LoopStart] and
    [MacroAssembler::Multiply] are not in the sources at hand.  [LoopStart]
    binds the label at the head of a loop (after aligning the code, which has
    no effect on what the code computes); [Multiply] multiplies a register by
    a constant and is taken as the one instruction [imulq reg, reg, imm]. *)
Definition LoopStart (l : Label) : Masm unit := emit (bind l).
Definition Multiply (reg : Register) (scalar : Z) : Masm unit :=
  emit (imulq reg reg scalar).
Definition LoadTensorAddress (dst : Register) (tensor : Tensor) : Masm unit :=
  emit (LoadTensorAddress_ dst tensor).
Definition Copy (dst : Register) (ofs1 : Z) (src : Register) (ofs2 : Z)
    (size : Z) : Masm unit :=
  emit (Copy_ dst ofs1 src ofs2 size).

Definition sizeof_float : Z := 4.

(** ** The kernel interface *)

Record Kernel : Type := mkKernel {
  Name : string;
  Operation : string;
  Supports : Step -> bool;
  Adjust : Step -> Result Step;
  Generate : Step -> Masm unit;
  Complexity : option (Step -> Z)
}.

(** ** The kernels of dragnn.cc *)

(** Stub for Dragnn initializer. *)
Module DragnnInitializer.
Definition Name : string := "DragnnInitializerDummy".
Definition Operation : string := "DragnnEmbeddingInitializer".

Definition Supports (step : Step) : bool := true.

Definition Generate (step : Step) : Masm unit := ret tt.

Definition kernel : Kernel :=
  mkKernel Name Operation Supports Ok Generate None.
End DragnnInitializer.

(** Dragnn feature collect operation for recurrent features mapped through an
    embedding matrix. *)
Module DragnnCollect.
Definition Name : string := "DragnnCollect".
Definition Operation : string := "Collect".

Definition Supports (step : Step) : bool :=
  (* Check inputs and outputs. *)
  if negb (indegree step =? 2) || negb (outdegree step =? 1) then false else
  (* Check types. *)
  let f := input step 0 in
  let M := input step 1 in
  let R := output step 0 in
  if negb (Type_eqb (type_ f) DT_INT32) then false else
  if negb (Type_eqb (type_ M) DT_FLOAT) || negb (rank M =? 2) then false else
  if negb (Type_eqb (type_ R) DT_FLOAT) || negb (rank R =? 2) then false else
  if negb (dim f 0 =? 1) || negb (dim f 1 =? dim R 0) then false else
  if negb (dim R 1 =? dim M 1 + 1) then false else
  true.

Definition Adjust (step : Step) : Result Step :=
  let step := on_input 1 (SetRequiredOrder ROW_MAJOR) step in
  let step := on_output 0 (SetRequiredOrder ROW_MAJOR) step in
  Ok step.

Definition Generate (step : Step) : Masm unit :=
  let l1 : Label := 1%nat in
  let l2 : Label := 2%nat in
  let l3 : Label := 3%nat in
  (* Get inputs and outputs. *)
  let f := input step 0 in
  let M := input step 1 in
  let R := output step 0 in
  (* Get size of activation vectors. *)
  let dims := dim M 1 in
  (* Get number input features. *)
  let num_features := dim f 1 in
  (* Allocate registers. *)
  rr_use rsi ;;
  rr_use rdi ;;
  rr_use rcx ;;
  acc ← rr_alloc ;
  input ← rr_alloc ;
  activations ← rr_alloc ;
  output ← rr_alloc ;
  index ← rr_alloc ;
  one ← rr_alloc ;
  rr_release rsi ;;
  rr_release rdi ;;
  rr_release rcx ;;
  (* Load tensor locations. *)
  LoadTensorAddress input f ;;
  LoadTensorAddress activations M ;;
  LoadTensorAddress output R ;;
  (* Loop over input features. *)
  when (negb (num_features =? 1)) (
    emit (xorq index index) ;;
    LoopStart l1) ;;
  (* Get next feature index. *)
  (if num_features =? 1
   then emit (movsxlq acc (Operand_ input))
   else emit (movsxlq acc (OperandI input index times_4))) ;;
  (* Check for OOV feature. *)
  emit (testq acc acc) ;;
  emit (j negative l2) ;;
  (* Copy activation vector to output. *)
  Multiply acc (stride M 0) ;;
  emit (addq acc activations) ;;
  Copy output 0 acc 0 (dims * sizeof_float) ;;
  emit (jmp l3) ;;
  (* Set OOV indicator to 1.0 if feature is -1. *)
  emit (bind l2) ;;
  emit (cmpq acc (Immediate (-1))) ;;
  emit (j not_equal l3) ;;
  emit (movl one (Immediate 0x3f800000)) ;;
  emit (movl (OperandD output (dims * sizeof_float)) one) ;;
  (* Next feature. *)
  emit (bind l3) ;;
  when (negb (num_features =? 1)) (
    emit (addq output (Immediate (stride R 0))) ;;
    emit (incq index) ;;
    emit (cmpq index (Immediate num_features)) ;;
    emit (j not_equal l1)).

Definition Complexity (step : Step) : Z := 0.

Definition kernel : Kernel :=
  mkKernel Name Operation Supports Adjust Generate (Some Complexity).
End DragnnCollect.

(** Dragnn feature lookup operation for fixed features mapped through an
    embedding matrix. *)
Module DragnnLookup.
Definition Name : string := "DragnnLookup".
Definition Operation : string := "Lookup".

Definition Supports (step : Step) : bool :=
  (* Check inputs and outputs. *)
  if negb (indegree step =? 2) || negb (outdegree step =? 1) then false else
  (* Check types. *)
  let f := input step 0 in
  let M := input step 1 in
  let v := output step 0 in
  if negb (Type_eqb (type_ f) DT_INT32) then false else
  if negb (Type_eqb (type_ M) DT_FLOAT) || negb (rank M =? 2) then false else
  if negb (Type_eqb (type_ v) DT_FLOAT) || negb (rank v =? 2) then false else
  if negb (dim v 0 =? 1) || negb (dim v 1 =? dim M 1) then false else
  true.

Definition Adjust (step : Step) : Result Step :=
  (* Embedding matrix must be row-major. *)
  Ok (on_input 1 (SetRequiredOrder ROW_MAJOR) step).

Definition Generate (step : Step) : Masm unit :=
  let l1 : Label := 1%nat in
  let l2 : Label := 2%nat in
  let l3 : Label := 3%nat in
  let l4 : Label := 4%nat in
  (* Get inputs and outputs. *)
  let f := input step 0 in
  let M := input step 1 in
  let v := output step 0 in
  (* Get embedding size and dimension. The last element is the OOV element. *)
  let embedding_size := dim M 0 - 1 in
  let embedding_dims := dim v 1 in
  (* Get number input features. *)
  let num_features := dim f 1 in
  (* Allocate registers. *)
  acc ← rr_alloc ;
  input ← rr_alloc ;
  embeddings ← rr_alloc ;
  output ← rr_alloc ;
  col ← rr_alloc ;
  row ← rr_alloc ;
  oov ← rr_alloc ;
  elem ← mm_allocx ;
  (* Load tensor locations. *)
  LoadTensorAddress input f ;;
  LoadTensorAddress embeddings M ;;
  LoadTensorAddress output v ;;
  (* Loop over input features. *)
  emit (movq oov (Immediate embedding_size)) ;;
  emit (xorq col col) ;;
  LoopStart l1 ;;
  (* Get next feature index. *)
  emit (movsxlq acc (OperandI input col times_4)) ;;
  (* Use OOV for if feature is -1, otherwise skip feature if it is negative. *)
  emit (testq acc acc) ;;
  emit (j positive l2) ;;
  emit (cmpq acc (Immediate (-1))) ;;
  emit (j not_equal l4) ;;
  emit (movq acc oov) ;;
  (* Compute address of embedding vector. *)
  emit (bind l2) ;;
  Multiply acc (stride M 0) ;;
  emit (leaq acc (OperandI embeddings acc times_1)) ;;
  (* Add embedding vector to output. *)
  emit (xorq row row) ;;
  LoopStart l3 ;;
  emit (movss (Vec elem) (OperandI output row times_4)) ;;
  emit (addss elem (OperandI acc row times_4)) ;;
  emit (movss (OperandI output row times_4) (Vec elem)) ;;
  emit (incq row) ;;
  emit (cmpq row (Immediate embedding_dims)) ;;
  emit (j not_equal l3) ;;
  (* Next feature. *)
  emit (bind l4) ;;
  emit (incq col) ;;
  emit (cmpq col (Immediate num_features)) ;;
  emit (j not_equal l1).

Definition Complexity (step : Step) : Z :=
  elements (input step 0) * elements (output step 0).

Definition kernel : Kernel :=
  mkKernel Name Operation Supports Adjust Generate (Some Complexity).
End DragnnLookup.

(** Dragnn feature lookup operation for single fixed features mapped through
    an embedding matrix. This just outputs a reference to the row in the
    embedding matrix. *)
Module DragnnLookupSingle.
Definition Name : string := "DragnnLookupSingle".
Definition Operation : string := "Lookup".

Definition Supports (step : Step) : bool :=
  (* Check inputs and outputs. *)
  if negb (indegree step =? 2) || negb (outdegree step =? 1) then false else
  (* Check types. *)
  let f := input step 0 in
  let M := input step 1 in
  let v := output step 0 in
  if negb (Type_eqb (type_ f) DT_INT32) || negb (elements f =? 1)
  then false else
  if negb (Type_eqb (type_ M) DT_FLOAT) || negb (rank M =? 2) then false else
  if negb (Type_eqb (type_ v) DT_FLOAT) || negb (rank v =? 2) then false else
  if negb (dim v 0 =? 1) || negb (dim v 1 =? dim M 1) then false else
  true.

Definition Adjust (step : Step) : Result Step :=
  (* Make output a reference into the embedding matrix. *)
  let step := on_output 0 (set_ref true) step in
  let step := on_output 0 (set_link (input step 1)) step in
  (* Embedding matrix must be row-major. *)
  let step := on_input 1 (SetRequiredOrder ROW_MAJOR) step in
  Ok step.

Definition Generate (step : Step) : Masm unit :=
  (* Get inputs and outputs. *)
  let f := input step 0 in
  let M := input step 1 in
  let v := output step 0 in
  (* Get embedding size. The last element is the OOV element. *)
  let embedding_size := dim M 0 - 1 in
  (* Allocate registers. *)
  acc ← rr_alloc ;
  oov ← rr_alloc ;
  embeddings ← rr_alloc ;
  (* Get feature index. *)
  CHECK (negb (ref_ f)) "!f->ref()" ;;
  emit (movsxlq acc (OperandD instance (offset_ f))) ;;
  (* Use OOV for negative index. *)
  emit (movq oov (Immediate embedding_size)) ;;
  emit (testq acc acc) ;;
  emit (cmovq negative acc oov) ;;
  (* Compute offset in embedding. *)
  Multiply acc (stride M 0) ;;
  (* Lookup element in embedding. *)
  LoadTensorAddress embeddings M ;;
  emit (addq acc embeddings) ;;
  (* Save reference to embedding vector. *)
  emit (movq (OperandD instance (offset_ v)) acc).

Definition Complexity (step : Step) : Z := 0.

Definition kernel : Kernel :=
  mkKernel Name Operation Supports Adjust Generate (Some Complexity).
End DragnnLookupSingle.

(** Dragnn feature lookup operation for fixed features mapped through an
    embedding matrix. This can be used when the size of the embedding is small
    enough to fit into registers. *)
Module DragnnLookupUnrolled.
Definition Name : string := "DragnnLookupUnrolled".
Definition Operation : string := "Lookup".

Definition kBlockSize : Z := 8.
Definition kMaxEmbeddingDim : Z := kBlockSize * 16.

Definition Supports (cpu : CPU) (step : Step) : bool :=
  (* Requires CPU with AVX support. *)
  if negb (Enabled cpu AVX) then false else
  (* Check inputs and outputs. *)
  if negb (indegree step =? 2) || negb (outdegree step =? 1) then false else
  (* Check types. *)
  let f := input step 0 in
  let M := input step 1 in
  let v := output step 0 in
  if negb (Type_eqb (type_ f) DT_INT32) then false else
  if negb (Type_eqb (type_ M) DT_FLOAT) || negb (rank M =? 2) then false else
  if negb (Type_eqb (type_ v) DT_FLOAT) || negb (rank v =? 2) then false else
  if negb (dim v 0 =? 1) || negb (dim v 1 =? dim M 1) then false else
  (* Check if embedding dimension allows us to unroll. *)
  let embedding_dims := dim M 1 in
  if embedding_dims >? kMaxEmbeddingDim then false else
  if negb (Z.rem embedding_dims kBlockSize =? 0) then false else
  true.

Definition Adjust (step : Step) : Result Step :=
  (* Align embeddings and output. *)
  let align := kBlockSize * sizeof_float in
  let step := on_input 1 (Align [1; kBlockSize]) step in
  let step := on_input 1 (SetMiniumAlignment align) step in
  let step := on_output 0 (Align [1; kBlockSize]) step in
  let step := on_output 0 (SetMiniumAlignment align) step in
  (* Embedding matrix must be row-major. *)
  let step := on_input 1 (SetRequiredOrder ROW_MAJOR) step in
  Ok step.

(** [for (int i = 0; i < blocks; ++i) sum.push_back(mm.allocy())]. *)
Fixpoint alloc_sum (blocks : nat) : Masm (list YMMRegister) :=
  match blocks with
  | O => ret []
  | S n => r ← mm_allocy ; rest ← alloc_sum n ; ret (r :: rest)
  end.

Definition Generate (step : Step) : Masm unit :=
  let l1 : Label := 1%nat in
  let l2 : Label := 2%nat in
  let l3 : Label := 3%nat in
  (* Get inputs and outputs. *)
  let f := input step 0 in
  let M := input step 1 in
  let v := output step 0 in
  (* Get embedding size and dimension. The last element is the OOV element. *)
  let embedding_size := dim M 0 - 1 in
  let embedding_dims := dim v 1 in
  (* Get number input features. *)
  let num_features := dim f 1 in
  (* Allocate registers. *)
  acc ← rr_alloc ;
  input ← rr_alloc ;
  embeddings ← rr_alloc ;
  output ← rr_alloc ;
  col ← rr_alloc ;
  oov ← rr_alloc ;
  (* Allocate registers for summing embedding vectors. *)
  let blocks := Z.quot embedding_dims kBlockSize in
  sum ← alloc_sum (Z.to_nat blocks) ;
  let sum_ (i : nat) : YMMRegister := nth i sum 0%nat in
  (* Load tensor locations. *)
  LoadTensorAddress input f ;;
  LoadTensorAddress embeddings M ;;
  LoadTensorAddress output v ;;
  (* Clear output vector. *)
  for_ blocks (fun i => emit (vxorps (sum_ i) (sum_ i) (sum_ i))) ;;
  (* Loop over input features. *)
  emit (movq oov (Immediate embedding_size)) ;;
  emit (xorq col col) ;;
  LoopStart l1 ;;
  (* Get next feature index. *)
  emit (movsxlq acc (OperandI input col times_4)) ;;
  (* Use OOV for negative index. *)
  emit (testq acc acc) ;;
  emit (j positive l2) ;;
  emit (cmpq acc (Immediate (-1))) ;;
  emit (j not_equal l3) ;;
  emit (movq acc oov) ;;
  (* Compute address of embedding vector. *)
  emit (bind l2) ;;
  Multiply acc (stride M 0) ;;
  emit (addq acc embeddings) ;;
  (* Add embedding vector to sum. *)
  for_ blocks (fun i =>
    emit (vaddps (sum_ i) (sum_ i)
            (OperandD acc (Z.of_nat i * kBlockSize * sizeof_float)))) ;;
  (* Next feature. *)
  emit (bind l3) ;;
  emit (incq col) ;;
  emit (cmpq col (Immediate num_features)) ;;
  emit (j not_equal l1) ;;
  (* Store sum. *)
  for_ blocks (fun i =>
    emit (vmovaps (OperandD output (Z.of_nat i * kBlockSize * sizeof_float))
            (sum_ i))).

Definition Complexity (step : Step) : Z :=
  elements (input step 0) * elements (output step 0).

Definition kernel (cpu : CPU) : Kernel :=
  mkKernel Name Operation (Supports cpu) Adjust Generate (Some Complexity).
End DragnnLookupUnrolled.

(** Output concatenation of input tensors. *)
Module DragnnConcat.
Definition Name : string := "DragnnConcat".
Definition Operation : string := "ConcatV2".

Definition Supports (step : Step) : bool :=
  (* Check inputs and outputs. *)
  if (indegree step <? 2) || negb (outdegree step =? 1) then false else
  (* Only concatenation along first axis supported. *)
  let n := indegree step - 1 in
  let axis := input step (Z.to_nat n) in
  if negb (value_int32 axis =? 1) then false else
  true.

Definition Adjust (step : Step) : Result Step := Ok step.

(** The body of [for (int i = 0; i < n; ++i)], which carries [offset] from
    one input to the next; [i] counts from [i0]. *)
Fixpoint copy_inputs (step : Step) (src dst : Register) (i0 : nat) (n : nat)
    (offset : Z) : Masm Z :=
  match n with
  | O => ret offset
  | S n' =>
      let size := size_ (input step i0) in
      LoadTensorAddress src (input step i0) ;;
      Copy dst offset src 0 size ;;
      copy_inputs step src dst (S i0) n' (offset + size)
  end.

Definition Generate (step : Step) : Masm unit :=
  (* The last inputs is the axis. *)
  let n := indegree step - 1 in
  (* Allocate registers. *)
  src ← rr_alloc_preferred r8 ;
  dst ← rr_alloc_preferred r9 ;
  (* Load output tensor. *)
  LoadTensorAddress dst (output step 0) ;;
  (* Copy input tensors to output. *)
  offset ← copy_inputs step src dst 0 (Z.to_nat n) 0 ;
  CHECK (offset =? size_ (output step 0))
        "offset == step->output(0)->size()".

Definition Complexity (step : Step) : Z := 0.

Definition kernel : Kernel :=
  mkKernel Name Operation Supports Adjust Generate (Some Complexity).
End DragnnConcat.

(** Reshape operation that can be used when the output has the same memory
    layout as the input. This is a no-op and just alias the output and the
    input. *)
Module NoOpReshape.
Definition Name : string := "NoOpReshape".
Definition Operation : string := "Reshape".

Definition Supports (step : Step) : bool :=
  (* Check inputs and outputs. *)
  if negb (indegree step =? 2) || negb (outdegree step =? 1) then false else
  let x := input step 0 in
  let y := output step 0 in
  if negb (Type_eqb (type_ x) (type_ y)) then false else
  if negb (elements x =? elements y) then false else
  if negb (Z.of_nat (length (consumers_ x)) =? 1) then false else
  true.

Definition Adjust (step : Step) : Result Step :=
  let step := on_output 0 (set_ref (ref_ (input step 0))) step in
  let (granted, step) := AllowInPlace 0 0 step in
  if granted then Ok step else Fatal "step->AllowInPlace(0, 0)".

Definition Generate (step : Step) : Masm unit :=
  (* Operation is a no-op. *)
  CHECK (SharedWith (input step 0) (output step 0))
        "step->input(0)->SharedWith(step->output(0))".

Definition Complexity (step : Step) : Z := 0.

Definition kernel : Kernel :=
  mkKernel Name Operation Supports Adjust Generate (Some Complexity).
End NoOpReshape.

(** ** Type inference for Dragnn ops *)

(** The variables of a flow are shared between the operations that produce
    and consume them: an operation holds pointers.  The model keeps the
    variables in a store and lets an operation name its outputs by their
    position in it. *)
Module Flow.
Record Variable_ : Set := mkVariable {
  name : string;
  type : Type_;
  shape : list Z
}.

Record Operation : Set := mkOperation {
  op_name : string;
  op_type : string;
  inputs : list nat;
  outputs : list nat
}.

Definition outdegree (op : Operation) : Z := Z.of_nat (length (outputs op)).
End Flow.

Abbreviation Store := (list Flow.Variable_).

Record Typer : Type := mkTyper {
  InferTypes : Flow.Operation -> Store -> bool * Store
}.

Module DragnnTyper.
Definition InferTypes (op : Flow.Operation) (vars : Store)
    : bool * Store :=
  let vars :=
    if String.eqb (Flow.op_type op) "DragnnEmbeddingInitializer" then
      if Flow.outdegree op =? 1 then
        let result := nth 0 (Flow.outputs op) 0%nat in
        (* result->type = DT_INT32; result->shape.clear(); *)
        alter (fun v => Flow.mkVariable (Flow.name v) DT_INT32 []) result vars
      else vars
    else vars in
  (false, vars).

Definition typer : Typer := mkTyper InferTypes.
End DragnnTyper.

(** ** Registration *)

Record Library : Type := mkLibrary {
  kernels : list Kernel;
  typers : list Typer
}.

Definition empty_library : Library := mkLibrary [] [].

Definition Register_ (k : Kernel) (library : Library) : Library :=
  mkLibrary (kernels library ++ [k]) (typers library).
Definition RegisterTyper (t : Typer) (library : Library) : Library :=
  mkLibrary (kernels library) (typers library ++ [t]).

(** Register Dragnn kernels. *)
Definition RegisterDragnnKernels (cpu : CPU) (library : Library) : Library :=
  let library := Register_ DragnnInitializer.kernel library in
  let library := Register_ DragnnLookupSingle.kernel library in
  let library := Register_ (DragnnLookupUnrolled.kernel cpu) library in
  let library := Register_ DragnnLookup.kernel library in
  let library := Register_ DragnnCollect.kernel library in
  let library := Register_ DragnnConcat.kernel library in
  let library := Register_ NoOpReshape.kernel library in
  RegisterTyper DragnnTyper.typer library.

(** Modelled from the spec: the registry's lookup is not in the sources at
    hand.  The spec: "for a graph node requiring operation O, the registry
    offers each registered kernel for O, in registration order, and the
    compiler binds the node to the first kernel whose applicability predicate
    succeeds". *)
Definition select (library : Library) (step : Step) : option Kernel :=
  find (fun k => String.eqb (Operation k) (step_type step) && Supports k step)
       (kernels library).

(** ** Single-precision arithmetic

    The bit patterns of IEEE 754 binary32 numbers, with addition rounded to
    nearest even as [addss] and [vaddps] perform it under the default MXCSR.
    A NaN operand is passed on as the instructions pass it on: the result is
    the first operand if it is a NaN, else the second, with the quiet bit
    set; an invalid addition (of infinities of opposite sign) gives the
    default quiet NaN. *)
Module Binary32.
Definition prec : Z := 24.
Definition emax : Z := 128.

Definition decode (w : Z) : spec_float :=
  let s := Z.testbit w 31 in
  let e := Z.land (Z.shiftr w 23) 255 in
  let m := Z.land w (2 ^ 23 - 1) in
  if e =? 0 then
    match m with
    | Zpos p => S754_finite s p (-149)
    | _ => S754_zero s
    end
  else if e =? 255 then
    if m =? 0 then S754_infinity s else S754_nan
  else
    match m + 2 ^ 23 with
    | Zpos p => S754_finite s p (e - 150)
    | _ => S754_nan
    end.

Definition sign_bit (s : bool) : Z := if s then 2 ^ 31 else 0.

(** The bit pattern of a number of the format (reduced to 32 bits, which
    changes nothing for the numbers of the format). *)
Definition encode (x : spec_float) : Z :=
  match x with
  | S754_zero s => sign_bit s
  | S754_infinity s => sign_bit s + 255 * 2 ^ 23
  | S754_nan => 0xffc00000
  | S754_finite s m e =>
      if Zpos m <? 2 ^ 23 then sign_bit s + Zpos m
      else sign_bit s + (e + 150) * 2 ^ 23 + (Zpos m - 2 ^ 23)
  end mod 2 ^ 32.

Definition is_nan (w : Z) : bool :=
  (Z.land (Z.shiftr w 23) 255 =? 255) && negb (Z.land w (2 ^ 23 - 1) =? 0).

(** The quiet NaN of a NaN: the top bit of the fraction is set (the result
    is reduced to 32 bits, which changes nothing for a 32-bit pattern). *)
Definition quiet (w : Z) : Z := Z.lor w (2 ^ 22) mod 2 ^ 32.

Definition add (a b : Z) : Z :=
  if is_nan a then quiet a
  else if is_nan b then quiet b
  else encode (SFadd prec emax (decode a) (decode b)).

Definition one : Z := 0x3f800000.
End Binary32.

(** ** The machine the emitted code runs on *)

Definition wrap64 (v : Z) : Z := v mod 2 ^ 64.

Definition Memory : Type := Z -> Z.

(** Little-endian loads and stores of [n] bytes. *)
Fixpoint load (n : nat) (m : Memory) (a : Z) : Z :=
  match n with
  | O => 0
  | S n' => m a + 256 * load n' m (a + 1)
  end.

Definition byte_of (i : Z) (v : Z) : Z := (v / 256 ^ i) mod 256.

Definition store (n : nat) (m : Memory) (a : Z) (v : Z) : Memory :=
  fun x => if (a <=? x) && (x <? a + Z.of_nat n) then byte_of (x - a) v
           else m x.

(** Modelled from the spec: [MacroAssembler::Copy] is not in the sources at
    hand; the spec lists a bulk byte copy among the emission primitives.
    [copy] is its effect on the memory: [size] bytes from [src] to [dst], the
    source being read before the destination is written (the kernels copy
    between tensors that do not overlap). *)
Definition copy (m : Memory) (dst src size : Z) : Memory :=
  fun x => if (dst <=? x) && (x <? dst + size) then m (src + (x - dst))
           else m x.

Record Flags : Set := mkFlags { ZF : bool; SF : bool }.

(** The state of the machine: the position in the code, the sixteen general
    registers (by register number, each holding a value below 2^64), the
    flags ([None] when undefined), the sixteen vector registers (eight
    single-precision lanes each) and the memory. *)
Record Machine : Type := mkMachine {
  pc : nat;
  regs : list Z;
  flags : option Flags;
  simd : list (list Z);
  mem : Memory
}.

Definition reg (st : Machine) (r : Register) : Z :=
  nth (code_of r) (regs st) 0.
Definition lanes (st : Machine) (x : nat) : list Z :=
  nth x (simd st) [].

Definition flags_of (result : Z) : option Flags :=
  Some (mkFlags (result =? 0) (Z.testbit result 63)).

Definition holds (cc : Condition) (f : Flags) : bool :=
  match cc with
  | positive => negb (SF f)
  | negative => SF f
  | not_equal => negb (ZF f)
  end.

Definition address (st : Machine) (op : Operand) : Z :=
  match op with
  | Operand_ b => reg st b
  | OperandD b d => wrap64 (reg st b + d)
  | OperandI b i s => wrap64 (reg st b + reg st i * scale_of s)
  end.

(** Modelled from the spec: [MacroAssembler::LoadTensorAddress] is not in the
    sources at hand; the spec calls it the address computation for a tensor's
    storage.  A constant tensor is stored at its data pointer, any other
    tensor at its offset in the instance block; for a reference tensor that
    slot holds the address of the storage instead of the storage. *)
Definition slot_of (data : Z) (t : Tensor) : Z :=
  match data_ t with
  | Some p => p
  | None => wrap64 (data + offset_ t)
  end.

Definition tensor_address (data : Z) (m : Memory) (t : Tensor) : Z :=
  if ref_ t then load 8 m (slot_of data t) else slot_of data t.

Fixpoint find_label_from (l : Label) (prog : list Instr) (k : nat)
    : option nat :=
  match prog with
  | [] => None
  | bind l' :: rest =>
      if Nat.eqb l l' then Some k else find_label_from l rest (S k)
  | _ :: rest => find_label_from l rest (S k)
  end.
Definition find_label (l : Label) (prog : list Instr) : option nat :=
  find_label_from l prog 0.

Definition next (st : Machine) : Machine :=
  mkMachine (S (pc st)) (regs st) (flags st) (simd st) (mem st).
Definition goto (k : nat) (st : Machine) : Machine :=
  mkMachine k (regs st) (flags st) (simd st) (mem st).
Definition with_reg (r : Register) (v : Z) (st : Machine) : Machine :=
  mkMachine (pc st) (<[code_of r := v]> (regs st)) (flags st) (simd st)
            (mem st).
Definition with_flags (f : option Flags) (st : Machine) : Machine :=
  mkMachine (pc st) (regs st) f (simd st) (mem st).
Definition with_lanes (x : nat) (v : list Z) (st : Machine) : Machine :=
  mkMachine (pc st) (regs st) (flags st) (<[x := v]> (simd st)) (mem st).
Definition with_mem (m : Memory) (st : Machine) : Machine :=
  mkMachine (pc st) (regs st) (flags st) (simd st) m.

Definition jump (prog : list Instr) (l : Label) (st : Machine)
    : option Machine :=
  match find_label l prog with
  | Some k => Some (goto k st)
  | None => None
  end.

(** The value of a source operand of a 64-bit instruction; a 32-bit immediate
    is sign-extended. *)
Definition value64 (st : Machine) (a : Arg) : Z :=
  match a with
  | Reg r => reg st r
  | Immediate v => wrap64 v
  | Mem op => load 8 (mem st) (address st op)
  end.

Definition trunc32 (v : Z) : Z := v mod 2 ^ 32.

(** The single-precision lanes of a vector in memory. *)
Fixpoint load_lanes (n : nat) (m : Memory) (a : Z) : list Z :=
  match n with
  | O => []
  | S n' => load 4 m a :: load_lanes n' m (a + 4)
  end.

Fixpoint store_lanes (m : Memory) (a : Z) (v : list Z) : Memory :=
  match v with
  | [] => m
  | x :: rest => store_lanes (store 4 m a x) (a + 4) rest
  end.

(** One instruction.  [None] is a fault: an operand form the instruction does
    not have, a branch on undefined flags or to an unbound label, a misaligned
    [vmovaps].  The sign and zero flags are tracked; [imulq] leaves them
    undefined.  A scalar move from memory clears lanes 1 to 3 of the
    destination.  [Copy_] is taken to run as a string move, for which
    [DragnnCollect] keeps [rsi], [rdi] and [rcx] out of its own registers: it
    leaves them at the end of the copied ranges. *)
Definition exec (prog : list Instr) (i : Instr) (st : Machine)
    : option Machine :=
  match i with
  | bind _ => Some (next st)
  | j cc l =>
      match flags st with
      | Some f => if holds cc f then jump prog l st else Some (next st)
      | None => None
      end
  | jmp l => jump prog l st
  | movq (Reg d) src => Some (next (with_reg d (value64 st src) st))
  | movq (Mem op) (Reg s) =>
      Some (next (with_mem (store 8 (mem st) (address st op) (reg st s)) st))
  | movq _ _ => None
  | movl (Reg d) (Immediate v) => Some (next (with_reg d (trunc32 v) st))
  | movl (Reg d) (Reg s) => Some (next (with_reg d (trunc32 (reg st s)) st))
  | movl (Reg d) (Mem op) =>
      Some (next (with_reg d (load 4 (mem st) (address st op)) st))
  | movl (Mem op) (Reg s) =>
      Some (next (with_mem
                    (store 4 (mem st) (address st op) (trunc32 (reg st s)))
                    st))
  | movl _ _ => None
  | movsxlq d op =>
      let v := signed 32 (load 4 (mem st) (address st op)) in
      Some (next (with_reg d (wrap64 v) st))
  | leaq d op => Some (next (with_reg d (address st op) st))
  | xorq d s =>
      let v := Z.lxor (reg st d) (reg st s) in
      Some (next (with_flags (flags_of v) (with_reg d v st)))
  | addq d src =>
      let v := wrap64 (reg st d + value64 st src) in
      Some (next (with_flags (flags_of v) (with_reg d v st)))
  | incq d =>
      let v := wrap64 (reg st d + 1) in
      Some (next (with_flags (flags_of v) (with_reg d v st)))
  | imulq d s imm =>
      let v := wrap64 (reg st s * imm) in
      Some (next (with_flags None (with_reg d v st)))
  | testq a b =>
      Some (next (with_flags (flags_of (Z.land (reg st a) (reg st b))) st))
  | cmpq a b =>
      Some (next (with_flags (flags_of (wrap64 (reg st a - value64 st b))) st))
  | cmovq cc d s =>
      match flags st with
      | Some f =>
          Some (next (if holds cc f then with_reg d (reg st s) st else st))
      | None => None
      end
  | movss (Vec x) (VMem op) =>
      let v := load 4 (mem st) (address st op) in
      Some (next (with_lanes x ([v; 0; 0; 0] ++ drop 4 (lanes st x)) st))
  | movss (VMem op) (Vec x) =>
      Some (next (with_mem
                    (store 4 (mem st) (address st op) (nth 0 (lanes st x) 0))
                    st))
  | movss (Vec x) (Vec y) =>
      Some (next (with_lanes x (nth 0 (lanes st y) 0 :: drop 1 (lanes st x))
                             st))
  | movss (VMem _) (VMem _) => None
  | addss x op =>
      let v := Binary32.add (nth 0 (lanes st x) 0)
                            (load 4 (mem st) (address st op)) in
      Some (next (with_lanes x (v :: drop 1 (lanes st x)) st))
  | vxorps d a b =>
      Some (next (with_lanes d (zip_with Z.lxor (lanes st a) (lanes st b)) st))
  | vaddps d a op =>
      Some (next (with_lanes d
                    (zip_with Binary32.add (lanes st a)
                       (load_lanes 8 (mem st) (address st op)))
                    st))
  | vmovaps op s =>
      let a := address st op in
      if a mod 32 =? 0
      then Some (next (with_mem (store_lanes (mem st) a (lanes st s)) st))
      else None
  | LoadTensorAddress_ d t =>
      Some (next (with_reg d (tensor_address (reg st instance) (mem st) t) st))
  | Copy_ dst ofs1 src ofs2 size =>
      let to := wrap64 (reg st dst + ofs1) in
      let from := wrap64 (reg st src + ofs2) in
      Some (next
              (with_reg rcx 0
                 (with_reg rdi (wrap64 (to + size))
                    (with_reg rsi (wrap64 (from + size))
                       (with_mem (copy (mem st) to from size) st)))))
  end.

Inductive Outcome : Type :=
| Halted (st : Machine)
| Faulted
| OutOfFuel.

(** Running the code from the current position until control falls off its
    end, for at most [fuel] instructions. *)
Fixpoint run (fuel : nat) (prog : list Instr) (st : Machine) : Outcome :=
  match nth_error prog (pc st) with
  | None => Halted st
  | Some i =>
      match fuel with
      | O => OutOfFuel
      | S fuel' =>
          match exec prog i st with
          | Some st' => run fuel' prog st'
          | None => Faulted
          end
      end
  end.

(** The code a kernel emits for a step, from a fresh assembler. *)
Definition emitted (generate : Step -> Masm unit) (step : Step)
    : Result (list Instr) :=
  match generate step new_masm with
  | Ok (_, masm) => Ok (code masm)
  | Fatal msg => Fatal msg
  end.


(** * Auxiliary notions for the statements *)

(** [steps n prog st]: the machine after exactly [n] instructions. *)
Fixpoint steps (n : nat) (prog : list Instr) (st : Machine) : option Machine :=
  match n with
  | O => Some st
  | S n' =>
      match nth_error prog (pc st) with
      | Some i =>
          match exec prog i st with
          | Some st' => steps n' prog st'
          | None => None
          end
      | None => None
      end
  end.

(** [reaches prog st st']: the machine goes from [st] to [st'] in some number
    of instructions. *)
Definition reaches (prog : list Instr) (st st' : Machine) : Prop :=
  exists k, steps k prog st = Some st'.

(** The memory holds the 32-bit two's complement integer [v] at [a]. *)
Definition holds_int32 (m : Memory) (a : Z) (v : Z) : Prop :=
  - 2 ^ 31 <= v < 2 ^ 31 /\ load 4 m a = v mod 2 ^ 32.

(** The byte range [a, a + n) lies outside [lo, hi). *)
Definition apart (lo hi : Z) (a n : Z) : Prop := a + n <= lo \/ hi <= a.

(** A tensor whose storage is addressable and lies, with the slot that holds
    its address if it is a reference, outside the byte range [lo, hi). *)
Definition stored_outside (data : Z) (m : Memory) (lo hi : Z) (t : Tensor)
    : Prop :=
  0 <= size_ t /\
  0 <= tensor_address data m t < 2 ^ 64 /\
  tensor_address data m t + size_ t <= 2 ^ 64 /\
  apart lo hi (tensor_address data m t) (size_ t) /\
  (ref_ t = true -> apart lo hi (slot_of data t) 8).

(** A machine at the entry of generated code.  The code of a step runs
    after the code of other steps: control is at its first instruction, the
    instance register holds the address [data] of the instance block and the
    memory is [m]; the other general registers, the flags and the sixteen
    vector registers (eight lanes each) hold what has been left in them. *)
Definition entered (data : Z) (m : Memory) (st : Machine) : Prop :=
  pc st = 0%nat /\
  length (regs st) = 16%nat /\
  reg st instance = data /\
  length (simd st) = 16%nat /\
  Forall (fun v => length v = 8%nat) (simd st) /\
  mem st = m.

(** An entry state with something left in every register: -1 in the general
    registers, both flags set, 1.0 in every lane of the vector registers. *)
Definition dirty_entry (data : Z) (m : Memory) : Machine :=
  mkMachine 0 (<[code_of instance := data]> (replicate 16 (2 ^ 64 - 1)))
            (Some (mkFlags true true))
            (replicate 16 (replicate 8 0x3f800000)) m.


(** ** Straight-line code *)

(** Instructions after which control goes to the next instruction. *)
Definition sequential (i : Instr) : bool :=
  match i with
  | j _ _ | jmp _ => false
  | _ => true
  end.

(** The effect of a block of sequential instructions, one after the other
    (no label is looked up, so the surrounding code does not matter). *)
Fixpoint exec_list (block : list Instr) (st : Machine) : option Machine :=
  match block with
  | [] => Some st
  | i :: rest =>
      match exec [] i st with
      | Some st' => exec_list rest st'
      | None => None
      end
  end.

(** ** The lookup as the spec words it

    "Zero the output; for each of the N feature ids, resolve to a row (OOV
    row if id == -1, skip entirely if id < -1, otherwise the row at that
    index), then add the resolved row element-wise into the output
    accumulator." *)
Definition resolve (rows : Z) (id : Z) : option Z :=
  if id =? -1 then Some (rows - 1)
  else if id <? -1 then None
  else Some id.

Definition add_row (acc row : list Z) : list Z :=
  zip_with Binary32.add acc row.

(** The resolved rows are added, in the order of the features, to the
    vector [init]; [row r] is row [r] of the matrix and [rows] the number of
    its rows, the last one being the OOV row. *)
Definition lookup_accumulate (rows : Z) (row : Z -> list Z) (ids : list Z)
    (init : list Z) : list Z :=
  fold_left
    (fun acc id =>
       match resolve rows id with
       | Some r => add_row acc (row r)
       | None => acc
       end)
    ids init.

(** The sum the spec asks for: the accumulation from a cleared vector.  The
    matrix is given by its rows. *)
Definition lookup_sum (dims : nat) (M : list (list Z)) (ids : list Z)
    : list Z :=
  lookup_accumulate (Z.of_nat (length M)) (fun r => nth (Z.to_nat r) M [])
                    ids (replicate dims 0).

(** The feature ids [ids i], [ids (i + 1)], ... ([k] of them) as a list. *)
Fixpoint feature_list (ids : Z -> Z) (i : Z) (k : nat) : list Z :=
  match k with
  | O => []
  | S k' => ids i :: feature_list ids (i + 1) k'
  end.

(** * The emitted code, unfolded *)

(** ** The concatenation *)

(** The total size of the inputs [i0 .. i0 + n - 1] of a step. *)
Fixpoint sum_sizes (step : Step) (i0 n : nat) : Z :=
  match n with
  | O => 0
  | S n' => size_ (input step i0) + sum_sizes step (S i0) n'
  end.

(** The instructions [DragnnConcat.copy_inputs] appends. *)
Fixpoint concat_code (step : Step) (src dst : Register) (i0 n : nat)
    (offset : Z) : list Instr :=
  match n with
  | O => []
  | S n' =>
      LoadTensorAddress_ src (input step i0)
      :: Copy_ dst offset src 0 (size_ (input step i0))
      :: concat_code step src dst (S i0) n' (offset + size_ (input step i0))
  end.

(** The memory after these instructions have run. *)
Fixpoint concat_memory (step : Step) (data out : Z) (i0 n : nat) (offset : Z)
    (m : Memory) : Memory :=
  match n with
  | O => m
  | S n' =>
      let t := input step i0 in
      concat_memory step data out (S i0) n' (offset + size_ t)
        (copy m (wrap64 (out + offset))
              (wrap64 (tensor_address data m t + 0)) (size_ t))
  end.

(** ** The collect kernel *)

(** The instructions that handle one feature; [feature] is the operand the
    feature id is read from. *)
Definition collect_body (M R : Tensor) (feature : Operand) : list Instr :=
  [movsxlq rax feature;
   testq rax rax;
   j negative 2%nat;
   imulq rax rax (stride M 0);
   addq rax rbx;
   Copy_ r8 0 rax 0 (dim M 1 * sizeof_float);
   jmp 3%nat;
   bind 2%nat;
   cmpq rax (Immediate (-1));
   j not_equal 3%nat;
   movl r10 (Immediate 0x3f800000);
   movl (OperandD r8 (dim M 1 * sizeof_float)) r10;
   bind 3%nat].

(** The code [DragnnCollect.Generate] emits from a fresh assembler: for a
    single feature, and for several. *)
Definition collect_code_single (f M R : Tensor) : list Instr :=
  [LoadTensorAddress_ rdx f; LoadTensorAddress_ rbx M; LoadTensorAddress_ r8 R]
  ++ collect_body M R (Operand_ rdx).

Definition collect_code_loop (f M R : Tensor) : list Instr :=
  [LoadTensorAddress_ rdx f; LoadTensorAddress_ rbx M; LoadTensorAddress_ r8 R;
   xorq r9 r9; bind 1%nat]
  ++ collect_body M R (OperandI rdx r9 times_4)
  ++ [addq r8 (Immediate (stride R 0));
      incq r9;
      cmpq r9 (Immediate (dim f 1));
      j not_equal 1%nat].

(** What the code does to the output row at address [row] for the feature
    [id]: the embedding row [id] of the matrix at [base] (rows [ms] bytes
    apart, [dims] floats each) is copied for a non-negative id, the indicator
    after the [dims] floats is set to 1.0 for -1, nothing is written for
    another negative id. *)
Definition collect_row (dims ms base : Z) (row : Z) (id : Z) (m : Memory)
    : Memory :=
  if id <? 0 then
    if id =? -1 then store 4 m (row + dims * 4) Binary32.one else m
  else copy m row (base + id * ms) (dims * 4).

(** The memory after the features [i], [i + 1], ... ([k] of them) have been
    handled, feature [j] being [ids j] and the output rows lying [rs] bytes
    apart from [out]. *)
Fixpoint collect_rows (dims ms base out rs : Z) (ids : Z -> Z) (k : nat)
    (i : Z) (m : Memory) : Memory :=
  match k with
  | O => m
  | S k' =>
      collect_rows dims ms base out rs ids k' (i + 1)
        (collect_row dims ms base (out + i * rs) (ids i) m)
  end.

(** What the collect kernel owes to row [i] of the output, [m] being the
    memory before the code runs and [m'] the memory after it. *)
Definition collect_row_done (dims ms base out rs : Z) (ids : Z -> Z)
    (m m' : Memory) (i : Z) : Prop :=
  let row := out + i * rs in
  (0 <= ids i ->
   (forall k, 0 <= k < dims * 4 ->
      m' (row + k) = m (base + ids i * ms + k)) /\
   (forall k, dims * 4 <= k < dims * 4 + 4 -> m' (row + k) = m (row + k))) /\
  (ids i = -1 ->
   load 4 m' (row + dims * 4) = Binary32.one /\
   (forall k, 0 <= k < dims * 4 -> m' (row + k) = m (row + k))) /\
  (ids i < -1 ->
   forall k, 0 <= k < (dims + 1) * 4 -> m' (row + k) = m (row + k)).

(** ** The scalar lookup *)

(** The code [DragnnLookup.Generate] emits from a fresh assembler. *)
Definition lookup_code (f M v : Tensor) : list Instr :=
  [LoadTensorAddress_ rcx f;
   LoadTensorAddress_ rdx M;
   LoadTensorAddress_ rbx v;
   movq r8 (Immediate (dim M 0 - 1));
   xorq rsi rsi;
   bind 1%nat;
   movsxlq rax (OperandI rcx rsi times_4);
   testq rax rax;
   j positive 2%nat;
   cmpq rax (Immediate (-1));
   j not_equal 4%nat;
   movq rax r8;
   bind 2%nat;
   imulq rax rax (stride M 0);
   leaq rax (OperandI rdx rax times_1);
   xorq rdi rdi;
   bind 3%nat;
   movss (Vec 0) (OperandI rbx rdi times_4);
   addss 0%nat (OperandI rax rdi times_4);
   movss (OperandI rbx rdi times_4) (Vec 0);
   incq rdi;
   cmpq rdi (Immediate (dim v 1));
   j not_equal 3%nat;
   bind 4%nat;
   incq rsi;
   cmpq rsi (Immediate (dim f 1));
   j not_equal 1%nat].

(** The inner loop: the floats [r], [r + 1], ... ([k] of them) at [row] are
    added to those at [out]. *)
Fixpoint add_floats (k : nat) (r : Z) (row out : Z) (m : Memory) : Memory :=
  match k with
  | O => m
  | S k' =>
      add_floats k' (r + 1) row out
        (store 4 m (out + 4 * r)
               (Binary32.add (load 4 m (out + 4 * r))
                             (load 4 m (row + 4 * r))))
  end.

(** One feature: the row of a non-negative id or the OOV row (of index
    [oov]) for -1 is added to the output; another negative id is skipped. *)
Definition lookup_feature (dims ms base oov out : Z) (id : Z) (m : Memory)
    : Memory :=
  if id <? 0 then
    if id =? -1 then add_floats (Z.to_nat dims) 0 (base + oov * ms) out m
    else m
  else add_floats (Z.to_nat dims) 0 (base + id * ms) out m.

(** The features [i], [i + 1], ... ([k] of them), one after the other. *)
Fixpoint lookup_features (dims ms base oov out : Z) (ids : Z -> Z) (k : nat)
    (i : Z) (m : Memory) : Memory :=
  match k with
  | O => m
  | S k' =>
      lookup_features dims ms base oov out ids k' (i + 1)
        (lookup_feature dims ms base oov out (ids i) m)
  end.

(** The invariant of the scalar lookup run on an empty feature tensor
    (the bound of the outer loop is 0): once it has been cleared, [rsi], the
    index of the feature, holds [c] modulo 2^64; control is inside the code,
    and [c] is at least 1 once the index has been incremented; the flags are defined where a branch
    tests them, and the last branch tests whether the index is 0. *)
Definition counts_features (c : Z) (st : Machine) : Prop :=
  length (regs st) = 16%nat /\
  (pc st < 27)%nat /\
  0 <= c /\
  ((5 <= pc st)%nat -> reg st rsi = wrap64 c) /\
  ((25 <= pc st)%nat -> 1 <= c) /\
  (pc st = 8%nat -> flags st <> None) /\
  (pc st = 10%nat -> flags st <> None) /\
  (pc st = 22%nat -> flags st <> None) /\
  (pc st = 26%nat ->
   exists fl, flags st = Some fl /\
              ZF fl = (wrap64 (wrap64 c - wrap64 0) =? 0)).

(** ** The unrolled lookup *)

(** The three unrolled blocks, for [b] vector registers. *)
Definition unrolled_clear (b : nat) : list Instr :=
  map (fun i : nat => vxorps i i i) (seq 0 b).
Definition unrolled_add (b : nat) : list Instr :=
  map (fun i : nat =>
         vaddps i i
           (OperandD rax (Z.of_nat i * DragnnLookupUnrolled.kBlockSize
                          * sizeof_float)))
      (seq 0 b).
Definition unrolled_store (b : nat) : list Instr :=
  map (fun i : nat =>
         vmovaps
           (OperandD rbx (Z.of_nat i * DragnnLookupUnrolled.kBlockSize
                          * sizeof_float)) i)
      (seq 0 b).

(** The code [DragnnLookupUnrolled.Generate] emits from a fresh assembler
    for [b] blocks, cut at its branches, at the labels they go to and around
    the unrolled blocks. *)
Definition unrolled_segments (f M v : Tensor) (b : nat) : list (list Instr) :=
  [[LoadTensorAddress_ rcx f; LoadTensorAddress_ rdx M;
    LoadTensorAddress_ rbx v];
   unrolled_clear b;
   [movq rdi (Immediate (dim M 0 - 1)); xorq rsi rsi];
   [bind 1%nat; movsxlq rax (OperandI rcx rsi times_4); testq rax rax];
   [j positive 2%nat];
   [cmpq rax (Immediate (-1))];
   [j not_equal 3%nat];
   [movq rax rdi];
   [bind 2%nat; imulq rax rax (stride M 0); addq rax rdx];
   unrolled_add b;
   [bind 3%nat; incq rsi; cmpq rsi (Immediate (dim f 1))];
   [j not_equal 1%nat];
   unrolled_store b].

Definition unrolled_code (f M v : Tensor) (b : nat) : list Instr :=
  concat (unrolled_segments f M v b).

(** The vector registers 0 .. [b] - 1 hold the running sum [acc], eight
    floats each. *)
Definition sums_held (sd : list (list Z)) (acc : list Z) (b : nat) : Prop :=
  length sd = 16%nat /\
  forall i, (i < b)%nat -> sd !! i = Some (take 8 (drop (8 * i) acc)).

(** The memory after the vector registers [i0], [i0] + 1, ... ([k] of them)
    have been stored, 32 bytes apart, from [out]. *)
Fixpoint store_sums (sd : list (list Z)) (out : Z) (i0 k : nat) (m : Memory)
    : Memory :=
  match k with
  | O => m
  | S k' =>
      store_sums sd out (S i0) k'
        (store_lanes m
           (wrap64 (out + Z.of_nat i0 * DragnnLookupUnrolled.kBlockSize
                          * sizeof_float))
           (nth i0 sd []))
  end.

(** * Concrete steps and machine states used as examples *)

Definition initializer_step : Step :=
  mkStep "init" "DragnnEmbeddingInitializer" []
    [mkTensor "ids" DT_INT32 [] [] 4 false None None 0 None [] [] []].

Definition initializer_op : Flow.Operation :=
  Flow.mkOperation "init" "DragnnEmbeddingInitializer" [] [1%nat].
Definition initializer_vars : Store :=
  [Flow.mkVariable "a" DT_FLOAT [2; 3]; Flow.mkVariable "b" DT_FLOAT [7]].

(** A lookup of one feature in a vocabulary of one word (plus the OOV row)
    with embeddings of eight floats. *)
Definition lookup8_f : Tensor :=
  mkTensor "f" DT_INT32 [1; 1] [4; 4] 4 false None None 0 None [] [] [].
Definition lookup8_M : Tensor :=
  mkTensor "M" DT_FLOAT [2; 8] [32; 4] 64 false None None 0 (Some 4096)
           [] [] [].
Definition lookup8_v : Tensor :=
  mkTensor "v" DT_FLOAT [1; 8] [32; 4] 32 false None None 32 None [] [] [].
Definition lookup8_step : Step :=
  mkStep "lookup" "Lookup" [lookup8_f; lookup8_M] [lookup8_v].

(** The instance block of [lookup8_step] at address 1024: the feature id 0 at
    offset 0 and the output vector at offset 32, whose first element holds
    1.0 from an earlier run; the embedding matrix at its data pointer 4096,
    with 2.0 as the first element of row 0. *)
Definition lookup8_data : Z := 1024.
Definition lookup8_memory : Memory :=
  store 4 (store 4 (store 4 (fun _ => 0) 1024 0) 4096 0x40000000)
        1056 0x3f800000.

(** The embedding matrix stored at 4096 in [lookup8_memory], by rows. *)
Definition lookup8_rows : list (list Z) :=
  [[0x40000000; 0; 0; 0; 0; 0; 0; 0]; [0; 0; 0; 0; 0; 0; 0; 0]].

(** A lookup of three features, 0, -1 and -7, into a cleared output vector:
    row 0 of the matrix is (2.0, 0, ..., 0) and the OOV row is
    (0.5, 0, ..., 0, 1.0). *)
Definition lookup3_f : Tensor :=
  mkTensor "f" DT_INT32 [1; 3] [12; 4] 12 false None None 0 None [] [] [].
Definition lookup3_step : Step :=
  mkStep "lookup" "Lookup" [lookup3_f; lookup8_M] [lookup8_v].
Definition lookup3_memory : Memory :=
  store 4 (store 4 (store 4
    (store 4 (store 4 (store 4 (fun _ => 0)
       4096 0x40000000) 4128 0x3f000000) 4156 0x3f800000)
    1024 0) 1028 0xffffffff) 1032 0xfffffff9.

(** [lookup8_memory] with the feature id -7 in place of 0. *)
Definition lookup8_memory_skipped : Memory :=
  store 4 lookup8_memory 1024 0xfffffff9.

(** [lookup8_step] as [DragnnLookupSingle::Adjust] leaves it. *)
Definition lookup8_adjusted : Step :=
  mkStep "lookup" "Lookup"
    [lookup8_f; SetRequiredOrder ROW_MAJOR lookup8_M]
    [set_link lookup8_M (set_ref true lookup8_v)].

(** A lookup with embeddings of 136 floats, one block more than the unrolled
    kernel unrolls. *)
Definition lookup136_step : Step :=
  mkStep "lookup" "Lookup"
    [lookup8_f;
     mkTensor "M" DT_FLOAT [2; 136] [544; 4] 1088 false None None 0
              (Some 4096) [] [] []]
    [mkTensor "v" DT_FLOAT [1; 136] [544; 4] 544 false None None 32 None
              [] [] []].

(** A lookup step whose feature tensor is empty. *)
Definition lookup0_step : Step :=
  mkStep "lookup" "Lookup"
    [mkTensor "f" DT_INT32 [1; 0] [0; 4] 0 false None None 0 None [] [] [];
     lookup8_M]
    [lookup8_v].

(** [lookup3_memory] with 1.0 left in the last element of the output. *)
Definition lookup3_memory_used : Memory :=
  store 4 lookup3_memory 1084 0x3f800000.


(** The feature ids of [lookup3_step], as stored in [lookup3_memory]. *)
Definition lookup3_ids (i : Z) : Z :=
  if i =? 0 then 0 else if i =? 1 then -1 else -7.

(** Reshapes of a 2x3 matrix into a vector of six: with the shape operand
    (as the flow has it) and without. *)
Definition reshape_x : Tensor :=
  mkTensor "x" DT_FLOAT [2; 3] [12; 4] 24 false None None 0 None []
           ["reshape"] [].
Definition reshape_shape : Tensor :=
  mkTensor "shape" DT_INT32 [1] [4] 4 false None None 0 (Some 8192)
           [6; 0; 0; 0] ["reshape"] [].
Definition reshape_y : Tensor :=
  mkTensor "y" DT_FLOAT [6] [4] 24 false None None 24 None [] [] [].
Definition reshape_step : Step :=
  mkStep "reshape" "Reshape" [reshape_x; reshape_shape] [reshape_y].
Definition reshape_step_one_input : Step :=
  mkStep "reshape" "Reshape" [reshape_x] [reshape_y].

(** Concatenations: of one data input, and of two (three and five bytes),
    each followed by the axis operand. *)
Definition concat_axis : Tensor :=
  mkTensor "axis" DT_INT32 [] [] 4 false None None 0 (Some 8192)
           [1; 0; 0; 0] ["concat"] [].
Definition concat_a : Tensor :=
  mkTensor "a" DT_UINT8 [1; 3] [3; 1] 3 false None None 0 None []
           ["concat"] [].
Definition concat_b : Tensor :=
  mkTensor "b" DT_UINT8 [1; 5] [5; 1] 5 false None None 8 None []
           ["concat"] [].
Definition concat_y1 : Tensor :=
  mkTensor "y" DT_UINT8 [1; 3] [3; 1] 3 false None None 16 None [] [] [].
Definition concat_y2 : Tensor :=
  mkTensor "y" DT_UINT8 [1; 8] [8; 1] 8 false None None 16 None [] [] [].
Definition concat1_step : Step :=
  mkStep "concat" "ConcatV2" [concat_a; concat_axis] [concat_y1].
Definition concat2_step : Step :=
  mkStep "concat" "ConcatV2" [concat_a; concat_b; concat_axis] [concat_y2].
Definition concat_data : Z := 1024.
Definition concat_memory0 : Memory :=
  fun x => if (1024 <=? x) && (x <? 1040) then x - 1023 else 0.

(** A collect of three features (ids 1, -1 and -5) through a matrix of one
    word and the OOV row, two floats each: the features are a 1 x 3 matrix,
    the output is 3 x 3.  [collect_step_column] has the features as a 3 x 1
    matrix instead. *)
Definition collect_f : Tensor :=
  mkTensor "f" DT_INT32 [1; 3] [12; 4] 12 false None None 0 None [] [] [].
Definition collect_f_column : Tensor :=
  mkTensor "f" DT_INT32 [3; 1] [4; 4] 12 false None None 0 None [] [] [].
Definition collect_M : Tensor :=
  mkTensor "M" DT_FLOAT [2; 2] [8; 4] 16 false None None 0 (Some 4096)
           [] [] [].
Definition collect_R : Tensor :=
  mkTensor "R" DT_FLOAT [3; 3] [12; 4] 36 false None None 64 None [] [] [].
Definition collect_step : Step :=
  mkStep "collect" "Collect" [collect_f; collect_M] [collect_R].
Definition collect_step_column : Step :=
  mkStep "collect" "Collect" [collect_f_column; collect_M] [collect_R].

(** The same collect with a batch of no row: the features are a 1 x 0
    matrix and the output is 0 x 3. *)
Definition collect0_f : Tensor :=
  mkTensor "f" DT_INT32 [1; 0] [0; 4] 0 false None None 0 None [] [] [].
Definition collect0_R : Tensor :=
  mkTensor "R" DT_FLOAT [0; 3] [12; 4] 0 false None None 64 None [] [] [].
Definition collect0_step : Step :=
  mkStep "collect" "Collect" [collect0_f; collect_M] [collect0_R].

Definition collect_data : Z := 1024.
Definition collect_ids (i : Z) : Z :=
  if i =? 0 then 1 else if i =? 1 then -1 else -5.
Definition collect_memory0 : Memory :=
  store 4 (store 4 (store 4
    (store 4 (store 4 (store 4 (store 4 (fun _ => 0)
       4096 0x3f800000) 4100 0x40000000) 4104 0x40400000) 4108 0x40800000)
    1024 1) 1028 0xffffffff) 1032 0xfffffffb.

(** * Properties *)

Arguments input : simpl never.
Arguments output : simpl never.
Arguments dim : simpl never.
Arguments stride : simpl never.

(** ** Shapes of steps *)

Lemma Type_eqb_eq (a b : Type_) : Type_eqb a b = true <-> a = b.
Proof. split; [destruct a, b; simpl; congruence | intros ->; destruct b; reflexivity]. Qed.

Lemma indegree_2 (step : Step) :
  indegree step = 2 -> exists f M, inputs_ step = [f; M].
Proof.
  unfold indegree. destruct (inputs_ step) as [|f [|M [|x l]]]; simpl; try lia.
  intros _. eauto.
Qed.

Lemma outdegree_1 (step : Step) :
  outdegree step = 1 -> exists v, outputs_ step = [v].
Proof.
  unfold outdegree. destruct (outputs_ step) as [|v [|x l]]; simpl; try lia.
  intros _. eauto.
Qed.

(** Turning the boolean tests of a [Supports] into propositions. *)
Ltac bool_to_prop :=
  repeat match goal with
  | H : negb _ = true |- _ => apply negb_true_iff in H
  | H : negb _ = false |- _ => apply negb_false_iff in H
  | H : (_ || _)%bool = false |- _ => apply orb_false_iff in H; destruct H
  | H : (_ || _)%bool = true |- _ => apply orb_true_iff in H; destruct H
  | H : (_ =? _) = true |- _ => apply Z.eqb_eq in H
  | H : (_ =? _) = false |- _ => apply Z.eqb_neq in H
  | H : (_ <? _) = true |- _ => apply Z.ltb_lt in H
  | H : (_ <? _) = false |- _ => apply Z.ltb_ge in H
  | H : (_ >? _) = true |- _ => rewrite Z.gtb_ltb in H
  | H : (_ >? _) = false |- _ => rewrite Z.gtb_ltb in H
  | H : Type_eqb _ _ = true |- _ => apply Type_eqb_eq in H
  | H : Type_eqb ?a ?b = false |- _ =>
      assert (a <> b) by (intros E; apply Type_eqb_eq in E; congruence);
      clear H
  end.

Ltac split_supports :=
  repeat match goal with
  | |- context [if ?b then false else _] => destruct b eqn:?
  end; bool_to_prop.

Lemma DragnnLookup_Supports_iff (step : Step) :
  DragnnLookup.Supports step = true <->
  indegree step = 2 /\ outdegree step = 1 /\
  type_ (input step 0) = DT_INT32 /\
  type_ (input step 1) = DT_FLOAT /\ rank (input step 1) = 2 /\
  type_ (output step 0) = DT_FLOAT /\ rank (output step 0) = 2 /\
  dim (output step 0) 0 = 1 /\
  dim (output step 0) 1 = dim (input step 1) 1.
Proof.
  unfold DragnnLookup.Supports.
  split_supports; split; try discriminate; intuition congruence.
Qed.

(** ** The initializer stub *)

Lemma select_after (p : Kernel -> bool) (before after : list Kernel) :
  Forall (fun k => p k = false) before ->
  find p (before ++ after) = find p after.
Proof.
  induction 1 as [|k before Hk _ IH]; [reflexivity|].
  cbn. rewrite Hk. exact IH.
Qed.

(** C10. [DragnnInitializer] accepts every step, whatever its arity, types or
    shapes; its [Generate] emits nothing and leaves the assembler as it found
    it, so the lowered code is empty and running it changes nothing; and a
    step of operation "DragnnEmbeddingInitializer" is bound to this kernel by
    every library that [RegisterDragnnKernels] has filled, provided no kernel
    for that operation was registered before. *)
Theorem DragnnInitializer_accepts_every_step (cpu : CPU) (step : Step) :
  DragnnInitializer.Supports step = true /\
  (forall masm, DragnnInitializer.Generate step masm = Ok (tt, masm)) /\
  emitted DragnnInitializer.Generate step = Ok [] /\
  (forall fuel st, run fuel [] st = Halted st) /\
  (step_type step = DragnnInitializer.Operation ->
   forall library,
     Forall (fun k => Operation k <> DragnnInitializer.Operation)
            (kernels library) ->
     select (RegisterDragnnKernels cpu library) step
     = Some DragnnInitializer.kernel).
Proof.
  repeat split.
  - intros fuel st. destruct fuel; simpl; destruct (pc st); reflexivity.
  - intros Hop library Hnone.
    unfold select, RegisterDragnnKernels, Register_, RegisterTyper.
    cbn [kernels typers]. rewrite <- !app_assoc. rewrite select_after.
    + cbn. rewrite Hop. reflexivity.
    + eapply Forall_impl; [exact Hnone|]. intros k Hk. cbn beta.
      rewrite Hop. apply String.eqb_neq in Hk. rewrite Hk. reflexivity.
Qed.

Lemma DragnnInitializer_accepts_every_step_witness :
  select (RegisterDragnnKernels (mkCPU [AVX]) empty_library) initializer_step
  = Some DragnnInitializer.kernel.
Proof.
  apply (DragnnInitializer_accepts_every_step (mkCPU [AVX]) initializer_step).
  - reflexivity.
  - constructor.
Defined.

(** ** The type inference hook *)

(** C9. [InferTypes] always answers false.  For an operation of type
    "DragnnEmbeddingInitializer" with exactly one output, the output variable
    gets type [DT_INT32] and an empty (scalar) shape, and no other variable
    changes; for every other operation the variables are left as they are. *)
Theorem DragnnTyper_InferTypes_spec (op : Flow.Operation) (vars : Store) :
  fst (DragnnTyper.InferTypes op vars) = false /\
  (forall r v,
     Flow.op_type op = "DragnnEmbeddingInitializer" ->
     Flow.outputs op = [r] ->
     vars !! r = Some v ->
     snd (DragnnTyper.InferTypes op vars) !! r
     = Some (Flow.mkVariable (Flow.name v) DT_INT32 []) /\
     forall r', r' <> r ->
       snd (DragnnTyper.InferTypes op vars) !! r' = vars !! r') /\
  (Flow.op_type op <> "DragnnEmbeddingInitializer" \/ Flow.outdegree op <> 1 ->
   snd (DragnnTyper.InferTypes op vars) = vars).
Proof.
  unfold DragnnTyper.InferTypes, Flow.outdegree. cbn [fst snd].
  split; [reflexivity|]. split.
  - intros r v Hty Hout Hv. rewrite Hty, Hout. cbn [length nth].
    rewrite String.eqb_refl. change (Z.of_nat 1 =? 1) with true. cbv iota.
    split.
    + rewrite list_lookup_alter, Hv. rewrite decide_True by reflexivity.
      reflexivity.
    + intros r' Hne. apply list_lookup_alter_ne. congruence.
  - intros [Hty | Hdeg].
    + apply String.eqb_neq in Hty. rewrite Hty. reflexivity.
    + apply Z.eqb_neq in Hdeg. rewrite Hdeg.
      destruct (String.eqb _ _); reflexivity.
Qed.

Lemma DragnnTyper_InferTypes_spec_witness :
  snd (DragnnTyper.InferTypes initializer_op initializer_vars) !! 1%nat
  = Some (Flow.mkVariable "b" DT_INT32 []).
Proof.
  destruct (DragnnTyper_InferTypes_spec initializer_op initializer_vars)
    as [_ [H _]].
  apply (H 1%nat (Flow.mkVariable "b" DT_FLOAT [7])); reflexivity.
Defined.

(** ** The fatal check of the single-feature lookup *)

(** C8. [DragnnLookupSingle::Generate] aborts exactly when the feature-id
    input is a reference tensor, and then on the check [!f->ref()]; when the
    input is a materialized scalar the check passes and the eight instructions
    of the kernel are emitted. *)
Theorem DragnnLookupSingle_Generate_aborts_iff_ref (step : Step) :
  is_fatal (emitted DragnnLookupSingle.Generate step) = ref_ (input step 0) /\
  (emitted DragnnLookupSingle.Generate step = Fatal "!f->ref()" <->
   ref_ (input step 0) = true) /\
  (ref_ (input step 0) = false ->
   exists code, emitted DragnnLookupSingle.Generate step = Ok code /\
                length code = 8%nat).
Proof.
  unfold emitted, DragnnLookupSingle.Generate.
  destruct (ref_ (input step 0)) eqn:Href; cbn.
  - repeat split; try reflexivity; discriminate.
  - repeat split; try discriminate. intros _. eexists. split; reflexivity.
Qed.

Lemma DragnnLookupSingle_Generate_aborts_iff_ref_witness :
  exists code, emitted DragnnLookupSingle.Generate lookup8_step = Ok code /\
               length code = 8%nat.
Proof.
  apply (DragnnLookupSingle_Generate_aborts_iff_ref lookup8_step).
  reflexivity.
Defined.

(** ** Applicability and alignment of the unrolled lookup *)




(** ** The reshape elision *)

Lemma NoOpReshape_Supports_iff (step : Step) :
  NoOpReshape.Supports step = true <->
  indegree step = 2 /\ outdegree step = 1 /\
  type_ (input step 0) = type_ (output step 0) /\
  elements (input step 0) = elements (output step 0) /\
  length (consumers_ (input step 0)) = 1%nat.
Proof.
  unfold NoOpReshape.Supports.
  split_supports; split; try discriminate; intuition (congruence || lia).
Qed.

(** C7, as stated, fails: a step that has exactly one input and one output of
    the same element type and element count, whose input has a single
    consumer, is rejected, because [Supports] asks for two inputs. *)
Lemma NoOpReshape_rejects_single_input :
  indegree reshape_step_one_input = 1 /\
  outdegree reshape_step_one_input = 1 /\
  type_ (input reshape_step_one_input 0)
  = type_ (output reshape_step_one_input 0) /\
  elements (input reshape_step_one_input 0)
  = elements (output reshape_step_one_input 0) /\
  length (consumers_ (input reshape_step_one_input 0)) = 1%nat /\
  NoOpReshape.Supports reshape_step_one_input = false.
Proof. repeat split. Qed.

(** C7, amended.  [NoOpReshape] applies exactly to the steps with two inputs
    (the tensor and the shape operand) and one output where input 0 and
    output 0 have the same element type and the same number of elements and
    input 0 has exactly one consumer.  On such a step [Adjust] copies the
    reference flag of the input to the output and asks for in-place sharing
    of output 0 with input 0: it aborts when the request is refused, and
    otherwise the output is recorded as sharing the input's storage.
    [Generate] emits no instruction: it leaves the assembler as it is when
    input and output share storage and aborts otherwise. *)
Theorem NoOpReshape_spec (step : Step) :
  (NoOpReshape.Supports step = true <->
   indegree step = 2 /\ outdegree step = 1 /\
   type_ (input step 0) = type_ (output step 0) /\
   elements (input step 0) = elements (output step 0) /\
   length (consumers_ (input step 0)) = 1%nat) /\
  (NoOpReshape.Supports step = true ->
   let requested := on_output 0 (set_ref (ref_ (input step 0))) step in
   ref_ (output requested 0) = ref_ (input step 0) /\
   match NoOpReshape.Adjust step with
   | Ok step' =>
       AllowInPlace 0 0 requested = (true, step') /\
       inputs_ step' = inputs_ step /\
       ref_ (output step' 0) = ref_ (input step 0) /\
       SharedWith (input step' 0) (output step' 0) = true
   | Fatal _ => fst (AllowInPlace 0 0 requested) = false
   end) /\
  (forall masm,
     NoOpReshape.Generate step masm
     = if SharedWith (input step 0) (output step 0)
       then Ok (tt, masm)
       else Fatal "step->input(0)->SharedWith(step->output(0))").
Proof.
  split; [apply NoOpReshape_Supports_iff|]. split.
  - intros Hsup. apply NoOpReshape_Supports_iff in Hsup as (Hin & Hout & _).
    destruct (indegree_2 _ Hin) as (x & s & Hins).
    destruct (outdegree_1 _ Hout) as (y & Houts).
    destruct step as [n t ins outs]. cbn in Hins, Houts. subst ins outs.
    unfold NoOpReshape.Adjust, AllowInPlace. cbn.
    split; [reflexivity|].
    unfold output, on_output. cbn.
    destruct (shared_ y) eqn:Hy; cbn; [reflexivity|].
    repeat split. unfold SharedWith, shares, input, output. cbn.
    rewrite String.eqb_refl. apply orb_true_r.
  - intros masm. unfold NoOpReshape.Generate, CHECK.
    destruct (SharedWith _ _); reflexivity.
Qed.

Lemma NoOpReshape_spec_witness :
  exists step',
    NoOpReshape.Adjust reshape_step = Ok step' /\
    ref_ (output step' 0) = ref_ (input reshape_step 0) /\
    SharedWith (input step' 0) (output step' 0) = true.
Proof.
  destruct (NoOpReshape_spec reshape_step) as (_ & H & _).
  specialize (H eq_refl). cbv zeta in H. destruct H as [_ H].
  destruct (NoOpReshape.Adjust reshape_step) as [step'|msg] eqn:E.
  - exists step'. tauto.
  - discriminate H.
Defined.

(** ** Running code: general facts *)

Arguments wrap64 : simpl never.
Arguments trunc32 : simpl never.
Arguments load : simpl never.
Arguments store : simpl never.
Arguments copy : simpl never.
Arguments signed : simpl never.
Arguments tensor_address : simpl never.

Lemma steps_S (n : nat) prog st i st1 r :
  nth_error prog (pc st) = Some i ->
  exec prog i st = Some st1 ->
  steps n prog st1 = r ->
  steps (S n) prog st = r.
Proof. intros H1 H2 H3. simpl. rewrite H1, H2. exact H3. Qed.

Lemma steps_O prog st : steps 0 prog st = Some st.
Proof. reflexivity. Qed.

Lemma steps_add (n k : nat) prog st st1 :
  steps n prog st = Some st1 ->
  steps (n + k) prog st = steps k prog st1.
Proof.
  revert st. induction n as [|n IH]; intros st H; simpl in *.
  - congruence.
  - destruct (nth_error prog (pc st)); [|discriminate].
    destruct (exec prog i st); [|discriminate]. auto.
Qed.

Lemma steps_halt (n : nat) prog st st1 :
  steps n prog st = Some st1 ->
  nth_error prog (pc st1) = None ->
  run n prog st = Halted st1.
Proof.
  revert st. induction n as [|n IH]; intros st H Hend; simpl in *.
  - injection H as ->. rewrite Hend. reflexivity.
  - destruct (nth_error prog (pc st)); [|discriminate].
    destruct (exec prog i st); [|discriminate]. auto.
Qed.

(** ** Arithmetic of the machine *)

(** Replaces the constant powers of two by their values. *)
Ltac pow2 :=
  repeat match goal with
  | |- context [Z.pow (Zpos ?b) (Zpos ?n)] =>
      let v := eval vm_compute in (Z.pow (Zpos b) (Zpos n)) in
      change (Z.pow (Zpos b) (Zpos n)) with v
  | H : context [Z.pow (Zpos ?b) (Zpos ?n)] |- _ =>
      let v := eval vm_compute in (Z.pow (Zpos b) (Zpos n)) in
      change (Z.pow (Zpos b) (Zpos n)) with v in H
  end.

(** Case analysis on the comparisons in the goal. *)
Ltac case_cmp :=
  repeat match goal with
  | |- context [Z.ltb ?a ?b] => destruct (Z.ltb_spec a b)
  | |- context [Z.leb ?a ?b] => destruct (Z.leb_spec a b)
  | |- context [Z.eqb ?a ?b] => destruct (Z.eqb_spec a b)
  end.

Lemma wrap64_range (z : Z) : 0 <= wrap64 z < 2 ^ 64.
Proof. unfold wrap64. apply Z.mod_pos_bound. pow2. lia. Qed.

Lemma wrap64_small (z : Z) : 0 <= z < 2 ^ 64 -> wrap64 z = z.
Proof. unfold wrap64. apply Z.mod_small. Qed.

Lemma wrap64_idem (z : Z) : wrap64 (wrap64 z) = wrap64 z.
Proof. unfold wrap64. apply Z.mod_mod. pow2. lia. Qed.

Lemma wrap64_add_l (a b : Z) : wrap64 (wrap64 a + b) = wrap64 (a + b).
Proof. unfold wrap64. apply Zplus_mod_idemp_l. Qed.

Lemma wrap64_add_r (a b : Z) : wrap64 (a + wrap64 b) = wrap64 (a + b).
Proof. unfold wrap64. apply Zplus_mod_idemp_r. Qed.

Lemma wrap64_mul_l (a b : Z) : wrap64 (wrap64 a * b) = wrap64 (a * b).
Proof. unfold wrap64. apply Zmult_mod_idemp_l. Qed.

Lemma row_address_wrap (r s b : Z) :
  wrap64 (wrap64 (wrap64 r * s) + b) = wrap64 (b + r * s).
Proof.
  rewrite wrap64_add_l. unfold wrap64.
  rewrite Zplus_mod, Zmult_mod_idemp_l, <- Zplus_mod.
  f_equal. apply Z.add_comm.
Qed.

Lemma mod_of_negative (z M : Z) : - M <= z < 0 -> z mod M = z + M.
Proof. intros H. symmetry. apply Z.mod_unique with (q := -1); lia. Qed.

Lemma signed_int32 (v : Z) :
  - 2 ^ 31 <= v < 2 ^ 31 -> signed 32 (v mod 2 ^ 32) = v.
Proof.
  intros H. unfold signed. change (32 - 1) with 31. pow2.
  destruct (Z_lt_dec v 0) as [Hneg|Hpos].
  - rewrite mod_of_negative by lia.
    case_cmp; lia.
  - rewrite Z.mod_small by lia.
    case_cmp; lia.
Qed.

Lemma sign_of_wrap64 (z : Z) :
  - 2 ^ 63 <= z < 2 ^ 63 -> Z.testbit (wrap64 z) 63 = (z <? 0).
Proof.
  intros H. unfold wrap64. pow2. destruct (Z.ltb_spec z 0) as [Hneg|Hpos].
  - apply Z.testbit_true; [lia|]. pow2.
    rewrite (mod_of_negative z) by lia.
    replace ((z + 18446744073709551616) / 9223372036854775808) with 1;
      [reflexivity|].
    apply Z.div_unique with (r := z + 9223372036854775808); lia.
  - apply Z.testbit_false; [lia|]. pow2.
    rewrite (Z.mod_small z) by lia. rewrite Z.div_small by lia. reflexivity.
Qed.

(** ** Memory *)

Lemma store_outside (n : nat) m a v x :
  x < a \/ a + Z.of_nat n <= x -> store n m a v x = m x.
Proof.
  intros H. unfold store. case_cmp; simpl; try reflexivity; lia.
Qed.

Lemma store_inside (n : nat) m a v x :
  a <= x < a + Z.of_nat n -> store n m a v x = byte_of (x - a) v.
Proof.
  intros H. unfold store. case_cmp; simpl; try reflexivity; lia.
Qed.

Lemma load_ext (n : nat) (m m' : Memory) (a : Z) :
  (forall x, a <= x < a + Z.of_nat n -> m x = m' x) ->
  load n m a = load n m' a.
Proof.
  revert a. induction n as [|n IH]; intros a H; [reflexivity|].
  change (load (S n) m a) with (m a + 256 * load n m (a + 1)).
  change (load (S n) m' a) with (m' a + 256 * load n m' (a + 1)).
  rewrite (H a) by lia. rewrite (IH (a + 1)); [reflexivity|].
  intros x Hx. apply H. lia.
Qed.

Lemma load_stored_from (k n : nat) m a v (i : nat) :
  (i + k <= n)%nat ->
  load k (store n m a v) (a + Z.of_nat i)
  = (v / 256 ^ Z.of_nat i) mod 256 ^ Z.of_nat k.
Proof.
  revert i. induction k as [|k IH]; intros i Hik.
  - change (load 0 _ _) with 0. rewrite Z.mod_1_r. reflexivity.
  - change (load (S k) ?m' ?b) with (m' b + 256 * load k m' (b + 1)).
    rewrite store_inside by lia.
    replace (a + Z.of_nat i + 1) with (a + Z.of_nat (S i)) by lia.
    rewrite IH by lia. unfold byte_of.
    replace (a + Z.of_nat i - a) with (Z.of_nat i) by lia.
    replace (Z.of_nat (S k)) with (1 + Z.of_nat k) by lia.
    replace (Z.of_nat (S i)) with (Z.of_nat i + 1) by lia.
    rewrite !Z.pow_add_r by lia. change (256 ^ 1) with 256.
    rewrite Z.rem_mul_r by lia.
    rewrite Z.div_div by lia. reflexivity.
Qed.

Lemma load_store_same (n : nat) m a v :
  0 <= v < 256 ^ Z.of_nat n -> load n (store n m a v) a = v.
Proof.
  intros H. replace a with (a + Z.of_nat 0) at 2 by (simpl; lia).
  rewrite load_stored_from by lia.
  change (256 ^ Z.of_nat 0) with 1. rewrite Z.div_1_r.
  apply Z.mod_small. exact H.
Qed.

(** ** Symbolic execution *)

(** Brings the effect of one instruction on an explicit machine state to an
    explicit machine state. *)
Ltac exec_norm :=
  cbv [exec next goto with_reg with_flags with_lanes with_mem jump
       find_label find_label_from value64 address reg lanes
       pc regs flags simd mem holds flags_of ZF SF scale_of code_of instance
       Nat.eqb nth insert list_insert drop app zip_with negb].

Ltac step := eapply steps_S; [reflexivity | exec_norm; reflexivity | ].

(** ** Entry states *)

Lemma entered_dirty_entry (data : Z) (m : Memory) :
  entered data m (dirty_entry data m).
Proof. repeat split. repeat constructor. Qed.

(** Names the sixteen general registers of an entry state [q0] ... [q15]
    (the instance register is replaced by the address it holds), its flags
    [fl0] and its vector registers [sd0]. *)
Ltac entered_state H st :=
  let p := fresh "p" in
  let rs := fresh "rs" in
  let m0 := fresh "m0" in
  let Hp := fresh "Hp" in
  let Hrs := fresh "Hrs" in
  let Hinst := fresh "Hinst" in
  let Hm := fresh "Hm" in
  destruct st as [p rs fl0 sd0 m0];
  destruct H as (Hp & Hrs & Hinst & Hsd0 & Hlanes0 & Hm);
  cbn [pc regs flags simd mem] in Hp, Hrs, Hinst, Hsd0, Hlanes0, Hm;
  destruct rs as [|q0 [|q1 [|q2 [|q3 [|q4 [|q5 [|q6 [|q7 [|q8 [|q9 [|q10
    [|q11 [|q12 [|q13 [|q14 [|q15 [|? ?]]]]]]]]]]]]]]]]];
    try discriminate Hrs;
  unfold reg in Hinst; cbn [regs nth code_of instance] in Hinst;
  subst p m0 q5; clear Hrs.

(** ** The zero-copy lookup of a single feature *)

Lemma DragnnLookupSingle_emitted (step : Step) :
  ref_ (input step 0) = false ->
  emitted DragnnLookupSingle.Generate step
  = Ok [movsxlq rax (OperandD instance (offset_ (input step 0)));
        movq rcx (Immediate (dim (input step 1) 0 - 1));
        testq rax rax;
        cmovq negative rax rcx;
        imulq rax rax (stride (input step 1) 0);
        LoadTensorAddress_ rdx (input step 1);
        addq rax rdx;
        movq (OperandD instance (offset_ (output step 0))) rax].
Proof.
  intros Href. unfold emitted, DragnnLookupSingle.Generate.
  rewrite Href. reflexivity.
Qed.

(** The emitted code replaces a negative feature id by the index of the OOV
    row and stores the address of the row in the slot of the output. *)
Lemma DragnnLookupSingle_run (f M v : Tensor) (data : Z) (m : Memory) (id : Z)
    (st0 : Machine) :
  entered data m st0 ->
  holds_int32 m (wrap64 (data + offset_ f)) id ->
  exists st',
    steps 8 [movsxlq rax (OperandD instance (offset_ f));
             movq rcx (Immediate (dim M 0 - 1));
             testq rax rax;
             cmovq negative rax rcx;
             imulq rax rax (stride M 0);
             LoadTensorAddress_ rdx M;
             addq rax rdx;
             movq (OperandD instance (offset_ v)) rax] st0
    = Some st' /\
    pc st' = 8%nat /\
    mem st' = store 8 m (wrap64 (data + offset_ v))
                (wrap64 (tensor_address data m M
                         + (if id <? 0 then dim M 0 - 1 else id) * stride M 0)).
Proof.
  intros Hent [Hrange Hload]. entered_state Hent st0.
  destruct (id <? 0) eqn:Hneg.
  - eexists. split.
    + step. rewrite Hload, (signed_int32 id Hrange).
      step. step. rewrite Z.land_diag, sign_of_wrap64, Hneg by (pow2; lia).
      step. step. step. step. step. reflexivity.
    + split; [reflexivity|]. cbv [mem]. f_equal. apply row_address_wrap.
  - eexists. split.
    + step. rewrite Hload, (signed_int32 id Hrange).
      step. step. rewrite Z.land_diag, sign_of_wrap64, Hneg by (pow2; lia).
      step. step. step. step. step. reflexivity.
    + split; [reflexivity|]. cbv [mem]. f_equal. apply row_address_wrap.
Qed.



(** ** The concatenation *)

Lemma exec_sequential (prog : list Instr) (i : Instr) (st : Machine) :
  sequential i = true -> exec prog i st = exec [] i st.
Proof. destruct i; try discriminate; reflexivity. Qed.

Lemma exec_sequential_pc (i : Instr) (st st' : Machine) :
  sequential i = true -> exec [] i st = Some st' -> pc st' = S (pc st).
Proof.
  destruct i; try discriminate; intros _; cbn;
    repeat match goal with
           | |- context [match ?x with _ => _ end] => destruct x
           end;
    intros H; try discriminate H; injection H as <-; reflexivity.
Qed.

Lemma steps_block (block pre post : list Instr) (st : Machine) :
  forallb sequential block = true ->
  pc st = length pre ->
  steps (length block) (pre ++ block ++ post) st = exec_list block st.
Proof.
  revert pre st. induction block as [|i block IH]; intros pre st Hseq Hpc.
  - reflexivity.
  - cbn in Hseq. apply andb_true_iff in Hseq as [Hi Hseq].
    cbn [length steps exec_list]. rewrite Hpc.
    rewrite nth_error_app2 by lia. rewrite Nat.sub_diag. cbn [nth_error app].
    rewrite (exec_sequential _ i st Hi).
    destruct (exec [] i st) as [st'|] eqn:Hexec; [|reflexivity].
    replace (pre ++ i :: block ++ post)%list
      with ((pre ++ [i]) ++ block ++ post)%list
      by (rewrite <- app_assoc; reflexivity).
    apply IH; [exact Hseq|].
    rewrite (exec_sequential_pc i st st' Hi Hexec), Hpc, length_app.
    cbn. lia.
Qed.

Lemma copy_inputs_emits (step : Step) (src dst : Register) (n i0 : nat)
    (offset : Z) (masm : MacroAssembler) :
  DragnnConcat.copy_inputs step src dst i0 n offset masm
  = Ok (offset + sum_sizes step i0 n,
        mkMasm (rr masm) (mm masm)
               (code masm ++ concat_code step src dst i0 n offset)).
Proof.
  revert i0 offset masm. induction n as [|n IH]; intros i0 offset masm.
  - cbn. rewrite Z.add_0_r, app_nil_r. destruct masm; reflexivity.
  - cbn [DragnnConcat.copy_inputs sum_sizes concat_code].
    unfold and_then, LoadTensorAddress, Copy, emit. cbn [rr mm code].
    rewrite IH. cbn [rr mm code]. rewrite <- !app_assoc.
    rewrite Z.add_assoc. reflexivity.
Qed.

Lemma DragnnConcat_emitted (step : Step) :
  let n := Z.to_nat (indegree step - 1) in
  emitted DragnnConcat.Generate step
  = if sum_sizes step 0 n =? size_ (output step 0)
    then Ok (LoadTensorAddress_ r9 (output step 0)
             :: concat_code step r8 r9 0 n 0)
    else Fatal "offset == step->output(0)->size()".
Proof.
  intros n. unfold emitted, DragnnConcat.Generate, and_then.
  cbn [rr_alloc_preferred used new_masm rr mm code existsb Register_eqb
       code_of instance Nat.eqb orb LoadTensorAddress emit].
  rewrite copy_inputs_emits. fold n. cbn [rr mm code app]. unfold CHECK.
  rewrite Z.add_0_l. destruct (sum_sizes step 0 n =? _); reflexivity.
Qed.

Lemma concat_code_sequential (step : Step) (src dst : Register) (n i0 : nat)
    (offset : Z) :
  forallb sequential (concat_code step src dst i0 n offset) = true.
Proof.
  revert i0 offset. induction n as [|n IH]; intros i0 offset; cbn; auto.
Qed.

(** Running the copies, from any state in which [dst] = r9 holds the address
    of the output. *)
Lemma concat_code_exec (step : Step) (data out : Z) (n i0 : nat) (offset : Z)
    (p : nat) (a c d b sp si di s x10 x11 x12 x13 x14 x15 : Z)
    (fl : option Flags) (sd : list (list Z)) (m : Memory) :
  exists st',
    exec_list (concat_code step r8 r9 i0 n offset)
      (mkMachine p [a; c; d; b; sp; data; si; di; s; out;
                    x10; x11; x12; x13; x14; x15] fl sd m)
    = Some st' /\
    mem st' = concat_memory step data out i0 n offset m.
Proof.
  revert i0 offset p c si di s m.
  induction n as [|n IH]; intros i0 offset p c si di s m.
  - eexists. split; reflexivity.
  - cbn [concat_code exec_list concat_memory]. exec_norm.
    apply IH.
Qed.

Lemma copy_inside (m : Memory) (dst src size x : Z) :
  dst <= x < dst + size -> copy m dst src size x = m (src + (x - dst)).
Proof. intros H. unfold copy. case_cmp; simpl; try reflexivity; lia. Qed.

Lemma copy_outside (m : Memory) (dst src size x : Z) :
  x < dst \/ dst + size <= x -> copy m dst src size x = m x.
Proof. intros H. unfold copy. case_cmp; simpl; try reflexivity; lia. Qed.

(** The address of a tensor stored outside a byte range does not depend on
    the content of the range. *)
Lemma tensor_address_agree (data lo hi : Z) (m m' : Memory) (t : Tensor) :
  (forall x, x < lo \/ hi <= x -> m' x = m x) ->
  stored_outside data m lo hi t ->
  tensor_address data m' t = tensor_address data m t.
Proof.
  intros Hagree (_ & _ & _ & _ & Hslot). unfold tensor_address.
  destruct (ref_ t); [|reflexivity].
  apply load_ext. intros x Hx. apply Hagree.
  destruct (Hslot eq_refl); cbn in Hx; lia.
Qed.

Lemma sum_sizes_nonneg (step : Step) (data lo hi : Z) (m : Memory)
    (n i0 : nat) :
  (forall i, (i0 <= i < i0 + n)%nat ->
     stored_outside data m lo hi (input step i)) ->
  0 <= sum_sizes step i0 n.
Proof.
  revert i0. induction n as [|n IH]; intros i0 H; cbn [sum_sizes]; [lia|].
  assert (0 <= size_ (input step i0)) by (apply (H i0); lia).
  assert (0 <= sum_sizes step (S i0) n) by (apply IH; intros i Hi; apply H; lia).
  lia.
Qed.

Lemma concat_memory_spec (step : Step) (data out total : Z) (m : Memory) :
  0 <= out -> out + total < 2 ^ 64 ->
  forall (n i0 : nat) (offset : Z) (m' : Memory),
    0 <= offset ->
    offset + sum_sizes step i0 n <= total ->
    (forall x, x < out \/ out + total <= x -> m' x = m x) ->
    (forall i, (i0 <= i < i0 + n)%nat ->
       stored_outside data m out (out + total) (input step i)) ->
    (forall x, x < out + offset \/ out + total <= x ->
       concat_memory step data out i0 n offset m' x = m' x) /\
    (forall (i : nat) (k : Z),
       (i < n)%nat -> 0 <= k < size_ (input step (i0 + i)) ->
       concat_memory step data out i0 n offset m'
         (out + offset + sum_sizes step i0 i + k)
       = m (tensor_address data m (input step (i0 + i)) + k)).
Proof.
  intros Hout Htotal. induction n as [|n IH];
    intros i0 offset m' Hoff Hsum Hagree Hins.
  - split; [reflexivity | intros i k Hi; lia].
  - cbn [concat_memory]. cbn [sum_sizes] in Hsum.
    set (t := input step i0) in *.
    assert (Ht : stored_outside data m out (out + total) t)
      by (apply Hins; lia).
    assert (Hrest : 0 <= sum_sizes step (S i0) n)
      by (apply (sum_sizes_nonneg step data out (out + total) m);
          intros i Hi; apply Hins; lia).
    rewrite (tensor_address_agree data out (out + total) m m' t Hagree Ht).
    destruct Ht as (Hsz & Haddr & Hend & Hapart & _).
    rewrite (wrap64_small (out + offset)) by lia.
    rewrite Z.add_0_r, (wrap64_small (tensor_address data m t)) by lia.
    set (m1 := copy m' (out + offset) (tensor_address data m t) (size_ t)).
    destruct (IH (S i0) (offset + size_ t) m1) as [Hframe Hcopied].
    + lia.
    + lia.
    + intros x Hx. unfold m1. rewrite copy_outside by lia. apply Hagree, Hx.
    + intros i Hi. apply Hins. lia.
    + split.
      * intros x Hx. rewrite Hframe by lia. unfold m1. apply copy_outside. lia.
      * intros i k Hi Hk. destruct i as [|i].
        -- rewrite Nat.add_0_r in *. cbn [sum_sizes]. fold t in Hk.
           rewrite Hframe by lia. unfold m1. rewrite copy_inside by lia.
           fold t.
           replace (out + offset + 0 + k - (out + offset)) with k by lia.
           apply Hagree. destruct Hapart; lia.
        -- cbn [sum_sizes]. fold t.
           replace (i0 + S i)%nat with (S i0 + i)%nat in * by lia.
           rewrite <- (Hcopied i k) by (lia || assumption).
           f_equal. lia.
Qed.

Lemma exec_list_pc (block : list Instr) (st st' : Machine) :
  forallb sequential block = true ->
  exec_list block st = Some st' ->
  pc st' = (pc st + length block)%nat.
Proof.
  revert st. induction block as [|i block IH]; intros st Hseq H.
  - injection H as <-. cbn. lia.
  - cbn in Hseq. apply andb_true_iff in Hseq as [Hi Hseq].
    cbn [exec_list] in H.
    destruct (exec [] i st) as [st1|] eqn:Hexec; [|discriminate].
    rewrite (IH st1 Hseq H), (exec_sequential_pc i st st1 Hi Hexec).
    cbn. lia.
Qed.

Lemma DragnnConcat_Supports_iff (step : Step) :
  DragnnConcat.Supports step = true <->
  2 <= indegree step /\ outdegree step = 1 /\
  value_int32 (input step (Z.to_nat (indegree step - 1))) = 1.
Proof.
  unfold DragnnConcat.Supports.
  split_supports; split; try discriminate; intuition (congruence || lia).
Qed.

(** C6, as stated, fails: a step with a single data input and the axis
    operand is accepted. *)
Lemma DragnnConcat_accepts_one_data_input :
  DragnnConcat.Supports concat1_step = true /\
  indegree concat1_step - 1 = 1 /\
  ~ (2 <= indegree concat1_step - 1).
Proof. repeat split. cbv. intros H. apply H. reflexivity. Qed.

(** C6, amended.  [DragnnConcat] applies exactly to the steps with one output
    and at least two inputs (at least one data input and the axis operand)
    whose last input holds the value 1.  [Generate] aborts exactly when the
    sizes of the data inputs do not add up to the size of the output.
    Otherwise the emitted code, entered with anything in the registers, runs
    to its end and leaves the bytes of each data input, in input order, in successive byte ranges of the output from
    offset 0, and changes nothing outside the output (for inputs stored apart
    from the output and addresses below 2^64). *)
Theorem DragnnConcat_spec (step : Step) (data : Z) (m : Memory) :
  let n := Z.to_nat (indegree step - 1) in
  let total := sum_sizes step 0 n in
  let out := tensor_address data m (output step 0) in
  (DragnnConcat.Supports step = true <->
   2 <= indegree step /\ outdegree step = 1 /\
   value_int32 (input step n) = 1) /\
  (is_fatal (emitted DragnnConcat.Generate step)
   = negb (total =? size_ (output step 0))) /\
  (total = size_ (output step 0) ->
   0 <= out -> out + total < 2 ^ 64 ->
   (forall i, (i < n)%nat ->
      stored_outside data m out (out + total) (input step i)) ->
   forall st0, entered data m st0 ->
   exists code st',
     emitted DragnnConcat.Generate step = Ok code /\
     run (length code) code st0 = Halted st' /\
     (forall (i : nat) (k : Z),
        (i < n)%nat -> 0 <= k < size_ (input step i) ->
        mem st' (out + sum_sizes step 0 i + k)
        = m (tensor_address data m (input step i) + k)) /\
     (forall x, x < out \/ out + total <= x -> mem st' x = m x)).
Proof.
  intros n total out. split; [apply DragnnConcat_Supports_iff|].
  pose proof (DragnnConcat_emitted step) as Hemit. cbv zeta in Hemit.
  fold n in Hemit. fold total in Hemit. split.
  - rewrite Hemit. destruct (total =? size_ (output step 0)); reflexivity.
  - intros Hsize Hout Htotal Hins st0 Hent. entered_state Hent st0.
    apply Z.eqb_eq in Hsize. rewrite Hsize in Hemit.
    set (body := concat_code step r8 r9 0 n 0) in *.
    set (prog := LoadTensorAddress_ r9 (output step 0) :: body) in *.
    assert (Hseq : forallb sequential prog = true)
      by (cbn; apply concat_code_sequential).
    set (st0 := mkMachine 0 [q0; q1; q2; q3; q4; data; q6; q7; q8; q9;
                             q10; q11; q12; q13; q14; q15] fl0 sd0 m).
    destruct (concat_code_exec step data out n 0 0 1 q0 q1 q2 q3 q4 q6 q7 q8
                q10 q11 q12 q13 q14 q15 fl0 sd0 m)
      as (st' & Hexec & Hmem).
    assert (Hlist : exec_list prog st0 = Some st').
    { unfold prog, st0. cbn [exec_list]. exec_norm. exact Hexec. }
    assert (Hsteps : steps (length prog) prog st0 = Some st').
    { rewrite <- Hlist.
      pose proof (steps_block prog [] [] st0 Hseq eq_refl) as H.
      cbn [app] in H. rewrite app_nil_r in H. exact H. }
    exists prog, st'. split; [exact Hemit|]. split.
    + apply steps_halt; [exact Hsteps|].
      rewrite (exec_list_pc prog _ _ Hseq Hlist). unfold st0.
      cbn [pc Nat.add].
      apply nth_error_None. lia.
    + rewrite Hmem.
      destruct (concat_memory_spec step data out total m Hout Htotal
                  n 0%nat 0 m) as [Hframe Hcopied].
      * lia.
      * fold total. lia.
      * reflexivity.
      * intros i Hi. apply Hins. lia.
      * split.
        -- intros i k Hi Hk. specialize (Hcopied i k Hi Hk).
           cbn [Nat.add] in Hcopied. rewrite <- Hcopied. f_equal. lia.
        -- intros x Hx. apply Hframe. lia.
Qed.

Lemma DragnnConcat_spec_witness :
  exists code st',
    emitted DragnnConcat.Generate concat2_step = Ok code /\
    run (length code) code (dirty_entry concat_data concat_memory0)
    = Halted st' /\
    mem st' (1040 + 3 + 4) = concat_memory0 (1032 + 4).
Proof.
  destruct (DragnnConcat_spec concat2_step concat_data concat_memory0)
    as (_ & _ & H).
  destruct (fun H1 H2 H3 H4 =>
              H H1 H2 H3 H4 (dirty_entry concat_data concat_memory0)
                (entered_dirty_entry concat_data concat_memory0))
    as (code & st' & Hcode & Hrun & Hcopied & _).
  - reflexivity.
  - cbv. discriminate.
  - cbv. reflexivity.
  - intros i Hi. unfold stored_outside, apart.
    destruct i as [|[|i]]; [| |cbv in Hi; lia].
    + change (input concat2_step 0) with concat_a.
      change (tensor_address concat_data concat_memory0 concat_a) with 1024.
      change (tensor_address concat_data concat_memory0
                (output concat2_step 0)) with 1040.
      cbn. pow2. repeat split; try lia; discriminate.
    + change (input concat2_step 1) with concat_b.
      change (tensor_address concat_data concat_memory0 concat_b) with 1032.
      change (tensor_address concat_data concat_memory0
                (output concat2_step 0)) with 1040.
      cbn. pow2. repeat split; try lia; discriminate.
  - exists code, st'. split; [exact Hcode|]. split; [exact Hrun|].
    apply (Hcopied 1%nat 4); [change (1 < 2)%nat; lia|].
    change (0 <= 4 < 5). lia.
Defined.

(** ** The collect kernel *)

Lemma DragnnCollect_Supports_iff (step : Step) :
  DragnnCollect.Supports step = true <->
  indegree step = 2 /\ outdegree step = 1 /\
  type_ (input step 0) = DT_INT32 /\
  type_ (input step 1) = DT_FLOAT /\ rank (input step 1) = 2 /\
  type_ (output step 0) = DT_FLOAT /\ rank (output step 0) = 2 /\
  dim (input step 0) 0 = 1 /\
  dim (input step 0) 1 = dim (output step 0) 0 /\
  dim (output step 0) 1 = dim (input step 1) 1 + 1.
Proof.
  unfold DragnnCollect.Supports.
  split_supports; split; try discriminate; intuition (congruence || lia).
Qed.

Lemma DragnnCollect_emitted (step : Step) :
  emitted DragnnCollect.Generate step
  = Ok (if dim (input step 0) 1 =? 1
        then collect_code_single (input step 0) (input step 1) (output step 0)
        else collect_code_loop (input step 0) (input step 1) (output step 0)).
Proof.
  unfold emitted, DragnnCollect.Generate.
  destruct (dim (input step 0) 1 =? 1); reflexivity.
Qed.

Lemma cmp_wrap64 (a b : Z) :
  - 2 ^ 63 <= a < 2 ^ 63 -> - 2 ^ 63 <= b < 2 ^ 63 ->
  (wrap64 (wrap64 a - wrap64 b) =? 0) = (a =? b).
Proof.
  intros Ha Hb. unfold wrap64. rewrite <- Zminus_mod. pow2.
  destruct (Z.eqb_spec a b) as [->|Hne].
  - rewrite Z.sub_diag. reflexivity.
  - apply Z.eqb_neq. intros H0.
    apply Z.mod_divide in H0; [|lia]. destruct H0 as [q Hq]. lia.
Qed.

Lemma cmp_wrap64_small (a b : Z) :
  0 <= a < 2 ^ 64 -> 0 <= b < 2 ^ 64 ->
  (wrap64 (a - wrap64 b) =? 0) = (a =? b).
Proof.
  intros Ha Hb. rewrite (wrap64_small b Hb). unfold wrap64. pow2.
  destruct (Z.eqb_spec a b) as [->|Hne].
  - rewrite Z.sub_diag. reflexivity.
  - apply Z.eqb_neq. intros H0.
    apply Z.mod_divide in H0; [|lia]. destruct H0 as [q Hq]. lia.
Qed.

Lemma collect_row_outside (dims ms base row id : Z) (m : Memory) (x : Z) :
  0 <= dims ->
  x < row \/ row + (dims + 1) * 4 <= x ->
  collect_row dims ms base row id m x = m x.
Proof.
  intros Hdims Hx. unfold collect_row.
  destruct (id <? 0); [destruct (id =? -1)|].
  - apply store_outside. cbn. lia.
  - reflexivity.
  - apply copy_outside. lia.
Qed.

Section CollectLoop.
Variables (f M R : Tensor).
Variables (data inp base out : Z).
Variables (sp x11 x12 x13 x14 x15 : Z) (sd : list (list Z)).
Variable ids : Z -> Z.
Variable m0 : Memory.
Let n := dim f 1.
Let ms := stride M 0.
Let rs := stride R 0.
Let dims := dim M 1.
Hypothesis Hn : 0 <= n < 2 ^ 31.
Hypothesis Hdims : 0 <= dims.
Hypothesis Hrow : (dims + 1) * 4 <= rs.
Hypothesis Hout : 0 <= out /\ out + n * rs < 2 ^ 64.
Hypothesis Hinp : 0 <= inp /\ inp + 4 * n < 2 ^ 64.
Hypothesis Hfeatures : apart out (out + n * rs) inp (4 * n).
Hypothesis Hids :
  forall i, 0 <= i < n ->
    holds_int32 m0 (inp + 4 * i) (ids i) /\
    (0 <= ids i ->
     0 <= base + ids i * ms < 2 ^ 64 /\
     apart out (out + n * rs) (base + ids i * ms) (dims * 4)).

Let prog := collect_code_loop f M R.

(** A memory that differs from the initial one in the output only. *)
Let same_outside (m : Memory) : Prop :=
  forall x, x < out \/ out + n * rs <= x -> m x = m0 x.

Lemma feature_held (m : Memory) (i : Z) :
  same_outside m -> 0 <= i < n -> holds_int32 m (inp + 4 * i) (ids i).
Proof.
  intros Hsame Hi. destruct (Hids i Hi) as [[Hrange Hload] _].
  split; [exact Hrange|]. rewrite <- Hload. apply load_ext.
  intros x Hx. apply Hsame. cbn in Hx. unfold apart in Hfeatures. lia.
Qed.

Lemma row_within (i : Z) :
  0 <= i < n -> 0 <= i * rs /\ i * rs + rs <= n * rs.
Proof. intros Hi. assert (0 <= rs) by lia. split; nia. Qed.

Lemma collect_row_same_outside (m : Memory) (i : Z) :
  same_outside m -> 0 <= i < n ->
  same_outside (collect_row dims ms base (out + i * rs) (ids i) m).
Proof.
  intros Hsame Hi x Hx. destruct (row_within i Hi).
  rewrite collect_row_outside by lia. apply Hsame, Hx.
Qed.

Lemma collect_tail (i a c si di o : Z) (fl : option Flags) (m : Memory) :
  0 <= i < n ->
  exists fl',
    steps 5 prog
      (mkMachine 17 [a; c; inp; base; sp; data; si; di; out + i * rs; i; o;
                     x11; x12; x13; x14; x15] fl sd m)
    = Some (mkMachine (if i + 1 =? n then 22 else 4)
              [a; c; inp; base; sp; data; si; di; out + (i + 1) * rs; i + 1; o;
               x11; x12; x13; x14; x15] fl' sd m).
Proof.
  intros Hi. pow2.
  assert (Hrs : 0 <= rs) by lia.
  assert (Hmul : i * rs + rs <= n * rs) by nia.
  assert (Hmul0 : 0 <= i * rs) by nia.
  unfold prog, collect_code_loop, collect_body. cbn [app].
  fold n ms rs dims.
  destruct (i + 1 =? n) eqn:Hlast.
  - eexists. step. step. step.
    rewrite (wrap64_small rs), (wrap64_small (out + i * rs + rs)),
            (wrap64_small (i + 1)) by (pow2; lia).
    step. rewrite cmp_wrap64_small, Hlast by (pow2; lia).
    step. replace (out + i * rs + rs) with (out + (i + 1) * rs) by lia.
    reflexivity.
  - eexists. step. step. step.
    rewrite (wrap64_small rs), (wrap64_small (out + i * rs + rs)),
            (wrap64_small (i + 1)) by (pow2; lia).
    step. rewrite cmp_wrap64_small, Hlast by (pow2; lia).
    step. replace (out + i * rs + rs) with (out + (i + 1) * rs) by lia.
    reflexivity.
Qed.

Lemma collect_body_loop (i a c si di o id : Z) (fl : option Flags)
    (m : Memory) :
  0 <= i < n ->
  holds_int32 m (inp + 4 * i) id ->
  (0 <= id -> 0 <= base + id * ms < 2 ^ 64) ->
  exists k a' c' si' di' o' fl',
    steps k prog
      (mkMachine 5 [a; c; inp; base; sp; data; si; di; out + i * rs; i; o;
                    x11; x12; x13; x14; x15] fl sd m)
    = Some (mkMachine 17
              [a'; c'; inp; base; sp; data; si'; di'; out + i * rs; i; o';
               x11; x12; x13; x14; x15] fl' sd
              (collect_row dims ms base (out + i * rs) id m)).
Proof.
  intros Hi [Hrange Hload] Hsrc.
  assert (Hrs : 0 <= rs) by lia.
  assert (Hmul : i * rs + rs <= n * rs) by nia.
  assert (Hmul0 : 0 <= i * rs) by nia.
  unfold prog, collect_code_loop, collect_body, collect_row. cbn [app].
  fold n ms rs dims. change sizeof_float with 4.
  destruct (id <? 0) eqn:Hneg; [destruct (id =? -1) eqn:Hoov|].
  - (* id = -1: set the indicator *)
    do 7 eexists. step.
    rewrite (wrap64_small (inp + i * 4)) by (pow2; lia).
    replace (inp + i * 4) with (inp + 4 * i) by lia.
    rewrite Hload, (signed_int32 id) by (pow2; lia).
    step. rewrite Z.land_diag, sign_of_wrap64, Hneg by (pow2; lia).
    step. step. step. rewrite cmp_wrap64, Hoov by (pow2; lia).
    step. step. step.
    rewrite (wrap64_small (out + i * rs + dims * 4)) by (pow2; lia).
    change (trunc32 (trunc32 1065353216)) with Binary32.one.
    apply steps_O.
  - (* another negative id: nothing is written *)
    do 7 eexists. step.
    rewrite (wrap64_small (inp + i * 4)) by (pow2; lia).
    replace (inp + i * 4) with (inp + 4 * i) by lia.
    rewrite Hload, (signed_int32 id) by (pow2; lia).
    step. rewrite Z.land_diag, sign_of_wrap64, Hneg by (pow2; lia).
    step. step. step. rewrite cmp_wrap64, Hoov by (pow2; lia).
    step. apply steps_O.
  - (* a row index: copy the row *)
    apply Z.ltb_ge in Hneg. specialize (Hsrc Hneg).
    do 7 eexists. step.
    rewrite (wrap64_small (inp + i * 4)) by (pow2; lia).
    replace (inp + i * 4) with (inp + 4 * i) by lia.
    rewrite Hload, (signed_int32 id) by (pow2; lia).
    step. rewrite Z.land_diag, sign_of_wrap64 by (pow2; lia).
    replace (id <? 0) with false by (symmetry; apply Z.ltb_ge; lia).
    step. step. step.
    rewrite row_address_wrap, (wrap64_small (base + id * ms)) by (pow2; lia).
    step. rewrite !Z.add_0_r.
    rewrite (wrap64_small (out + i * rs)),
            (wrap64_small (base + id * ms)) by (pow2; lia).
    step. apply steps_O.
Qed.

(** One turn of the loop, from the label at its head back to it, or past the
    end of the code after the last feature. *)
Lemma collect_iteration (i a c si di o : Z) (fl : option Flags) (m : Memory) :
  0 <= i < n ->
  same_outside m ->
  exists k a' c' si' di' o' fl',
    steps k prog
      (mkMachine 4 [a; c; inp; base; sp; data; si; di; out + i * rs; i; o;
                    x11; x12; x13; x14; x15] fl sd m)
    = Some (mkMachine (if i + 1 =? n then 22 else 4)
              [a'; c'; inp; base; sp; data; si'; di'; out + (i + 1) * rs;
               i + 1; o'; x11; x12; x13; x14; x15] fl' sd
              (collect_row dims ms base (out + i * rs) (ids i) m)).
Proof.
  intros Hi Hsame.
  destruct (collect_body_loop i a c si di o (ids i) fl m Hi
              (feature_held m i Hsame Hi))
    as (k & a' & c' & si' & di' & o' & fl' & Hbody).
  { intros Hpos. apply (Hids i Hi), Hpos. }
  destruct (collect_tail i a' c' si' di' o' fl'
              (collect_row dims ms base (out + i * rs) (ids i) m) Hi)
    as (fl'' & Htail).
  exists (1 + (k + 5))%nat, a', c', si', di', o', fl''.
  cbn [Nat.add]. step. fold prog.
  rewrite (steps_add k 5 _ _ _ Hbody). exact Htail.
Qed.

Lemma collect_loop (k : nat) :
  forall (i a c si di o : Z) (fl : option Flags) (m : Memory),
    0 <= i -> i + Z.of_nat (S k) = n ->
    same_outside m ->
    exists count st',
      steps count prog
        (mkMachine 4 [a; c; inp; base; sp; data; si; di; out + i * rs; i; o;
                      x11; x12; x13; x14; x15] fl sd m)
      = Some st' /\
      pc st' = 22%nat /\
      mem st' = collect_rows dims ms base out rs ids (S k) i m.
Proof.
  induction k as [|k IH]; intros i a c si di o fl m Hi Hik Hsame.
  - destruct (collect_iteration i a c si di o fl m) as
      (count & a' & c' & si' & di' & o' & fl' & Hiter); [lia | exact Hsame |].
    replace (i + 1 =? n) with true in Hiter by (symmetry; apply Z.eqb_eq; lia).
    eexists. eexists. split; [exact Hiter|]. split; reflexivity.
  - destruct (collect_iteration i a c si di o fl m) as
      (count & a' & c' & si' & di' & o' & fl' & Hiter); [lia | exact Hsame |].
    replace (i + 1 =? n) with false in Hiter
      by (symmetry; apply Z.eqb_neq; lia).
    destruct (IH (i + 1) a' c' si' di' o' fl'
                (collect_row dims ms base (out + i * rs) (ids i) m))
      as (count' & st' & Hrest & Hpc & Hmem).
    + lia.
    + lia.
    + apply collect_row_same_outside; [exact Hsame | lia].
    + exists (count + count')%nat, st'. split; [|split].
      * rewrite (steps_add count count' _ _ _ Hiter). exact Hrest.
      * exact Hpc.
      * rewrite Hmem. reflexivity.
Qed.
End CollectLoop.

(** The code for a single feature, from after the three address loads to the
    label at its end. *)
Lemma collect_body_single (f M R : Tensor) (data inp base out : Z)
    (a c sp si di x9 o x11 x12 x13 x14 x15 id : Z) (fl : option Flags)
    (sd : list (list Z)) (m : Memory) :
  0 <= dim M 1 ->
  0 <= out /\ out + (dim M 1 + 1) * 4 < 2 ^ 64 ->
  holds_int32 m inp id ->
  (0 <= id -> 0 <= base + id * stride M 0 < 2 ^ 64) ->
  exists k a' c' si' di' o' fl',
    steps k (collect_code_single f M R)
      (mkMachine 3 [a; c; inp; base; sp; data; si; di; out; x9; o;
                    x11; x12; x13; x14; x15] fl sd m)
    = Some (mkMachine 15
              [a'; c'; inp; base; sp; data; si'; di'; out; x9; o';
               x11; x12; x13; x14; x15] fl' sd
              (collect_row (dim M 1) (stride M 0) base out id m)).
Proof.
  intros Hdims Hout [Hrange Hload] Hsrc.
  unfold collect_code_single, collect_body, collect_row. cbn [app].
  change sizeof_float with 4.
  destruct (id <? 0) eqn:Hneg; [destruct (id =? -1) eqn:Hoov|].
  - do 7 eexists. step.
    rewrite Hload, (signed_int32 id) by (pow2; lia).
    step. rewrite Z.land_diag, sign_of_wrap64, Hneg by (pow2; lia).
    step. step. step. rewrite cmp_wrap64, Hoov by (pow2; lia).
    step. step. step.
    rewrite (wrap64_small (out + dim M 1 * 4)) by (pow2; lia).
    change (trunc32 (trunc32 1065353216)) with Binary32.one.
    apply steps_O.
  - do 7 eexists. step.
    rewrite Hload, (signed_int32 id) by (pow2; lia).
    step. rewrite Z.land_diag, sign_of_wrap64, Hneg by (pow2; lia).
    step. step. step. rewrite cmp_wrap64, Hoov by (pow2; lia).
    step. apply steps_O.
  - apply Z.ltb_ge in Hneg. specialize (Hsrc Hneg).
    do 7 eexists. step.
    rewrite Hload, (signed_int32 id) by (pow2; lia).
    step. rewrite Z.land_diag, sign_of_wrap64 by (pow2; lia).
    replace (id <? 0) with false by (symmetry; apply Z.ltb_ge; lia).
    step. step. step.
    rewrite row_address_wrap, (wrap64_small (base + id * stride M 0))
      by (pow2; lia).
    step. rewrite !Z.add_0_r.
    rewrite (wrap64_small out),
            (wrap64_small (base + id * stride M 0)) by (pow2; lia).
    step. apply steps_O.
Qed.

(** The rows not yet handled are as the code found them. *)
Lemma collect_rows_frame (dims ms base out rs : Z) (ids : Z -> Z) :
  0 <= dims -> (dims + 1) * 4 <= rs ->
  forall (k : nat) (i : Z) (m : Memory) (x : Z),
    0 <= i ->
    x < out + i * rs \/ out + (i + Z.of_nat k) * rs <= x ->
    collect_rows dims ms base out rs ids k i m x = m x.
Proof.
  intros Hdims Hrow. induction k as [|k IH]; intros i m x Hi Hx.
  - reflexivity.
  - cbn [collect_rows]. rewrite IH by nia.
    apply collect_row_outside; [exact Hdims | nia].
Qed.

(** Every row handled by the loop ends as [collect_row_done] says. *)
Lemma collect_rows_spec (dims ms base out rs n : Z) (ids : Z -> Z)
    (m0 : Memory) :
  0 <= dims -> (dims + 1) * 4 <= rs ->
  (forall i, 0 <= i < n -> 0 <= ids i ->
     apart out (out + n * rs) (base + ids i * ms) (dims * 4)) ->
  forall (k : nat) (i : Z) (m : Memory),
    0 <= i -> i + Z.of_nat k = n ->
    (forall x, x < out \/ out + i * rs <= x -> m x = m0 x) ->
    forall j, i <= j < n ->
      collect_row_done dims ms base out rs ids m0
        (collect_rows dims ms base out rs ids k i m) j.
Proof.
  intros Hdims Hrow Hsrc. induction k as [|k IH]; intros i m Hi Hik Hsame j Hj.
  - lia.
  - cbn [collect_rows].
    set (m1 := collect_row dims ms base (out + i * rs) (ids i) m).
    assert (Hsame1 : forall x, x < out \/ out + (i + 1) * rs <= x ->
                               m1 x = m0 x).
    { intros x Hx. unfold m1.
      rewrite collect_row_outside by (lia || nia). apply Hsame. nia. }
    destruct (Z.eq_dec j i) as [->|Hne];
      [|apply (IH (i + 1) m1); [lia | lia | exact Hsame1 | lia]].
    assert (Hframe : forall x, x < out + (i + 1) * rs ->
              collect_rows dims ms base out rs ids k (i + 1) m1 x = m1 x).
    { intros x Hx. apply collect_rows_frame; [assumption | assumption | lia |].
      left. exact Hx. }
    unfold collect_row_done. cbv zeta. split; [|split].
    + intros Hpos. assert (Hin : 0 <= i < n) by lia.
      specialize (Hsrc i Hin Hpos). unfold apart in Hsrc.
      assert (Hm1 : m1 = copy m (out + i * rs) (base + ids i * ms) (dims * 4)).
      { unfold m1, collect_row.
        replace (ids i <? 0) with false by (symmetry; apply Z.ltb_ge; lia).
        reflexivity. }
      split; intros k' Hk'; rewrite Hframe by nia; rewrite Hm1.
      * rewrite copy_inside by lia.
        replace (out + i * rs + k' - (out + i * rs)) with k' by lia.
        apply Hsame. nia.
      * rewrite copy_outside by lia. apply Hsame. nia.
    + intros Hoov.
      assert (Hm1 : m1 = store 4 m (out + i * rs + dims * 4) Binary32.one).
      { unfold m1, collect_row. rewrite Hoov. reflexivity. }
      split.
      * rewrite (load_ext 4 _ m1).
        -- rewrite Hm1. apply load_store_same. cbv. split; congruence.
        -- intros x Hx. cbn in Hx. apply Hframe. nia.
      * intros k' Hk'. rewrite Hframe by nia. rewrite Hm1.
        rewrite store_outside by lia. apply Hsame. nia.
    + intros Hskip k' Hk'. rewrite Hframe by nia.
      assert (Hm1 : m1 = m).
      { unfold m1, collect_row.
        replace (ids i <? 0) with true by (symmetry; apply Z.ltb_lt; lia).
        replace (ids i =? -1) with false by (symmetry; apply Z.eqb_neq; lia).
        reflexivity. }
      rewrite Hm1. apply Hsame. nia.
Qed.

(** The emitted code, entered with anything in the registers, runs to its
    end and handles the rows one after the other. *)
Lemma DragnnCollect_runs (step : Step) (data : Z) (m : Memory)
    (ids : Z -> Z) (st0 : Machine) :
  let f := input step 0 in
  let M := input step 1 in
  let R := output step 0 in
  let n := dim f 1 in
  let dims := dim M 1 in
  let ms := stride M 0 in
  let rs := stride R 0 in
  let inp := tensor_address data m f in
  let base := tensor_address data m M in
  let out := tensor_address data m R in
  entered data m st0 ->
  1 <= n < 2 ^ 31 ->
  0 <= dims ->
  (dims + 1) * 4 <= rs ->
  0 <= out /\ out + n * rs < 2 ^ 64 ->
  0 <= inp /\ inp + 4 * n < 2 ^ 64 ->
  apart out (out + n * rs) inp (4 * n) ->
  (forall i, 0 <= i < n ->
     holds_int32 m (inp + 4 * i) (ids i) /\
     (0 <= ids i ->
      0 <= base + ids i * ms < 2 ^ 64 /\
      apart out (out + n * rs) (base + ids i * ms) (dims * 4))) ->
  exists code fuel st',
    emitted DragnnCollect.Generate step = Ok code /\
    run fuel code st0 = Halted st' /\
    mem st' = collect_rows dims ms base out rs ids (Z.to_nat n) 0 m.
Proof.
  intros f M R n dims ms rs inp base out
         Hent Hn Hdims Hrow Hout Hinp Hfeat Hids.
  rewrite DragnnCollect_emitted. fold f M R n.
  entered_state Hent st0.
  destruct (n =? 1) eqn:Hone.
  - (* a single feature: no loop *)
    apply Z.eqb_eq in Hone.
    destruct (collect_body_single f M R data inp base out
                q0 q1 q4 q6 q7 q9 q10 q11 q12 q13 q14 q15 (ids 0) fl0 sd0 m)
      as (k & a' & c' & si' & di' & o' & fl' & Hbody).
    + exact Hdims.
    + fold dims. lia.
    + destruct (Hids 0) as [Hheld _]; [lia|].
      replace (inp + 4 * 0) with inp in Hheld by lia. exact Hheld.
    + intros Hpos. apply (Hids 0); [lia | exact Hpos].
    + eexists. exists (3 + (k + 1))%nat. eexists.
      split; [reflexivity|]. split.
      * apply steps_halt.
        -- cbn [Nat.add]. step. step. step.
           fold inp base out.
           rewrite (steps_add k 1 _ _ _ Hbody).
           step. apply steps_O.
        -- reflexivity.
      * cbn [mem]. rewrite Hone. change (Z.to_nat 1) with 1%nat.
        cbn [collect_rows]. fold dims ms.
        replace (out + 0 * rs) with out by lia. reflexivity.
  - (* several features: the loop *)
    apply Z.eqb_neq in Hone.
    destruct (collect_loop f M R data inp base out q4 q11 q12 q13 q14 q15
                sd0 ids m)
      with (k := Z.to_nat (n - 1)) (i := 0) (a := q0) (c := q1) (si := q6)
           (di := q7) (o := q10) (fl := flags_of 0) (m := m)
      as (count & st' & Hloop & Hpc & Hmem);
      try assumption; try (fold n; lia); try reflexivity.
    fold n dims ms rs in Hloop, Hmem.
    replace (out + 0 * rs) with out in Hloop by lia.
    eexists. exists (4 + count)%nat, st'.
    split; [reflexivity|]. split.
    + apply steps_halt.
      * cbn [Nat.add]. step. step. step. step.
        fold inp base out. rewrite Z.lxor_nilpotent. exact Hloop.
      * rewrite Hpc. reflexivity.
    + rewrite Hmem. f_equal. lia.
Qed.

(** C4, as stated, fails on the shape of the features: [Supports] accepts a
    1 x batch feature matrix (here 1 x 3, with 3 output rows), which is not
    batch x 1, and rejects the same step with a 3 x 1 feature matrix. *)
Lemma DragnnCollect_features_are_one_row :
  DragnnCollect.Supports collect_step = true /\
  shape_ (input collect_step 0) = [1; 3] /\
  dim (output collect_step 0) 0 = 3 /\
  ~ (dim (input collect_step 0) 0 = dim (output collect_step 0) 0 /\
     dim (input collect_step 0) 1 = 1) /\
  shape_ (input collect_step_column 0) = [3; 1] /\
  DragnnCollect.Supports collect_step_column = false.
Proof.
  repeat split. intros [H _]. cbv in H. discriminate H.
Qed.

(** A batch without rows is accepted as well, and the code, whose loop tests
    its bound after the body, handles a feature all the same: entered with
    the id 1 in the first feature slot it copies row 1 of the matrix to the
    address of the output, and it has not reached its end after 1000
    instructions. *)
Lemma DragnnCollect_empty_batch :
  DragnnCollect.Supports collect0_step = true /\
  dim (output collect0_step 0) 0 = 0 /\
  emitted DragnnCollect.Generate collect0_step
  = Ok (collect_code_loop collect0_f collect_M collect0_R) /\
  option_map (fun st => (pc st, load_lanes 2 (mem st) 1088))
    (steps 17 (collect_code_loop collect0_f collect_M collect0_R)
       (dirty_entry collect_data collect_memory0))
  = Some (4%nat, [0x40400000; 0x40800000]) /\
  run 1000 (collect_code_loop collect0_f collect_M collect0_R)
      (dirty_entry collect_data collect_memory0)
  = OutOfFuel.
Proof. repeat split; vm_compute; reflexivity. Qed.

(** C4, amended.  [DragnnCollect] applies exactly to the steps with two
    inputs and one output where the features are 32-bit integers shaped
    1 x batch with batch the number of output rows, the embedding matrix and
    the output are float matrices, and the output has one column more than
    the matrix.  On such a step with at least one row (and fewer than 2^31,
    the output rows at least [dims] + 1 floats apart, addresses below 2^64,
    the output stored apart from the features and from the rows read), the
    emitted code, entered with anything in the registers, runs to its end,
    and for each row: a feature id >= 0 has the embedding row of that index copied into
    the first [dims] floats of the output row and leaves the indicator column
    as it was; the id -1 sets the indicator column to 1.0 and leaves the
    first [dims] floats as they were; any other negative id leaves the whole
    output row as it was. *)
Theorem DragnnCollect_spec (step : Step) (data : Z) (m : Memory)
    (ids : Z -> Z) (st0 : Machine) :
  let f := input step 0 in
  let M := input step 1 in
  let R := output step 0 in
  let n := dim f 1 in
  let dims := dim M 1 in
  let ms := stride M 0 in
  let rs := stride R 0 in
  let inp := tensor_address data m f in
  let base := tensor_address data m M in
  let out := tensor_address data m R in
  (DragnnCollect.Supports step = true <->
   indegree step = 2 /\ outdegree step = 1 /\
   type_ f = DT_INT32 /\
   type_ M = DT_FLOAT /\ rank M = 2 /\
   type_ R = DT_FLOAT /\ rank R = 2 /\
   dim f 0 = 1 /\ dim f 1 = dim R 0 /\
   dim R 1 = dim M 1 + 1) /\
  (DragnnCollect.Supports step = true ->
   entered data m st0 ->
   1 <= n < 2 ^ 31 ->
   0 <= dims ->
   (dims + 1) * 4 <= rs ->
   0 <= out /\ out + n * rs < 2 ^ 64 ->
   0 <= inp /\ inp + 4 * n < 2 ^ 64 ->
   apart out (out + n * rs) inp (4 * n) ->
   (forall i, 0 <= i < n ->
      holds_int32 m (inp + 4 * i) (ids i) /\
      (0 <= ids i ->
       0 <= base + ids i * ms < 2 ^ 64 /\
       apart out (out + n * rs) (base + ids i * ms) (dims * 4))) ->
   exists code fuel st',
     emitted DragnnCollect.Generate step = Ok code /\
     run fuel code st0 = Halted st' /\
     forall i, 0 <= i < dim R 0 ->
       collect_row_done dims ms base out rs ids m (mem st') i).
Proof.
  intros f M R n dims ms rs inp base out.
  split; [apply DragnnCollect_Supports_iff|].
  intros Hsup Hent Hn Hdims Hrow Hout Hinp Hfeat Hids.
  apply DragnnCollect_Supports_iff in Hsup
    as (_ & _ & _ & _ & _ & _ & _ & _ & Hbatch & _).
  fold f R n in Hbatch. rewrite <- Hbatch.
  destruct (DragnnCollect_runs step data m ids st0 Hent Hn Hdims Hrow Hout
              Hinp Hfeat Hids) as (code & fuel & st' & Hcode & Hrun & Hmem).
  exists code, fuel, st'. split; [exact Hcode|]. split; [exact Hrun|].
  intros i Hi. fold f M R n dims ms rs inp base out in Hmem. rewrite Hmem.
  apply (collect_rows_spec dims ms base out rs n ids m Hdims Hrow)
    with (k := Z.to_nat n) (i := 0).
  - intros j Hj Hpos. apply (Hids j Hj), Hpos.
  - lia.
  - lia.
  - reflexivity.
  - lia.
Qed.

Lemma DragnnCollect_spec_witness :
  exists code fuel st',
    emitted DragnnCollect.Generate collect_step = Ok code /\
    run fuel code (dirty_entry collect_data collect_memory0) = Halted st' /\
    load 4 (mem st') (1088 + 1 * 12 + 2 * 4) = Binary32.one.
Proof.
  destruct (DragnnCollect_spec collect_step collect_data collect_memory0
              collect_ids (dirty_entry collect_data collect_memory0))
    as [_ H].
  destruct H as (code & fuel & st' & Hcode & Hrun & Hrows).
  - reflexivity.
  - apply entered_dirty_entry.
  - change (1 <= 3 < 2 ^ 31). pow2. lia.
  - change (0 <= 2). lia.
  - change ((2 + 1) * 4 <= 12). lia.
  - change (0 <= 1088 /\ 1088 + 3 * 12 < 2 ^ 64). pow2. lia.
  - change (0 <= 1024 /\ 1024 + 4 * 3 < 2 ^ 64). pow2. lia.
  - change (apart 1088 (1088 + 3 * 12) 1024 (4 * 3)). unfold apart. lia.
  - intros i Hi. change (0 <= i < 3) in Hi.
    change (holds_int32 collect_memory0 (1024 + 4 * i) (collect_ids i) /\
            (0 <= collect_ids i ->
             0 <= 4096 + collect_ids i * 8 < 2 ^ 64 /\
             apart 1088 (1088 + 3 * 12) (4096 + collect_ids i * 8) (2 * 4))).
    assert (Hcases : i = 0 \/ i = 1 \/ i = 2) by lia.
    destruct Hcases as [-> | [-> | ->]].
    + split.
      * split; [change (- 2 ^ 31 <= 1 < 2 ^ 31); pow2; lia | reflexivity].
      * intros _. change (0 <= 4104 < 2 ^ 64 /\ apart 1088 1124 4104 8).
        unfold apart. pow2. lia.
    + split.
      * split; [change (- 2 ^ 31 <= -1 < 2 ^ 31); pow2; lia | reflexivity].
      * intros Hneg. change (0 <= -1) in Hneg. lia.
    + split.
      * split; [change (- 2 ^ 31 <= -5 < 2 ^ 31); pow2; lia | reflexivity].
      * intros Hneg. change (0 <= -5) in Hneg. lia.
  - exists code, fuel, st'. split; [exact Hcode|]. split; [exact Hrun|].
    destruct (Hrows 1) as (_ & Hoov & _).
    + change (0 <= 1 < 3). lia.
    + destruct (Hoov eq_refl) as [Hone _]. exact Hone.
Defined.

(** ** The scalar lookup on every input *)

Lemma DragnnLookup_emitted (step : Step) :
  emitted DragnnLookup.Generate step
  = Ok (lookup_code (input step 0) (input step 1) (output step 0)).
Proof. reflexivity. Qed.

Lemma lea_wrap (b r s : Z) :
  wrap64 (b + wrap64 (wrap64 r * s) * 1) = wrap64 (b + r * s).
Proof.
  rewrite Z.mul_1_r, wrap64_add_r. unfold wrap64.
  rewrite Zplus_mod, Zmult_mod_idemp_l, <- Zplus_mod. reflexivity.
Qed.

Lemma Binary32_add_range (a b : Z) : 0 <= Binary32.add a b < 2 ^ 32.
Proof.
  unfold Binary32.add, Binary32.quiet, Binary32.encode.
  destruct (Binary32.is_nan a); [|destruct (Binary32.is_nan b)];
    apply Z.mod_pos_bound; pow2; lia.
Qed.

Lemma add_floats_outside (row out : Z) (k : nat) :
  forall (r : Z) (m : Memory) (x : Z),
    x < out + 4 * r \/ out + 4 * (r + Z.of_nat k) <= x ->
    add_floats k r row out m x = m x.
Proof.
  induction k as [|k IH]; intros r m x Hx; [reflexivity|].
  cbn [add_floats]. rewrite IH by lia. apply store_outside. cbn. lia.
Qed.

Lemma lookup_feature_outside (dims ms base oov out id : Z) (m : Memory)
    (x : Z) :
  0 <= dims ->
  x < out \/ out + 4 * dims <= x ->
  lookup_feature dims ms base oov out id m x = m x.
Proof.
  intros Hdims Hx. unfold lookup_feature.
  destruct (id <? 0); [destruct (id =? -1)|];
    try reflexivity; apply add_floats_outside; lia.
Qed.

Section LookupLoop.
Variables (f M v : Tensor).
Variables (data inp base out : Z).
Variables (sp x9 x10 x11 x12 x13 x14 x15 : Z) (sdrest : list (list Z)).
Variable ids : Z -> Z.
Variable m0 : Memory.
Let n := dim f 1.
Let ms := stride M 0.
Let dims := dim v 1.
Let oov := dim M 0 - 1.
Hypothesis Hn : 1 <= n < 2 ^ 31.
Hypothesis Hdims : 1 <= dims < 2 ^ 31.
Hypothesis Hout : 0 <= out /\ out + 4 * dims < 2 ^ 64.
Hypothesis Hinp : 0 <= inp /\ inp + 4 * n < 2 ^ 64.
Hypothesis Hfeatures : apart out (out + 4 * dims) inp (4 * n).
Hypothesis Hids :
  forall i, 0 <= i < n ->
    holds_int32 m0 (inp + 4 * i) (ids i) /\
    (0 <= ids i ->
     0 <= base + ids i * ms /\ base + ids i * ms + 4 * dims <= 2 ^ 64) /\
    (ids i = -1 ->
     0 <= base + oov * ms /\ base + oov * ms + 4 * dims <= 2 ^ 64).

Let prog := lookup_code f M v.

(** A memory that differs from the initial one in the output only. *)
Let same_outside (m : Memory) : Prop :=
  forall x, x < out \/ out + 4 * dims <= x -> m x = m0 x.

(** One turn of the inner loop: one float is added. *)
Lemma lookup_inner_iteration (row col r : Z) (x0 : list Z)
    (fl : option Flags) (m : Memory) :
  0 <= r < dims ->
  0 <= row /\ row + 4 * dims <= 2 ^ 64 ->
  exists x0' fl',
    steps 7 prog
      (mkMachine 16 [row; inp; base; out; sp; data; col; r; wrap64 oov;
                     x9; x10; x11; x12; x13; x14; x15] fl (x0 :: sdrest) m)
    = Some (mkMachine (if r + 1 =? dims then 23 else 16)
              [row; inp; base; out; sp; data; col; r + 1; wrap64 oov;
               x9; x10; x11; x12; x13; x14; x15] fl' (x0' :: sdrest)
              (store 4 m (out + 4 * r)
                     (Binary32.add (load 4 m (out + 4 * r))
                                   (load 4 m (row + 4 * r))))).
Proof.
  intros Hr Hrowaddr.
  unfold prog, lookup_code. fold n ms dims oov.
  destruct (r + 1 =? dims) eqn:Hlast.
  - do 2 eexists. step. step.
    rewrite (wrap64_small (out + r * 4)) by (pow2; lia).
    replace (out + r * 4) with (out + 4 * r) by lia.
    step. rewrite (wrap64_small (row + r * 4)) by (pow2; lia).
    replace (row + r * 4) with (row + 4 * r) by lia.
    step. rewrite (wrap64_small (out + r * 4)) by (pow2; lia).
    replace (out + r * 4) with (out + 4 * r) by lia.
    step. rewrite (wrap64_small (r + 1)) by (pow2; lia).
    step. rewrite cmp_wrap64_small, Hlast by (pow2; lia).
    step. apply steps_O.
  - do 2 eexists. step. step.
    rewrite (wrap64_small (out + r * 4)) by (pow2; lia).
    replace (out + r * 4) with (out + 4 * r) by lia.
    step. rewrite (wrap64_small (row + r * 4)) by (pow2; lia).
    replace (row + r * 4) with (row + 4 * r) by lia.
    step. rewrite (wrap64_small (out + r * 4)) by (pow2; lia).
    replace (out + r * 4) with (out + 4 * r) by lia.
    step. rewrite (wrap64_small (r + 1)) by (pow2; lia).
    step. rewrite cmp_wrap64_small, Hlast by (pow2; lia).
    step. apply steps_O.
Qed.

Lemma lookup_inner_loop (row col : Z) (k : nat) :
  0 <= row /\ row + 4 * dims <= 2 ^ 64 ->
  forall (r : Z) (x0 : list Z) (fl : option Flags) (m : Memory),
    0 <= r -> r + Z.of_nat (S k) = dims ->
    exists count x0' fl',
      steps count prog
        (mkMachine 16 [row; inp; base; out; sp; data; col; r; wrap64 oov;
                       x9; x10; x11; x12; x13; x14; x15] fl (x0 :: sdrest) m)
      = Some (mkMachine 23
                [row; inp; base; out; sp; data; col; dims; wrap64 oov;
                 x9; x10; x11; x12; x13; x14; x15] fl' (x0' :: sdrest)
                (add_floats (S k) r row out m)).
Proof.
  intros Hrowaddr. induction k as [|k IH]; intros r x0 fl m Hr Hrk.
  - destruct (lookup_inner_iteration row col r x0 fl m)
      as (x0' & fl' & Hiter); [lia | exact Hrowaddr |].
    replace (r + 1 =? dims) with true in Hiter
      by (symmetry; apply Z.eqb_eq; lia).
    replace (r + 1) with dims in Hiter by lia.
    exists 7%nat, x0', fl'. exact Hiter.
  - destruct (lookup_inner_iteration row col r x0 fl m)
      as (x0' & fl' & Hiter); [lia | exact Hrowaddr |].
    replace (r + 1 =? dims) with false in Hiter
      by (symmetry; apply Z.eqb_neq; lia).
    destruct (IH (r + 1) x0' fl'
                (store 4 m (out + 4 * r)
                       (Binary32.add (load 4 m (out + 4 * r))
                                     (load 4 m (row + 4 * r)))))
      as (count & x0'' & fl'' & Hrest); [lia | lia |].
    exists (7 + count)%nat, x0'', fl''.
    rewrite (steps_add 7 count _ _ _ Hiter). exact Hrest.
Qed.

(** From the head of the outer loop to the label after the inner loop: one
    feature is resolved and its row, if any, added. *)
Lemma lookup_feature_steps (i a rd id : Z) (x0 : list Z)
    (fl : option Flags) (m : Memory) :
  0 <= i < n ->
  holds_int32 m (inp + 4 * i) id ->
  (0 <= id -> 0 <= base + id * ms /\ base + id * ms + 4 * dims <= 2 ^ 64) ->
  (id = -1 -> 0 <= base + oov * ms /\ base + oov * ms + 4 * dims <= 2 ^ 64) ->
  exists count a' rd' x0' fl',
    steps count prog
      (mkMachine 5 [a; inp; base; out; sp; data; i; rd; wrap64 oov;
                    x9; x10; x11; x12; x13; x14; x15] fl (x0 :: sdrest) m)
    = Some (mkMachine 23
              [a'; inp; base; out; sp; data; i; rd'; wrap64 oov;
               x9; x10; x11; x12; x13; x14; x15] fl' (x0' :: sdrest)
              (lookup_feature dims ms base oov out id m)).
Proof.
  intros Hi [Hrange Hload] Hrow Hoovrow.
  assert (Hcount : Z.to_nat dims = S (Z.to_nat (dims - 1))) by lia.
  unfold lookup_feature. rewrite Hcount.
  destruct (id <? 0) eqn:Hneg; [destruct (id =? -1) eqn:Hoov|].
  - (* id = -1: the OOV row *)
    apply Z.eqb_eq in Hoov. specialize (Hoovrow Hoov).
    destruct (lookup_inner_loop (base + oov * ms) i (Z.to_nat (dims - 1))
                Hoovrow 0 x0
                (flags_of 0) m)
      as (count & x0' & fl' & Hinner); [lia | lia |].
    exists (11 + count)%nat. do 4 eexists.
    unfold prog, lookup_code in Hinner |- *.
    fold n ms dims oov in Hinner |- *.
    cbn [Nat.add]. step. step.
    rewrite (wrap64_small (inp + i * 4)) by (pow2; lia).
    replace (inp + i * 4) with (inp + 4 * i) by lia.
    rewrite Hload, (signed_int32 id) by (pow2; lia).
    step. rewrite Z.land_diag, sign_of_wrap64, Hneg by (pow2; lia).
    step. step. rewrite cmp_wrap64 by (pow2; lia).
    replace (id =? -1) with true by (symmetry; apply Z.eqb_eq; exact Hoov).
    step. step. step. step. step.
    rewrite lea_wrap, (wrap64_small (base + oov * ms)) by (pow2; lia).
    step. rewrite Z.lxor_nilpotent. exact Hinner.
  - (* another negative id: skipped *)
    exists 6%nat. do 4 eexists.
    unfold prog, lookup_code. fold n ms dims oov.
    step. step.
    rewrite (wrap64_small (inp + i * 4)) by (pow2; lia).
    replace (inp + i * 4) with (inp + 4 * i) by lia.
    rewrite Hload, (signed_int32 id) by (pow2; lia).
    step. rewrite Z.land_diag, sign_of_wrap64, Hneg by (pow2; lia).
    step. step. rewrite cmp_wrap64, Hoov by (pow2; lia).
    step. apply steps_O.
  - (* a row index *)
    apply Z.ltb_ge in Hneg. specialize (Hrow Hneg).
    destruct (lookup_inner_loop (base + id * ms) i (Z.to_nat (dims - 1))
                Hrow 0 x0
                (flags_of 0) m)
      as (count & x0' & fl' & Hinner); [lia | lia |].
    exists (8 + count)%nat. do 4 eexists.
    unfold prog, lookup_code in Hinner |- *.
    fold n ms dims oov in Hinner |- *.
    cbn [Nat.add]. step. step.
    rewrite (wrap64_small (inp + i * 4)) by (pow2; lia).
    replace (inp + i * 4) with (inp + 4 * i) by lia.
    rewrite Hload, (signed_int32 id) by (pow2; lia).
    step. rewrite Z.land_diag, sign_of_wrap64 by (pow2; lia).
    replace (id <? 0) with false by (symmetry; apply Z.ltb_ge; lia).
    step. step. step. step.
    rewrite lea_wrap, (wrap64_small (base + id * ms)) by (pow2; lia).
    step. rewrite Z.lxor_nilpotent. exact Hinner.
Qed.

Lemma lookup_outer_tail (i a rd : Z) (x0 : list Z) (fl : option Flags)
    (m : Memory) :
  0 <= i < n ->
  exists fl',
    steps 4 prog
      (mkMachine 23 [a; inp; base; out; sp; data; i; rd; wrap64 oov;
                     x9; x10; x11; x12; x13; x14; x15] fl (x0 :: sdrest) m)
    = Some (mkMachine (if i + 1 =? n then 27 else 5)
              [a; inp; base; out; sp; data; i + 1; rd; wrap64 oov;
               x9; x10; x11; x12; x13; x14; x15] fl' (x0 :: sdrest) m).
Proof.
  intros Hi. unfold prog, lookup_code. fold n ms dims oov.
  destruct (i + 1 =? n) eqn:Hlast.
  - eexists. step. step. rewrite (wrap64_small (i + 1)) by (pow2; lia).
    step. rewrite cmp_wrap64_small, Hlast by (pow2; lia).
    step. apply steps_O.
  - eexists. step. step. rewrite (wrap64_small (i + 1)) by (pow2; lia).
    step. rewrite cmp_wrap64_small, Hlast by (pow2; lia).
    step. apply steps_O.
Qed.

Lemma lookup_feature_held (m : Memory) (i : Z) :
  same_outside m -> 0 <= i < n -> holds_int32 m (inp + 4 * i) (ids i).
Proof.
  intros Hsame Hi. destruct (Hids i Hi) as [[Hrange Hload] _].
  split; [exact Hrange|]. rewrite <- Hload. apply load_ext.
  intros x Hx. apply Hsame. cbn in Hx. unfold apart in Hfeatures. lia.
Qed.

(** One turn of the outer loop. *)
Lemma lookup_iteration (i a rd : Z) (x0 : list Z) (fl : option Flags)
    (m : Memory) :
  0 <= i < n ->
  same_outside m ->
  exists count a' rd' x0' fl',
    steps count prog
      (mkMachine 5 [a; inp; base; out; sp; data; i; rd; wrap64 oov;
                    x9; x10; x11; x12; x13; x14; x15] fl (x0 :: sdrest) m)
    = Some (mkMachine (if i + 1 =? n then 27 else 5)
              [a'; inp; base; out; sp; data; i + 1; rd'; wrap64 oov;
               x9; x10; x11; x12; x13; x14; x15] fl' (x0' :: sdrest)
              (lookup_feature dims ms base oov out (ids i) m)).
Proof.
  intros Hi Hsame.
  destruct (lookup_feature_steps i a rd (ids i) x0 fl m Hi
              (lookup_feature_held m i Hsame Hi))
    as (count & a' & rd' & x0' & fl' & Hfeature).
  { apply (Hids i Hi). }
  { apply (Hids i Hi). }
  destruct (lookup_outer_tail i a' rd' x0' fl'
              (lookup_feature dims ms base oov out (ids i) m) Hi)
    as (fl'' & Htail).
  exists (count + 4)%nat, a', rd', x0', fl''.
  rewrite (steps_add count 4 _ _ _ Hfeature). exact Htail.
Qed.

Lemma lookup_loop (k : nat) :
  forall (i a rd : Z) (x0 : list Z) (fl : option Flags) (m : Memory),
    0 <= i -> i + Z.of_nat (S k) = n ->
    same_outside m ->
    exists count st',
      steps count prog
        (mkMachine 5 [a; inp; base; out; sp; data; i; rd; wrap64 oov;
                      x9; x10; x11; x12; x13; x14; x15] fl (x0 :: sdrest) m)
      = Some st' /\
      pc st' = 27%nat /\
      mem st' = lookup_features dims ms base oov out ids (S k) i m.
Proof.
  induction k as [|k IH]; intros i a rd x0 fl m Hi Hik Hsame.
  - destruct (lookup_iteration i a rd x0 fl m) as
      (count & a' & rd' & x0' & fl' & Hiter); [lia | exact Hsame |].
    replace (i + 1 =? n) with true in Hiter by (symmetry; apply Z.eqb_eq; lia).
    eexists. eexists. split; [exact Hiter|]. split; reflexivity.
  - destruct (lookup_iteration i a rd x0 fl m) as
      (count & a' & rd' & x0' & fl' & Hiter); [lia | exact Hsame |].
    replace (i + 1 =? n) with false in Hiter
      by (symmetry; apply Z.eqb_neq; lia).
    destruct (IH (i + 1) a' rd' x0' fl'
                (lookup_feature dims ms base oov out (ids i) m))
      as (count' & st' & Hrest & Hpc & Hmem).
    + lia.
    + lia.
    + intros x Hx. rewrite lookup_feature_outside by lia. apply Hsame, Hx.
    + exists (count + count')%nat, st'. split; [|split].
      * rewrite (steps_add count count' _ _ _ Hiter). exact Hrest.
      * exact Hpc.
      * rewrite Hmem. reflexivity.
Qed.
End LookupLoop.

(** The emitted code, entered with anything in the registers, runs to its
    end and handles the features one after the other. *)
Lemma DragnnLookup_runs (step : Step) (data : Z) (m : Memory) (ids : Z -> Z)
    (st0 : Machine) :
  let f := input step 0 in
  let M := input step 1 in
  let v := output step 0 in
  let n := dim f 1 in
  let dims := dim v 1 in
  let ms := stride M 0 in
  let oov := dim M 0 - 1 in
  let inp := tensor_address data m f in
  let base := tensor_address data m M in
  let out := tensor_address data m v in
  entered data m st0 ->
  1 <= n < 2 ^ 31 ->
  1 <= dims < 2 ^ 31 ->
  0 <= out /\ out + 4 * dims < 2 ^ 64 ->
  0 <= inp /\ inp + 4 * n < 2 ^ 64 ->
  apart out (out + 4 * dims) inp (4 * n) ->
  (forall i, 0 <= i < n ->
     holds_int32 m (inp + 4 * i) (ids i) /\
     (0 <= ids i ->
      0 <= base + ids i * ms /\ base + ids i * ms + 4 * dims <= 2 ^ 64) /\
     (ids i = -1 ->
      0 <= base + oov * ms /\ base + oov * ms + 4 * dims <= 2 ^ 64)) ->
  exists code fuel st',
    emitted DragnnLookup.Generate step = Ok code /\
    run fuel code st0 = Halted st' /\
    mem st' = lookup_features dims ms base oov out ids (Z.to_nat n) 0 m.
Proof.
  intros f M v n dims ms oov inp base out Hent Hn Hdims Hout Hinp Hfeat Hids.
  rewrite DragnnLookup_emitted. fold f M v.
  entered_state Hent st0.
  destruct sd0 as [|x0 sdrest]; [discriminate Hsd0|].
  destruct (lookup_loop f M v data inp base out q4 q9 q10 q11 q12 q13 q14 q15
              sdrest ids m)
    with (k := Z.to_nat (n - 1)) (i := 0) (a := q0) (rd := q7)
         (x0 := x0) (fl := flags_of 0) (m := m)
    as (count & st' & Hloop & Hpc & Hmem);
    try assumption; try (fold n; lia); try reflexivity.
  fold n dims ms oov in Hloop, Hmem.
  eexists. exists (5 + count)%nat, st'.
  split; [reflexivity|]. split.
  - apply steps_halt.
    + cbn [Nat.add]. step. step. step. step. step.
      fold inp base out oov. rewrite Z.lxor_nilpotent. exact Hloop.
    + rewrite Hpc. reflexivity.
  - rewrite Hmem. f_equal. lia.
Qed.

(** *** From the memory to vectors of floats *)

Lemma load_lanes_ext (k : nat) (m m' : Memory) (a : Z) :
  (forall x, a <= x < a + 4 * Z.of_nat k -> m x = m' x) ->
  load_lanes k m a = load_lanes k m' a.
Proof.
  revert a. induction k as [|k IH]; intros a H; [reflexivity|].
  cbn [load_lanes]. f_equal.
  - apply load_ext. intros x Hx. apply H. cbn in Hx. lia.
  - apply IH. intros x Hx. apply H. lia.
Qed.

Lemma add_floats_lanes (row out : Z) (k : nat) :
  forall (r : Z) (m : Memory),
    apart (out + 4 * r) (out + 4 * (r + Z.of_nat k))
          (row + 4 * r) (4 * Z.of_nat k) ->
    load_lanes k (add_floats k r row out m) (out + 4 * r)
    = add_row (load_lanes k m (out + 4 * r)) (load_lanes k m (row + 4 * r)).
Proof.
  induction k as [|k IH]; intros r m Hapart; [reflexivity|].
  unfold apart in Hapart. cbn [add_floats load_lanes].
  set (m1 := store 4 m (out + 4 * r)
               (Binary32.add (load 4 m (out + 4 * r))
                             (load 4 m (row + 4 * r)))).
  unfold add_row. cbn [zip_with]. f_equal.
  - rewrite (load_ext 4 _ m1).
    + unfold m1. apply load_store_same. apply Binary32_add_range.
    + intros x Hx. cbn in Hx. apply add_floats_outside. lia.
  - replace (out + 4 * r + 4) with (out + 4 * (r + 1)) by lia.
    replace (row + 4 * r + 4) with (row + 4 * (r + 1)) by lia.
    fold (add_row (load_lanes k m (out + 4 * (r + 1)))
                  (load_lanes k m (row + 4 * (r + 1)))).
    rewrite IH by (unfold apart; lia).
    f_equal; apply load_lanes_ext; intros x Hx; unfold m1;
      apply store_outside; cbn; lia.
Qed.

Lemma lookup_features_lanes (dims ms base rows out : Z) (ids : Z -> Z)
    (m0 : Memory) (n : Z) :
  0 <= dims ->
  (forall i, 0 <= i < n ->
     (0 <= ids i ->
      apart out (out + 4 * dims) (base + ids i * ms) (4 * dims)) /\
     (ids i = -1 ->
      apart out (out + 4 * dims) (base + (rows - 1) * ms) (4 * dims))) ->
  forall (k : nat) (i : Z) (m : Memory),
    0 <= i -> i + Z.of_nat k = n ->
    (forall x, x < out \/ out + 4 * dims <= x -> m x = m0 x) ->
    load_lanes (Z.to_nat dims)
      (lookup_features dims ms base (rows - 1) out ids k i m) out
    = lookup_accumulate rows
        (fun r => load_lanes (Z.to_nat dims) m0 (base + r * ms))
        (feature_list ids i k)
        (load_lanes (Z.to_nat dims) m out).
Proof.
  intros Hdims Hrows. induction k as [|k IH]; intros i m Hi Hik Hsame.
  - reflexivity.
  - cbn [lookup_features feature_list]. unfold lookup_accumulate.
    cbn [fold_left]. fold (lookup_accumulate rows
      (fun r => load_lanes (Z.to_nat dims) m0 (base + r * ms))
      (feature_list ids (i + 1) k)).
    destruct (Hrows i) as [Hrow Hoov]; [lia|].
    assert (Hsum : forall row,
              apart out (out + 4 * dims) row (4 * dims) ->
              load_lanes (Z.to_nat dims)
                (add_floats (Z.to_nat dims) 0 row out m) out
              = add_row (load_lanes (Z.to_nat dims) m out)
                        (load_lanes (Z.to_nat dims) m0 row)).
    { intros row Hapart. unfold apart in Hapart.
      pose proof (add_floats_lanes row out (Z.to_nat dims) 0 m) as H.
      replace (out + 4 * 0) with out in H by lia.
      replace (row + 4 * 0) with row in H by lia.
      rewrite H by (unfold apart; lia). f_equal.
      apply load_lanes_ext. intros x Hx. apply Hsame. lia. }
    rewrite IH; [| lia | lia |
      intros x Hx; rewrite lookup_feature_outside by lia; apply Hsame, Hx].
    f_equal. unfold lookup_feature, resolve.
    destruct (Z.ltb_spec (ids i) 0) as [Hneg|Hpos].
    + destruct (Z.eqb_spec (ids i) (-1)) as [Hm1|Hother].
      * apply Hsum, Hoov, Hm1.
      * replace (ids i <? -1) with true by (symmetry; apply Z.ltb_lt; lia).
        reflexivity.
    + replace (ids i =? -1) with false by (symmetry; apply Z.eqb_neq; lia).
      replace (ids i <? -1) with false by (symmetry; apply Z.ltb_ge; lia).
      apply Hsum, Hrow, Hpos.
Qed.

(** X1.  On every input with at least one feature and one column (fewer than
    2^31 of each, addresses below 2^64, the output stored apart from the
    features and from the rows read), the scalar lookup, entered with
    anything in the registers, runs to its end with the resolved rows added,
    in the order of the features, to what the output vector held before: it
    computes [lookup_accumulate] from the old output, where the spec's
    [lookup_sum] is [lookup_accumulate] from a cleared one. *)
Theorem DragnnLookup_adds_rows_to_output (step : Step) (data : Z)
    (m : Memory) (ids : Z -> Z) (st0 : Machine) :
  let f := input step 0 in
  let M := input step 1 in
  let v := output step 0 in
  let n := dim f 1 in
  let dims := dim v 1 in
  let ms := stride M 0 in
  let oov := dim M 0 - 1 in
  let inp := tensor_address data m f in
  let base := tensor_address data m M in
  let out := tensor_address data m v in
  let row_of (r : Z) := load_lanes (Z.to_nat dims) m (base + r * ms) in
  entered data m st0 ->
  1 <= n < 2 ^ 31 ->
  1 <= dims < 2 ^ 31 ->
  0 <= out /\ out + 4 * dims < 2 ^ 64 ->
  0 <= inp /\ inp + 4 * n < 2 ^ 64 ->
  apart out (out + 4 * dims) inp (4 * n) ->
  (forall i, 0 <= i < n ->
     holds_int32 m (inp + 4 * i) (ids i) /\
     (0 <= ids i ->
      0 <= base + ids i * ms /\ base + ids i * ms + 4 * dims <= 2 ^ 64 /\
      apart out (out + 4 * dims) (base + ids i * ms) (4 * dims)) /\
     (ids i = -1 ->
      0 <= base + oov * ms /\ base + oov * ms + 4 * dims <= 2 ^ 64 /\
      apart out (out + 4 * dims) (base + oov * ms) (4 * dims))) ->
  exists code fuel st',
    emitted DragnnLookup.Generate step = Ok code /\
    run fuel code st0 = Halted st' /\
    load_lanes (Z.to_nat dims) (mem st') out
    = lookup_accumulate (dim M 0) row_of (feature_list ids 0 (Z.to_nat n))
        (load_lanes (Z.to_nat dims) m out).
Proof.
  intros f M v n dims ms oov inp base out row_of
         Hent Hn Hdims Hout Hinp Hfeat Hids.
  destruct (DragnnLookup_runs step data m ids st0 Hent Hn Hdims Hout Hinp
              Hfeat)
    as (code & fuel & st' & Hcode & Hrun & Hmem).
  { intros i Hi. destruct (Hids i Hi) as (Hheld & Hrow & Hoov).
    split; [exact Hheld|]. split.
    - intros Hpos. destruct (Hrow Hpos) as (H1 & H2 & _). split; assumption.
    - intros Hm1. destruct (Hoov Hm1) as (H1 & H2 & _). split; assumption. }
  exists code, fuel, st'. split; [exact Hcode|]. split; [exact Hrun|].
  fold f M v n dims ms oov inp base out in Hmem. rewrite Hmem.
  apply (lookup_features_lanes dims ms base (dim M 0) out ids m n).
  - lia.
  - intros i Hi. destruct (Hids i Hi) as (_ & Hrow & Hoov). split.
    + intros Hpos. apply (Hrow Hpos).
    + intros Hm1. apply (Hoov Hm1).
  - lia.
  - lia.
  - reflexivity.
Qed.

Lemma lookup_sum_is_accumulate_from_zero (dims : nat) (M : list (list Z))
    (ids : list Z) :
  lookup_sum dims M ids
  = lookup_accumulate (Z.of_nat (length M))
      (fun r => nth (Z.to_nat r) M []) ids (replicate dims 0).
Proof. reflexivity. Qed.

(** The general statement at [lookup3_step], entered with dirty registers
    and with 1.0 in the last element of the output: row 0 (2.0, 0, ...) and
    the OOV row (0.5, 0, ..., 1.0) are added to it, in this order. *)
Lemma DragnnLookup_adds_rows_to_output_witness :
  exists code fuel st',
    emitted DragnnLookup.Generate lookup3_step = Ok code /\
    run fuel code (dirty_entry lookup8_data lookup3_memory_used) = Halted st' /\
    load_lanes 8 (mem st') 1056
    = [0x40200000; 0; 0; 0; 0; 0; 0; 0x40000000].
Proof.
  destruct (DragnnLookup_adds_rows_to_output lookup3_step lookup8_data
              lookup3_memory_used lookup3_ids
              (dirty_entry lookup8_data lookup3_memory_used))
    as (code & fuel & st' & Hcode & Hrun & Hout).
  - apply entered_dirty_entry.
  - change (1 <= 3 < 2 ^ 31). pow2. lia.
  - change (1 <= 8 < 2 ^ 31). pow2. lia.
  - change (0 <= 1056 /\ 1056 + 4 * 8 < 2 ^ 64). pow2. lia.
  - change (0 <= 1024 /\ 1024 + 4 * 3 < 2 ^ 64). pow2. lia.
  - change (apart 1056 (1056 + 4 * 8) 1024 (4 * 3)). unfold apart. lia.
  - intros i Hi. change (0 <= i < 3) in Hi.
    change (holds_int32 lookup3_memory_used (1024 + 4 * i) (lookup3_ids i) /\
            (0 <= lookup3_ids i ->
             0 <= 4096 + lookup3_ids i * 32 /\
             4096 + lookup3_ids i * 32 + 4 * 8 <= 2 ^ 64 /\
             apart 1056 (1056 + 4 * 8) (4096 + lookup3_ids i * 32) (4 * 8)) /\
            (lookup3_ids i = -1 ->
             0 <= 4096 + (2 - 1) * 32 /\
             4096 + (2 - 1) * 32 + 4 * 8 <= 2 ^ 64 /\
             apart 1056 (1056 + 4 * 8) (4096 + (2 - 1) * 32) (4 * 8))).
    assert (Hcases : i = 0 \/ i = 1 \/ i = 2) by lia.
    destruct Hcases as [-> | [-> | ->]]; unfold holds_int32, apart;
      change (lookup3_ids 0) with 0; change (lookup3_ids 1) with (-1);
      change (lookup3_ids 2) with (-7); pow2;
      (split; [split; [lia | reflexivity] | split; intros _; lia]).
  - exists code, fuel, st'. split; [exact Hcode|]. split; [exact Hrun|].
    exact Hout.
Defined.
(** ** The unrolled lookup: the emitted code *)

Lemma for_from_emits (g : nat -> Instr) (n i0 : nat) (masm : MacroAssembler) :
  for_from i0 n (fun i => emit (g i)) masm
  = Ok (tt, mkMasm (rr masm) (mm masm) (code masm ++ map g (seq i0 n))).
Proof.
  revert i0 masm. induction n as [|n IH]; intros i0 masm.
  - cbn. rewrite app_nil_r. destruct masm; reflexivity.
  - cbn [for_from seq map]. unfold and_then, emit at 1. rewrite IH.
    cbn [rr mm code]. rewrite <- app_assoc. reflexivity.
Qed.

Lemma mm_alloc_next (k : nat) (masm : MacroAssembler) :
  (k <= 16)%nat ->
  mm masm = rev (seq 0 k) ->
  mm_alloc masm
  = if (k <? 16)%nat
    then Ok (k, mkMasm (rr masm) (k :: mm masm) (code masm))
    else Fatal "SIMD register overflow".
Proof.
  intros Hk Hmm. unfold mm_alloc. rewrite Hmm.
  do 17 (destruct k as [|k]; [reflexivity|]). lia.
Qed.

Lemma alloc_sum_spec (n : nat) :
  forall (k : nat) (masm : MacroAssembler),
    (k <= 16)%nat ->
    mm masm = rev (seq 0 k) ->
    DragnnLookupUnrolled.alloc_sum n masm
    = if (k + n <=? 16)%nat
      then Ok (seq k n, mkMasm (rr masm) (rev (seq 0 (k + n))) (code masm))
      else Fatal "SIMD register overflow".
Proof.
  induction n as [|n IH]; intros k masm Hk Hmm.
  - cbn [DragnnLookupUnrolled.alloc_sum seq]. rewrite Nat.add_0_r.
    replace (k <=? 16)%nat with true by (symmetry; apply Nat.leb_le; exact Hk).
    unfold ret. rewrite <- Hmm. destruct masm; reflexivity.
  - cbn [DragnnLookupUnrolled.alloc_sum]. unfold and_then at 1.
    unfold mm_allocy. rewrite (mm_alloc_next k masm Hk Hmm).
    destruct (Nat.ltb_spec k 16) as [Hlt|Hge].
    + unfold and_then at 1. rewrite (IH (S k)).
      * cbn [rr mm code]. replace (S k + n)%nat with (k + S n)%nat by lia.
        destruct (k + S n <=? 16)%nat; reflexivity.
      * lia.
      * cbn [mm]. rewrite Hmm, seq_S, rev_app_distr. reflexivity.
    + replace (k + S n <=? 16)%nat with false
        by (symmetry; apply Nat.leb_gt; lia).
      reflexivity.
Qed.

Lemma map_nth_seq (A : Type) (g : nat -> nat -> A) (b : nat) :
  map (fun i => g i (nth i (seq 0 b) 0%nat)) (seq 0 b)
  = map (fun i => g i i) (seq 0 b).
Proof.
  apply map_ext_in. intros i Hi. apply in_seq in Hi.
  rewrite seq_nth by lia. reflexivity.
Qed.

Lemma DragnnLookupUnrolled_emitted (step : Step) :
  let b := Z.to_nat (Z.quot (dim (output step 0) 1) 8) in
  emitted DragnnLookupUnrolled.Generate step
  = if (b <=? 16)%nat
    then Ok (unrolled_code (input step 0) (input step 1) (output step 0) b)
    else Fatal "SIMD register overflow".
Proof.
  intros b. unfold emitted, DragnnLookupUnrolled.Generate.
  change DragnnLookupUnrolled.kBlockSize with 8. fold b.
  unfold and_then.
  cbn [rr_alloc new_masm find all_registers used existsb rr mm code
       Register_eqb code_of instance Nat.eqb negb orb].
  rewrite (alloc_sum_spec b 0); [|lia|reflexivity].
  cbn [Nat.add]. destruct (b <=? 16)%nat; [|reflexivity].
  unfold LoadTensorAddress, LoopStart, Multiply, for_.
  unfold emit at 1 2 3. cbn [rr mm code app].
  change (Z.to_nat (Z.quot (dim (output step 0) 1) 8)) with b.
  rewrite for_from_emits. cbn [rr mm code app].
  repeat first [ rewrite for_from_emits; cbn [rr mm code]
               | unfold emit at 1; cbn [rr mm code] ].
  rewrite (map_nth_seq _ (fun _ r => vxorps r r r)).
  rewrite (map_nth_seq _ (fun i r => vaddps r r (OperandD rax (Z.of_nat i * 8 * sizeof_float)))).
  rewrite (map_nth_seq _ (fun i r => vmovaps (OperandD rbx (Z.of_nat i * 8 * sizeof_float)) r)).
  unfold unrolled_code, unrolled_segments, unrolled_clear, unrolled_add,
    unrolled_store.
  change DragnnLookupUnrolled.kBlockSize with 8.
  cbn [concat app]. rewrite <- !app_assoc. cbn [app]. rewrite app_nil_r.
  reflexivity.
Qed.

(** ** Code cut into segments *)

Lemma reaches_refl (prog : list Instr) (st : Machine) : reaches prog st st.
Proof. exists 0%nat. reflexivity. Qed.

Lemma reaches_trans (prog : list Instr) (st1 st2 st3 : Machine) :
  reaches prog st1 st2 -> reaches prog st2 st3 -> reaches prog st1 st3.
Proof.
  intros [k1 H1] [k2 H2]. exists (k1 + k2)%nat.
  rewrite (steps_add k1 k2 _ _ _ H1). exact H2.
Qed.

Lemma reaches_halts (prog : list Instr) (st st' : Machine) :
  reaches prog st st' ->
  nth_error prog (pc st') = None ->
  exists fuel, run fuel prog st = Halted st'.
Proof. intros [k H] Hend. exists k. apply steps_halt; assumption. Qed.

Lemma segment_split (segs : list (list Instr)) (s : nat) (block : list Instr) :
  segs !! s = Some block ->
  concat segs
  = (concat (take s segs) ++ block ++ concat (drop (S s) segs))%list.
Proof.
  intros H. rewrite <- (take_drop_middle segs s block H) at 1.
  rewrite concat_app. reflexivity.
Qed.

(** A segment of sequential instructions runs as a block. *)
Lemma reaches_block (segs : list (list Instr)) (s : nat) (block : list Instr)
    (st st' : Machine) :
  segs !! s = Some block ->
  forallb sequential block = true ->
  pc st = length (concat (take s segs)) ->
  exec_list block st = Some st' ->
  reaches (concat segs) st st'.
Proof.
  intros Hseg Hseq Hpc Hexec. exists (length block).
  rewrite (segment_split segs s block Hseg).
  rewrite steps_block by assumption. exact Hexec.
Qed.

Lemma segment_jump (segs : list (list Instr)) (s : nat) (i : Instr)
    (st : Machine) :
  segs !! s = Some [i] ->
  pc st = length (concat (take s segs)) ->
  nth_error (concat segs) (pc st) = Some i.
Proof.
  intros Hseg Hpc. rewrite (segment_split segs s [i] Hseg), Hpc.
  rewrite nth_error_app2 by lia. rewrite Nat.sub_diag. reflexivity.
Qed.

(** A conditional branch, taken and not taken. *)
Lemma reaches_branch_taken (segs : list (list Instr)) (s : nat)
    (cc : Condition) (l : Label) (st : Machine) (f : Flags) (k : nat) :
  segs !! s = Some [j cc l] ->
  pc st = length (concat (take s segs)) ->
  flags st = Some f ->
  holds cc f = true ->
  find_label l (concat segs) = Some k ->
  reaches (concat segs) st (goto k st).
Proof.
  intros Hseg Hpc Hfl Hcc Hlabel. exists 1%nat.
  cbn [steps]. rewrite (segment_jump segs s _ st Hseg Hpc).
  cbn [exec]. rewrite Hfl, Hcc. unfold jump. rewrite Hlabel. reflexivity.
Qed.

Lemma reaches_branch_not_taken (segs : list (list Instr)) (s : nat)
    (cc : Condition) (l : Label) (st : Machine) (f : Flags) :
  segs !! s = Some [j cc l] ->
  pc st = length (concat (take s segs)) ->
  flags st = Some f ->
  holds cc f = false ->
  reaches (concat segs) st (next st).
Proof.
  intros Hseg Hpc Hfl Hcc. exists 1%nat.
  cbn [steps]. rewrite (segment_jump segs s _ st Hseg Hpc).
  cbn [exec]. rewrite Hfl, Hcc. reflexivity.
Qed.

(** Labels are looked for segment by segment. *)
Lemma find_label_from_app (l : Label) (xs ys : list Instr) (k : nat) :
  find_label_from l (xs ++ ys) k
  = match find_label_from l xs k with
    | Some p => Some p
    | None => find_label_from l ys (k + length xs)
    end.
Proof.
  revert k. induction xs as [|i xs IH]; intros k.
  - cbn. rewrite Nat.add_0_r. reflexivity.
  - cbn [app length].
    replace (k + S (length xs))%nat with (S k + length xs)%nat by lia.
    destruct i; cbn [find_label_from]; try apply IH.
    destruct (Nat.eqb l l0); [reflexivity | apply IH].
Qed.

Lemma find_label_from_map (l : Label) (g : nat -> Instr) (xs : list nat)
    (k : nat) :
  (forall i, sequential (g i) = true /\ forall l', g i <> bind l') ->
  find_label_from l (map g xs) k = None.
Proof.
  intros Hg. revert k. induction xs as [|x xs IH]; intros k; [reflexivity|].
  cbn [map]. destruct (Hg x) as [_ Hx].
  destruct (g x) eqn:E; cbn [find_label_from]; try apply IH.
  exfalso. apply (Hx l0). reflexivity.
Qed.

Lemma unrolled_blocks_sequential (b : nat) :
  forallb sequential (unrolled_clear b) = true /\
  forallb sequential (unrolled_add b) = true /\
  forallb sequential (unrolled_store b) = true.
Proof.
  unfold unrolled_clear, unrolled_add, unrolled_store.
  repeat split; apply forallb_forall; intros i Hi;
    apply in_map_iff in Hi as (x & <- & _); reflexivity.
Qed.

Lemma unrolled_blocks_length (b : nat) :
  length (unrolled_clear b) = b /\
  length (unrolled_add b) = b /\
  length (unrolled_store b) = b.
Proof.
  unfold unrolled_clear, unrolled_add, unrolled_store.
  rewrite !length_map, !length_seq. auto.
Qed.

(** Where the segments start. *)
Lemma unrolled_segment_start (f M v : Tensor) (b : nat) (s : nat) :
  length (concat (take s (unrolled_segments f M v b)))
  = nth s [0; 3; 3 + b; 5 + b; 8 + b; 9 + b; 10 + b; 11 + b; 12 + b;
           15 + b; 15 + 2 * b; 18 + 2 * b; 19 + 2 * b]%nat
        (19 + 3 * b)%nat.
Proof.
  destruct (unrolled_blocks_length b) as (H1 & H2 & H3).
  unfold unrolled_segments.
  do 13 (destruct s as [|s];
         [cbn [take concat nth]; rewrite ?length_app, ?H1, ?H2, ?H3;
          cbn [length]; lia|]).
  cbn [take concat nth]. rewrite take_nil. cbn [concat].
  rewrite ?length_app, ?H1, ?H2, ?H3. cbn [length]. destruct s; lia.
Qed.

Lemma unrolled_code_length (f M v : Tensor) (b : nat) :
  length (unrolled_code f M v b) = (19 + 3 * b)%nat.
Proof.
  unfold unrolled_code.
  rewrite <- (firstn_all (unrolled_segments f M v b)) at 1.
  change (length (unrolled_segments f M v b)) with 13%nat.
  apply (unrolled_segment_start f M v b 13).
Qed.

Lemma unrolled_labels (f M v : Tensor) (b : nat) :
  find_label 1%nat (unrolled_code f M v b) = Some (5 + b)%nat /\
  find_label 2%nat (unrolled_code f M v b) = Some (12 + b)%nat /\
  find_label 3%nat (unrolled_code f M v b) = Some (15 + 2 * b)%nat.
Proof.
  destruct (unrolled_blocks_length b) as (H1 & H2 & H3).
  assert (Hclear : forall l k, find_label_from l (unrolled_clear b) k = None).
  { intros l k. apply find_label_from_map. intros i. split; [reflexivity|].
    discriminate. }
  assert (Hadd : forall l k, find_label_from l (unrolled_add b) k = None).
  { intros l k. apply find_label_from_map. intros i. split; [reflexivity|].
    discriminate. }
  unfold find_label, unrolled_code, unrolled_segments.
  cbn [concat app find_label_from Nat.eqb].
  rewrite !find_label_from_app, !Hclear, H1.
  cbn [app find_label_from Nat.eqb].
  rewrite !find_label_from_app, !Hadd, H2.
  cbn [app find_label_from Nat.eqb].
  repeat split; f_equal; lia.
Qed.

(** ** The unrolled blocks *)

Lemma lanes_with_lanes_ne (st : Machine) (i j : nat) (v : list Z) :
  i <> j -> lanes (next (with_lanes j v st)) i = lanes st i.
Proof.
  intros Hne. unfold lanes, next, with_lanes. cbn [simd].
  rewrite !nth_lookup, list_lookup_insert_ne by congruence. reflexivity.
Qed.

(** A block of instructions of which the i-th replaces vector register i by
    [upd st i], a value that does not depend on the other vector
    registers. *)
Lemma exec_lane_block (g : nat -> Instr) (upd : Machine -> nat -> list Z) :
  (forall i st, exec [] (g i) st = Some (next (with_lanes i (upd st i) st))) ->
  (forall i j w st, i <> j -> upd (next (with_lanes j w st)) i = upd st i) ->
  forall (k i0 : nat) (st : Machine),
    (i0 + k <= length (simd st))%nat ->
    exists st',
      exec_list (map g (seq i0 k)) st = Some st' /\
      pc st' = (pc st + k)%nat /\ regs st' = regs st /\
      flags st' = flags st /\ mem st' = mem st /\
      length (simd st') = length (simd st) /\
      (forall i, (i0 <= i < i0 + k)%nat -> simd st' !! i = Some (upd st i)) /\
      (forall i, ~ (i0 <= i < i0 + k)%nat -> simd st' !! i = simd st !! i).
Proof.
  intros Hexec Hupd. induction k as [|k IH]; intros i0 st Hlen.
  - exists st. cbn. repeat split; try lia.
  - cbn [seq map exec_list]. rewrite Hexec.
    destruct (IH (S i0) (next (with_lanes i0 (upd st i0) st)))
      as (st' & Hrun & Hpc & Hregs & Hfl & Hmem & Hlen' & Hin & Hout).
    { cbn [simd next with_lanes]. rewrite length_insert. lia. }
    exists st'. split; [exact Hrun|].
    cbn [pc regs flags mem simd next with_lanes] in *.
    rewrite length_insert in Hlen'.
    repeat split; try assumption; try lia.
    + intros i Hi. destruct (Nat.eq_dec i i0) as [->|Hne].
      * rewrite Hout by lia. apply list_lookup_insert_eq. lia.
      * rewrite Hin by lia. f_equal. apply Hupd. exact Hne.
    + intros i Hi. rewrite Hout by lia.
      apply list_lookup_insert_ne. lia.
Qed.

Lemma length_load_lanes (n : nat) (m : Memory) (a : Z) :
  length (load_lanes n m a) = n.
Proof. revert a. induction n as [|n IH]; intros a; cbn; auto. Qed.

Lemma drop_load_lanes (k n : nat) (m : Memory) (a : Z) :
  drop k (load_lanes (k + n) m a) = load_lanes n m (a + 4 * Z.of_nat k).
Proof.
  revert a. induction k as [|k IH]; intros a.
  - replace (a + 4 * Z.of_nat 0) with a by lia. reflexivity.
  - cbn [Nat.add load_lanes drop]. rewrite IH. f_equal. lia.
Qed.

Lemma take_load_lanes (k n : nat) (m : Memory) (a : Z) :
  take k (load_lanes (k + n) m a) = load_lanes k m a.
Proof.
  revert a. induction k as [|k IH]; intros a; [reflexivity|].
  cbn [Nat.add load_lanes take]. rewrite IH. reflexivity.
Qed.

(** Block [i] of a vector of [8 * b] floats in memory. *)
Lemma load_lanes_block (b i : nat) (m : Memory) (a : Z) :
  (i < b)%nat ->
  take 8 (drop (8 * i) (load_lanes (8 * b) m a))
  = load_lanes 8 m (a + 32 * Z.of_nat i).
Proof.
  intros Hi. replace (8 * b)%nat with (8 * i + (8 + 8 * (b - i - 1)))%nat by lia.
  rewrite drop_load_lanes, take_load_lanes. f_equal. lia.
Qed.

Lemma store_lanes_outside (v : list Z) :
  forall (m : Memory) (a x : Z),
    x < a \/ a + 4 * Z.of_nat (length v) <= x ->
    store_lanes m a v x = m x.
Proof.
  induction v as [|y v IH]; intros m a x Hx; [reflexivity|].
  cbn [store_lanes length] in *. rewrite IH by lia.
  apply store_outside. cbn. lia.
Qed.

Lemma store_lanes_app (xs ys : list Z) :
  forall (m : Memory) (a : Z),
    store_lanes m a (xs ++ ys)
    = store_lanes (store_lanes m a xs) (a + 4 * Z.of_nat (length xs)) ys.
Proof.
  induction xs as [|x xs IH]; intros m a.
  - cbn [app store_lanes length]. replace (a + 4 * Z.of_nat 0) with a by lia.
    reflexivity.
  - cbn [app store_lanes length]. rewrite IH. f_equal. lia.
Qed.

Lemma load_store_lanes (v : list Z) :
  forall (m : Memory) (a : Z),
    Forall (fun x => 0 <= x < 2 ^ 32) v ->
    load_lanes (length v) (store_lanes m a v) a = v.
Proof.
  induction v as [|y v IH]; intros m a Hv; [reflexivity|].
  apply Forall_cons in Hv as [Hy Hv].
  cbn [length load_lanes store_lanes]. f_equal.
  - rewrite (load_ext 4 _ (store 4 m a y)).
    + apply load_store_same. exact Hy.
    + intros x Hx. cbn in Hx. apply store_lanes_outside. lia.
  - apply IH, Hv.
Qed.

Lemma exec_store_block (k : nat) :
  forall (i0 : nat) (st : Machine),
    (forall i, (i0 <= i < i0 + k)%nat ->
       wrap64 (reg st rbx + Z.of_nat i * DragnnLookupUnrolled.kBlockSize
                            * sizeof_float) mod 32 = 0) ->
    exists st',
      exec_list
        (map (fun i : nat =>
                vmovaps
                  (OperandD rbx (Z.of_nat i * DragnnLookupUnrolled.kBlockSize
                                 * sizeof_float)) i)
             (seq i0 k)) st
      = Some st' /\
      pc st' = (pc st + k)%nat /\
      mem st' = store_sums (simd st) (reg st rbx) i0 k (mem st).
Proof.
  induction k as [|k IH]; intros i0 st Halign.
  - exists st. cbn. repeat split. lia.
  - cbn [seq map exec_list exec address].
    rewrite (proj2 (Z.eqb_eq _ 0) (Halign i0 ltac:(lia))).
    destruct (IH (S i0)
                (next (with_mem
                         (store_lanes (mem st)
                            (wrap64 (reg st rbx
                                     + Z.of_nat i0
                                       * DragnnLookupUnrolled.kBlockSize
                                       * sizeof_float))
                            (lanes st i0)) st)))
      as (st' & Hrun & Hpc & Hmem).
    { intros i Hi. apply Halign. lia. }
    exists st'. split; [exact Hrun|].
    cbn [pc mem simd next with_mem] in *. split; [lia|].
    rewrite Hmem. reflexivity.
Qed.

(** ** The loop of the unrolled lookup *)

Ltac exec_block :=
  cbv [exec_list exec next goto with_reg with_flags with_lanes with_mem jump
       value64 address reg lanes
       pc regs flags simd mem holds flags_of ZF SF scale_of code_of instance
       Nat.eqb nth insert list_insert negb].

Ltac segment_pc :=
  rewrite unrolled_segment_start; cbn [nth pc next goto]; lia.

(** Runs segment [s], a block of sequential instructions. *)
Ltac run_segment s :=
  eapply reaches_trans;
  [ eapply (reaches_block _ s);
    [ reflexivity | reflexivity | segment_pc | exec_block; reflexivity ]
  | ].

Lemma vaddps_block (b : nat) (st : Machine) :
  (b <= length (simd st))%nat ->
  exists st',
    exec_list (unrolled_add b) st = Some st' /\
    pc st' = (pc st + b)%nat /\ regs st' = regs st /\
    flags st' = flags st /\ mem st' = mem st /\
    length (simd st') = length (simd st) /\
    (forall i, (i < b)%nat ->
       simd st' !! i
       = Some (zip_with Binary32.add (lanes st i)
                 (load_lanes 8 (mem st)
                    (wrap64 (reg st rax + 32 * Z.of_nat i))))).
Proof.
  intros Hlen.
  destruct (exec_lane_block
              (fun i : nat =>
                 vaddps i i
                   (OperandD rax (Z.of_nat i * DragnnLookupUnrolled.kBlockSize
                                  * sizeof_float)))
              (fun st i =>
                 zip_with Binary32.add (lanes st i)
                   (load_lanes 8 (mem st)
                      (wrap64 (reg st rax + 32 * Z.of_nat i))))) with
    (k := b) (i0 := 0%nat) (st := st)
    as (st' & Hrun & Hpc & Hregs & Hfl & Hmem & Hlen' & Hin & _).
  - intros i st0. cbn [exec address].
    change DragnnLookupUnrolled.kBlockSize with 8.
    change sizeof_float with 4.
    replace (Z.of_nat i * 8 * 4) with (32 * Z.of_nat i) by lia. reflexivity.
  - intros i j w st0 Hne. rewrite lanes_with_lanes_ne by exact Hne.
    reflexivity.
  - lia.
  - exists st'. repeat split; try assumption. intros i Hi. apply Hin. lia.
Qed.

Lemma vxorps_block (b : nat) (st : Machine) :
  (b <= length (simd st))%nat ->
  exists st',
    exec_list (unrolled_clear b) st = Some st' /\
    pc st' = (pc st + b)%nat /\ regs st' = regs st /\
    flags st' = flags st /\ mem st' = mem st /\
    length (simd st') = length (simd st) /\
    (forall i, (i < b)%nat ->
       simd st' !! i = Some (zip_with Z.lxor (lanes st i) (lanes st i))).
Proof.
  intros Hlen.
  destruct (exec_lane_block
              (fun i : nat => vxorps i i i)
              (fun st i => zip_with Z.lxor (lanes st i) (lanes st i))) with
    (k := b) (i0 := 0%nat) (st := st)
    as (st' & Hrun & Hpc & Hregs & Hfl & Hmem & Hlen' & Hin & _).
  - reflexivity.
  - intros i j w st0 Hne. rewrite lanes_with_lanes_ne by exact Hne.
    reflexivity.
  - lia.
  - exists st'. repeat split; try assumption. intros i Hi. apply Hin. lia.
Qed.

Lemma sums_held_add (sd sd' : list (list Z)) (acc : list Z) (b : nat)
    (m : Memory) (row : Z) :
  sums_held sd acc b ->
  length sd' = length sd ->
  (forall i, (i < b)%nat ->
     sd' !! i = Some (zip_with Binary32.add (nth i sd [])
                        (load_lanes 8 m (row + 32 * Z.of_nat i)))) ->
  sums_held sd' (add_row acc (load_lanes (8 * b) m row)) b.
Proof.
  intros [Hlen Hsd] Hlen' Hsd'. split; [congruence|].
  intros i Hi. rewrite (Hsd' i Hi). f_equal.
  unfold add_row. rewrite zip_with_drop, zip_with_take.
  rewrite (load_lanes_block b i m row Hi).
  rewrite (nth_lookup_Some _ _ _ _ (Hsd i Hi)). reflexivity.
Qed.

Section UnrolledLoop.
Variables (f M v : Tensor) (b : nat).
Variables (data inp base out : Z).
Variables (sp x8 x9 x10 x11 x12 x13 x14 x15 : Z).
Variable ids : Z -> Z.
Variable m : Memory.
Let n := dim f 1.
Let ms := stride M 0.
Let oov := dim M 0 - 1.
Let row_of (r : Z) := load_lanes (8 * b) m (base + r * ms).
Hypothesis Hn : 1 <= n < 2 ^ 31.
Hypothesis Hinp : 0 <= inp /\ inp + 4 * n < 2 ^ 64.
Hypothesis Hids :
  forall i, 0 <= i < n ->
    holds_int32 m (inp + 4 * i) (ids i) /\
    (0 <= ids i ->
     0 <= base + ids i * ms /\
     base + ids i * ms + 32 * Z.of_nat b < 2 ^ 64) /\
    (ids i = -1 ->
     0 <= base + oov * ms /\
     base + oov * ms + 32 * Z.of_nat b < 2 ^ 64).

Let prog := unrolled_code f M v b.

(** The sum after one more feature. *)
Let feature_added (id : Z) (acc : list Z) : list Z :=
  match resolve (dim M 0) id with
  | Some r => add_row acc (row_of r)
  | None => acc
  end.

(** From the address of a row in [rax] to the label after the additions. *)
Lemma unrolled_add_row (row i : Z) (fl : option Flags) (sd : list (list Z))
    (acc : list Z) :
  0 <= row /\ row + 32 * Z.of_nat b < 2 ^ 64 ->
  (b <= 16)%nat ->
  sums_held sd acc b ->
  exists fl' sd',
    reaches prog
      (mkMachine (15 + b) [row; inp; base; out; sp; data; i; wrap64 oov;
                           x8; x9; x10; x11; x12; x13; x14; x15] fl sd m)
      (mkMachine (15 + 2 * b)
                 [row; inp; base; out; sp; data; i; wrap64 oov;
                  x8; x9; x10; x11; x12; x13; x14; x15] fl' sd' m) /\
    sums_held sd' (add_row acc (load_lanes (8 * b) m row)) b.
Proof.
  intros Hrow Hb Hheld.
  set (st := mkMachine (15 + b) [row; inp; base; out; sp; data; i; wrap64 oov;
                                 x8; x9; x10; x11; x12; x13; x14; x15] fl sd m).
  destruct (vaddps_block b st)
    as (st' & Hrun & Hpc & Hregs & Hfl & Hmem & Hlen & Hin).
  { destruct Hheld as [Hlen _]. cbn [simd st]. lia. }
  destruct st' as [p' r' fl' sd' m']. cbn [pc regs flags mem simd st] in *.
  subst p' r' m'. exists fl', sd'. split.
  - replace (15 + 2 * b)%nat with (15 + b + b)%nat by lia.
    apply (reaches_block (unrolled_segments f M v b) 9 (unrolled_add b)).
    + reflexivity.
    + apply unrolled_blocks_sequential.
    + rewrite unrolled_segment_start. reflexivity.
    + exact Hrun.
  - apply (sums_held_add sd sd' acc b m row Hheld Hlen).
    intros j Hj. rewrite (Hin j Hj). unfold lanes, reg, st.
    cbn [simd regs nth code_of].
    rewrite wrap64_small by (pow2; lia). reflexivity.
Qed.

(** From the head of the loop to the label after the additions: one feature
    is resolved and its row, if any, added to the sum. *)
Lemma unrolled_feature_steps (i a id : Z) (fl : option Flags)
    (sd : list (list Z)) (acc : list Z) :
  0 <= i < n ->
  (b <= 16)%nat ->
  holds_int32 m (inp + 4 * i) id ->
  (0 <= id ->
   0 <= base + id * ms /\ base + id * ms + 32 * Z.of_nat b < 2 ^ 64) ->
  (id = -1 ->
   0 <= base + oov * ms /\ base + oov * ms + 32 * Z.of_nat b < 2 ^ 64) ->
  sums_held sd acc b ->
  exists a' fl' sd',
    reaches prog
      (mkMachine (5 + b) [a; inp; base; out; sp; data; i; wrap64 oov;
                          x8; x9; x10; x11; x12; x13; x14; x15] fl sd m)
      (mkMachine (15 + 2 * b)
                 [a'; inp; base; out; sp; data; i; wrap64 oov;
                  x8; x9; x10; x11; x12; x13; x14; x15] fl' sd' m) /\
    sums_held sd' (feature_added id acc) b.
Proof.
  intros Hi Hb [Hrange Hload] Hrow Hoovrow Hheld.
  destruct (unrolled_labels f M v b) as (Hl1 & Hl2 & Hl3).
  unfold prog, unrolled_code in *. unfold feature_added, resolve.
  destruct (Z.ltb_spec id 0) as [Hneg|Hpos];
    [destruct (Z.eqb_spec id (-1)) as [Hm1|Hother]|].
  - (* id = -1: the OOV row *)
    destruct (unrolled_add_row (base + oov * ms) i
                (flags_of (base + oov * ms)) sd acc
                (Hoovrow Hm1) Hb Hheld)
      as (fl' & sd' & Hadd & Hheld').
    exists (base + oov * ms), fl', sd'. split; [|exact Hheld'].
    specialize (Hoovrow Hm1).
    run_segment 3%nat.
    rewrite (wrap64_small (inp + i * 4)) by (pow2; lia).
    replace (inp + i * 4) with (inp + 4 * i) by lia.
    rewrite Hload, (signed_int32 id) by (pow2; lia).
    rewrite Z.land_diag, sign_of_wrap64 by (pow2; lia).
    replace (id <? 0) with true by (symmetry; apply Z.ltb_lt; lia).
    eapply reaches_trans.
    { eapply (reaches_branch_not_taken _ 4%nat);
        [reflexivity | segment_pc | reflexivity | reflexivity]. }
    cbv [next pc regs flags simd mem].
    run_segment 5%nat.
    rewrite cmp_wrap64 by (pow2; lia).
    replace (id =? -1) with true by (symmetry; apply Z.eqb_eq; lia).
    eapply reaches_trans.
    { eapply (reaches_branch_not_taken _ 6%nat);
        [reflexivity | segment_pc | reflexivity | reflexivity]. }
    cbv [next pc regs flags simd mem].
    run_segment 7%nat. run_segment 8%nat.
    fold ms.
    rewrite row_address_wrap, (wrap64_small (base + oov * ms))
      by (pow2; lia).
    unfold prog, unrolled_code in Hadd.
    replace (S (S (S (S (S (S (S (S (S (S (5 + b)))))))))))
      with (15 + b)%nat by lia.
    exact Hadd.
  - (* another negative id: skipped *)
    replace (id <? -1) with true by (symmetry; apply Z.ltb_lt; lia).
    do 2 eexists. exists sd. split; [|exact Hheld].
    run_segment 3%nat.
    rewrite (wrap64_small (inp + i * 4)) by (pow2; lia).
    replace (inp + i * 4) with (inp + 4 * i) by lia.
    rewrite Hload, (signed_int32 id) by (pow2; lia).
    rewrite Z.land_diag, sign_of_wrap64 by (pow2; lia).
    replace (id <? 0) with true by (symmetry; apply Z.ltb_lt; lia).
    eapply reaches_trans.
    { eapply (reaches_branch_not_taken _ 4%nat);
        [reflexivity | segment_pc | reflexivity | reflexivity]. }
    cbv [next pc regs flags simd mem].
    run_segment 5%nat.
    rewrite cmp_wrap64 by (pow2; lia).
    replace (id =? -1) with false by (symmetry; apply Z.eqb_neq; lia).
    eapply reaches_trans.
    { eapply (reaches_branch_taken _ 6%nat);
        [reflexivity | segment_pc | reflexivity | reflexivity | exact Hl3]. }
    cbv [goto pc regs flags simd mem]. apply reaches_refl.
  - (* a row index *)
    replace (id =? -1) with false by (symmetry; apply Z.eqb_neq; lia).
    replace (id <? -1) with false by (symmetry; apply Z.ltb_ge; lia).
    destruct (unrolled_add_row (base + id * ms) i
                (flags_of (base + id * ms)) sd acc
                (Hrow Hpos) Hb Hheld)
      as (fl' & sd' & Hadd & Hheld').
    exists (base + id * ms), fl', sd'. split; [|exact Hheld'].
    specialize (Hrow Hpos).
    run_segment 3%nat.
    rewrite (wrap64_small (inp + i * 4)) by (pow2; lia).
    replace (inp + i * 4) with (inp + 4 * i) by lia.
    rewrite Hload, (signed_int32 id) by (pow2; lia).
    rewrite Z.land_diag, sign_of_wrap64 by (pow2; lia).
    replace (id <? 0) with false by (symmetry; apply Z.ltb_ge; lia).
    eapply reaches_trans.
    { eapply (reaches_branch_taken _ 4%nat);
        [reflexivity | segment_pc | reflexivity | reflexivity | exact Hl2]. }
    cbv [goto pc regs flags simd mem].
    run_segment 8%nat.
    fold ms.
    rewrite row_address_wrap, (wrap64_small (base + id * ms))
      by (pow2; lia).
    unfold prog, unrolled_code in Hadd.
    replace (S (S (S (12 + b)))) with (15 + b)%nat by lia.
    exact Hadd.
Qed.

Lemma unrolled_tail (i a : Z) (fl : option Flags) (sd : list (list Z)) :
  0 <= i < n ->
  exists fl',
    reaches prog
      (mkMachine (15 + 2 * b) [a; inp; base; out; sp; data; i; wrap64 oov;
                               x8; x9; x10; x11; x12; x13; x14; x15] fl sd m)
      (mkMachine (if i + 1 =? n then 19 + 2 * b else 5 + b)
                 [a; inp; base; out; sp; data; i + 1; wrap64 oov;
                  x8; x9; x10; x11; x12; x13; x14; x15] fl' sd m).
Proof.
  intros Hi. destruct (unrolled_labels f M v b) as (Hl1 & Hl2 & Hl3).
  unfold prog, unrolled_code in *.
  destruct (i + 1 =? n) eqn:Hlast.
  - eexists. run_segment 10%nat. fold n.
    rewrite (wrap64_small (i + 1)) by (pow2; lia).
    rewrite cmp_wrap64_small, Hlast by (pow2; lia).
    eapply reaches_trans.
    { eapply (reaches_branch_not_taken _ 11%nat);
        [reflexivity | segment_pc | reflexivity | reflexivity]. }
    cbv [next pc regs flags simd mem].
    replace (S (S (S (S (15 + 2 * b))))) with (19 + 2 * b)%nat by lia.
    apply reaches_refl.
  - eexists. run_segment 10%nat. fold n.
    rewrite (wrap64_small (i + 1)) by (pow2; lia).
    rewrite cmp_wrap64_small, Hlast by (pow2; lia).
    eapply reaches_trans.
    { eapply (reaches_branch_taken _ 11%nat);
        [reflexivity | segment_pc | reflexivity | reflexivity | exact Hl1]. }
    cbv [goto pc regs flags simd mem]. apply reaches_refl.
Qed.

Lemma unrolled_loop (Hb : (b <= 16)%nat) (k : nat) :
  forall (i a : Z) (fl : option Flags) (sd : list (list Z)) (acc : list Z),
    0 <= i -> i + Z.of_nat (S k) = n ->
    sums_held sd acc b ->
    exists a' fl' sd',
      reaches prog
        (mkMachine (5 + b) [a; inp; base; out; sp; data; i; wrap64 oov;
                            x8; x9; x10; x11; x12; x13; x14; x15] fl sd m)
        (mkMachine (19 + 2 * b)
                   [a'; inp; base; out; sp; data; n; wrap64 oov;
                    x8; x9; x10; x11; x12; x13; x14; x15] fl' sd' m) /\
      sums_held sd'
        (lookup_accumulate (dim M 0) row_of (feature_list ids i (S k)) acc) b.
Proof.
  induction k as [|k IH]; intros i a fl sd acc Hi Hik Hheld.
  - destruct (Hids i) as (Hid & Hrow & Hoovrow); [lia|].
    destruct (unrolled_feature_steps i a (ids i) fl sd acc)
      as (a' & fl' & sd' & Hfeature & Hheld'); try assumption; [lia|].
    destruct (unrolled_tail i a' fl' sd') as (fl'' & Htail); [lia|].
    replace (i + 1 =? n) with true in Htail by (symmetry; apply Z.eqb_eq; lia).
    replace (i + 1) with n in Htail by lia.
    exists a', fl'', sd'. split; [|exact Hheld'].
    eapply reaches_trans; [exact Hfeature | exact Htail].
  - destruct (Hids i) as (Hid & Hrow & Hoovrow); [lia|].
    destruct (unrolled_feature_steps i a (ids i) fl sd acc)
      as (a' & fl' & sd' & Hfeature & Hheld'); try assumption; [lia|].
    destruct (unrolled_tail i a' fl' sd') as (fl'' & Htail); [lia|].
    replace (i + 1 =? n) with false in Htail
      by (symmetry; apply Z.eqb_neq; lia).
    destruct (IH (i + 1) a' fl'' sd' (feature_added (ids i) acc))
      as (a'' & fl3 & sd'' & Hrest & Hheld''); [lia | lia | exact Hheld' |].
    exists a'', fl3, sd''. split.
    + eapply reaches_trans; [exact Hfeature|].
      eapply reaches_trans; [exact Htail | exact Hrest].
    + exact Hheld''.
Qed.
End UnrolledLoop.

(** ** The sum in memory *)

Lemma store_sums_flat (sd : list (list Z)) (acc : list Z) (b : nat) (out : Z) :
  sums_held sd acc b ->
  length acc = (8 * b)%nat ->
  0 <= out /\ out + 32 * Z.of_nat b < 2 ^ 64 ->
  forall (k i0 : nat) (m : Memory),
    (i0 + k = b)%nat ->
    store_sums sd out i0 k m
    = store_lanes m (out + 32 * Z.of_nat i0) (drop (8 * i0) acc).
Proof.
  intros [_ Hsd] Hlen Hout. induction k as [|k IH]; intros i0 m Hik.
  - cbn [store_sums]. rewrite drop_ge by lia. reflexivity.
  - cbn [store_sums]. rewrite IH by lia.
    rewrite (nth_lookup_Some _ _ _ _ (Hsd i0 ltac:(lia))).
    change DragnnLookupUnrolled.kBlockSize with 8. change sizeof_float with 4.
    rewrite wrap64_small by (pow2; lia).
    replace (out + Z.of_nat i0 * 8 * 4) with (out + 32 * Z.of_nat i0) by lia.
    rewrite <- (take_drop 8 (drop (8 * i0) acc)) at 2.
    rewrite store_lanes_app, length_take, length_drop, drop_drop.
    replace (8 * i0 + 8)%nat with (8 * S i0)%nat by lia.
    f_equal. lia.
Qed.

Lemma add_row_in_range (acc row : list Z) :
  Forall (fun x => 0 <= x < 2 ^ 32) (add_row acc row).
Proof.
  unfold add_row. revert row. induction acc as [|x acc IH]; intros [|y row];
    cbn [zip_with]; constructor; [apply Binary32_add_range | apply IH].
Qed.

Lemma lookup_accumulate_in_range (rows : Z) (row : Z -> list Z)
    (ids : list Z) :
  forall init,
    Forall (fun x => 0 <= x < 2 ^ 32) init ->
    Forall (fun x => 0 <= x < 2 ^ 32) (lookup_accumulate rows row ids init).
Proof.
  unfold lookup_accumulate. induction ids as [|id ids IH]; intros init Hinit.
  - exact Hinit.
  - cbn [fold_left]. apply IH. destruct (resolve rows id).
    + apply add_row_in_range.
    + exact Hinit.
Qed.

Lemma lookup_accumulate_length (rows : Z) (row : Z -> list Z) (dims : nat)
    (ids : list Z) :
  (forall r, length (row r) = dims) ->
  forall init,
    length init = dims ->
    length (lookup_accumulate rows row ids init) = dims.
Proof.
  intros Hrow. unfold lookup_accumulate.
  induction ids as [|id ids IH]; intros init Hinit.
  - exact Hinit.
  - cbn [fold_left]. apply IH. destruct (resolve rows id).
    + unfold add_row. rewrite length_zip_with, Hinit, Hrow. lia.
    + exact Hinit.
Qed.

Lemma sums_held_cleared (sd : list (list Z)) (b : nat) :
  length sd = 16%nat ->
  (forall i, (i < b)%nat -> sd !! i = Some (replicate 8 0)) ->
  sums_held sd (replicate (8 * b) 0) b.
Proof.
  intros Hlen Hsd. split; [exact Hlen|]. intros i Hi.
  rewrite (Hsd i Hi), drop_replicate, take_replicate. do 2 f_equal. lia.
Qed.

Lemma lxor_lanes_cleared (l : list Z) :
  zip_with Z.lxor l l = replicate (length l) 0.
Proof.
  induction l as [|x l IH]; [reflexivity|].
  cbn [zip_with length replicate]. rewrite Z.lxor_nilpotent, IH. reflexivity.
Qed.

(** The emitted code, entered with anything in the registers, runs to its
    end and stores the sum of the resolved rows. *)
Lemma DragnnLookupUnrolled_runs (step : Step) (data : Z) (m : Memory)
    (ids : Z -> Z) (st0 : Machine) :
  let f := input step 0 in
  let M := input step 1 in
  let v := output step 0 in
  let n := dim f 1 in
  let b := Z.to_nat (Z.quot (dim v 1) 8) in
  let ms := stride M 0 in
  let oov := dim M 0 - 1 in
  let inp := tensor_address data m f in
  let base := tensor_address data m M in
  let out := tensor_address data m v in
  let row_of (r : Z) := load_lanes (8 * b) m (base + r * ms) in
  entered data m st0 ->
  (b <= 16)%nat ->
  1 <= n < 2 ^ 31 ->
  0 <= out /\ out + 32 * Z.of_nat b < 2 ^ 64 ->
  out mod 32 = 0 ->
  0 <= inp /\ inp + 4 * n < 2 ^ 64 ->
  (forall i, 0 <= i < n ->
     holds_int32 m (inp + 4 * i) (ids i) /\
     (0 <= ids i ->
      0 <= base + ids i * ms /\
      base + ids i * ms + 32 * Z.of_nat b < 2 ^ 64) /\
     (ids i = -1 ->
      0 <= base + oov * ms /\
      base + oov * ms + 32 * Z.of_nat b < 2 ^ 64)) ->
  exists code fuel st',
    emitted DragnnLookupUnrolled.Generate step = Ok code /\
    run fuel code st0 = Halted st' /\
    mem st'
    = store_lanes m out
        (lookup_accumulate (dim M 0) row_of (feature_list ids 0 (Z.to_nat n))
           (replicate (8 * b) 0)).
Proof.
  intros f M v n b ms oov inp base out row_of
         Hent Hb Hn Hout Halign Hinp Hids.
  pose proof (DragnnLookupUnrolled_emitted step) as Hemit.
  cbv zeta in Hemit. fold v b f M in Hemit.
  replace (b <=? 16)%nat with true in Hemit
    by (symmetry; apply Nat.leb_le; exact Hb).
  set (acc := lookup_accumulate (dim M 0) row_of
                (feature_list ids 0 (Z.to_nat n)) (replicate (8 * b) 0)).
  entered_state Hent st0.
  (* the addresses are loaded and the sum is cleared *)
  set (st1 := mkMachine 3 [q0; inp; base; out; q4; data; q6; q7;
                           q8; q9; q10; q11; q12; q13; q14; q15] fl0 sd0 m).
  destruct (vxorps_block b st1)
    as (st2 & Hclear & Hpc2 & Hregs2 & Hfl2 & Hmem2 & Hlen2 & Hin2).
  { cbn [simd st1]. rewrite Hsd0. exact Hb. }
  destruct st2 as [p2 r2 fl2 sd2 m2]. cbn [pc regs flags mem simd st1] in *.
  subst p2 r2 fl2 m2.
  assert (Hheld2 : sums_held sd2 (replicate (8 * b) 0) b).
  { apply sums_held_cleared; [rewrite Hlen2; exact Hsd0|].
    intros i Hi. rewrite (Hin2 i Hi). unfold lanes. cbn [simd].
    rewrite lxor_lanes_cleared. do 2 f_equal.
    destruct (nth_lookup_or_length sd0 i []) as [Hlook|Hlong]; [|lia].
    exact (Forall_lookup_1 _ _ _ _ Hlanes0 Hlook). }
  (* the loop *)
  destruct (unrolled_loop f M v b data inp base out q4 q8 q9 q10 q11 q12 q13
              q14 q15 ids m
              Hn Hinp Hids Hb (Z.to_nat (n - 1)) 0 q0 (flags_of 0) sd2
              (replicate (8 * b) 0))
    as (a3 & fl3 & sd3 & Hloop & Hheld3); [lia | fold n; lia | exact Hheld2 |].
  replace (S (Z.to_nat (n - 1))) with (Z.to_nat n) in Hheld3 by lia.
  fold row_of acc in Hheld3.
  (* the sum is stored *)
  set (st3 := mkMachine (19 + 2 * b)
                [a3; inp; base; out; q4; data; dim f 1; wrap64 (dim M 0 - 1);
                 q8; q9; q10; q11; q12; q13; q14; q15] fl3 sd3 m) in *.
  destruct (exec_store_block b 0 st3) as (st4 & Hstore & Hpc4 & Hmem4).
  { intros i Hi. unfold reg, st3. cbn [regs nth code_of].
    change DragnnLookupUnrolled.kBlockSize with 8. change sizeof_float with 4.
    rewrite wrap64_small by (pow2; lia).
    replace (out + Z.of_nat i * 8 * 4) with (out + Z.of_nat i * 32) by lia.
    rewrite Z.mod_add by lia. exact Halign. }
  assert (Hacc : length acc = (8 * b)%nat).
  { apply lookup_accumulate_length; [|apply length_replicate].
    intros r. apply length_load_lanes. }
  exists (unrolled_code f M v b).
  assert (Hreach : reaches (unrolled_code f M v b)
                     (mkMachine 0 [q0; q1; q2; q3; q4; data; q6; q7;
                                   q8; q9; q10; q11; q12; q13; q14; q15]
                                fl0 sd0 m) st4).
  { unfold unrolled_code.
    run_segment 0%nat. fold inp base out.
    eapply reaches_trans.
    { apply (reaches_block _ 1%nat (unrolled_clear b));
        [reflexivity | apply unrolled_blocks_sequential | reflexivity
        | exact Hclear]. }
    run_segment 2%nat. rewrite Z.lxor_nilpotent.
    eapply reaches_trans.
    { replace (S (S (3 + b))) with (5 + b)%nat by lia. exact Hloop. }
    apply (reaches_block _ 12%nat (unrolled_store b));
      [reflexivity | apply unrolled_blocks_sequential
      | rewrite unrolled_segment_start; reflexivity | exact Hstore]. }
  destruct (reaches_halts _ _ _ Hreach) as [fuel Hrun].
  { apply nth_error_None. rewrite unrolled_code_length, Hpc4.
    cbn [pc st3]. lia. }
  exists fuel, st4. split; [exact Hemit|]. split; [exact Hrun|].
  rewrite Hmem4. unfold reg, st3. cbn [regs simd mem nth code_of].
  rewrite (store_sums_flat sd3 acc b out Hheld3 Hacc Hout b 0 m) by lia.
  replace (out + 32 * Z.of_nat 0) with out by lia. reflexivity.
Qed.

(** ** The unrolled lookup on every input *)

Lemma DragnnLookupUnrolled_Supports_inv (cpu : CPU) (step : Step) :
  DragnnLookupUnrolled.Supports cpu step = true ->
  Enabled cpu AVX = true /\
  DragnnLookup.Supports step = true /\
  dim (output step 0) 1 = dim (input step 1) 1 /\
  dim (input step 1) 1 <= 128 /\
  Z.rem (dim (input step 1) 1) 8 = 0.
Proof.
  rewrite DragnnLookup_Supports_iff.
  unfold DragnnLookupUnrolled.Supports.
  change DragnnLookupUnrolled.kBlockSize with 8.
  change DragnnLookupUnrolled.kMaxEmbeddingDim with 128.
  split_supports; try discriminate. intros _.
  intuition (congruence || lia).
Qed.

(** The number of blocks of a supported step. *)
Lemma unrolled_blocks (cpu : CPU) (step : Step) :
  DragnnLookupUnrolled.Supports cpu step = true ->
  0 <= dim (output step 0) 1 ->
  let b := Z.to_nat (Z.quot (dim (output step 0) 1) 8) in
  (b <= 16)%nat /\
  Z.to_nat (dim (output step 0) 1) = (8 * b)%nat /\
  4 * dim (output step 0) 1 = 32 * Z.of_nat b.
Proof.
  intros Hsup Hdims b.
  apply DragnnLookupUnrolled_Supports_inv in Hsup
    as (_ & _ & Heq & Hmax & Hrem).
  rewrite <- Heq in Hmax, Hrem.
  pose proof (Z.quot_rem' (dim (output step 0) 1) 8) as Hq.
  rewrite Hrem in Hq.
  assert (0 <= Z.quot (dim (output step 0) 1) 8) by (apply Z.quot_pos; lia).
  unfold b. lia.
Qed.

(** The result of the unrolled lookup, for [b] blocks. *)
Lemma DragnnLookupUnrolled_result (step : Step) (data : Z) (m : Memory)
    (ids : Z -> Z) (st0 : Machine) :
  let f := input step 0 in
  let M := input step 1 in
  let v := output step 0 in
  let n := dim f 1 in
  let b := Z.to_nat (Z.quot (dim v 1) 8) in
  let ms := stride M 0 in
  let oov := dim M 0 - 1 in
  let inp := tensor_address data m f in
  let base := tensor_address data m M in
  let out := tensor_address data m v in
  let row_of (r : Z) := load_lanes (8 * b) m (base + r * ms) in
  entered data m st0 ->
  (b <= 16)%nat ->
  1 <= n < 2 ^ 31 ->
  0 <= out /\ out + 32 * Z.of_nat b < 2 ^ 64 ->
  out mod 32 = 0 ->
  0 <= inp /\ inp + 4 * n < 2 ^ 64 ->
  (forall i, 0 <= i < n ->
     holds_int32 m (inp + 4 * i) (ids i) /\
     (0 <= ids i ->
      0 <= base + ids i * ms /\
      base + ids i * ms + 32 * Z.of_nat b < 2 ^ 64) /\
     (ids i = -1 ->
      0 <= base + oov * ms /\
      base + oov * ms + 32 * Z.of_nat b < 2 ^ 64)) ->
  exists code fuel st',
    emitted DragnnLookupUnrolled.Generate step = Ok code /\
    run fuel code st0 = Halted st' /\
    load_lanes (8 * b) (mem st') out
    = lookup_accumulate (dim M 0) row_of (feature_list ids 0 (Z.to_nat n))
        (replicate (8 * b) 0) /\
    (forall x, x < out \/ out + 32 * Z.of_nat b <= x -> mem st' x = m x).
Proof.
  intros f M v n b ms oov inp base out row_of
         Hent Hb Hn Hout Halign Hinp Hids.
  destruct (DragnnLookupUnrolled_runs step data m ids st0 Hent Hb Hn Hout
              Halign Hinp Hids) as (code & fuel & st' & Hcode & Hrun & Hmem).
  fold f M v n b ms oov inp base out row_of in Hmem.
  set (acc := lookup_accumulate (dim M 0) row_of
                (feature_list ids 0 (Z.to_nat n)) (replicate (8 * b) 0)) in *.
  assert (Hacc : length acc = (8 * b)%nat).
  { apply lookup_accumulate_length; [|apply length_replicate].
    intros r. apply length_load_lanes. }
  exists code, fuel, st'. split; [exact Hcode|]. split; [exact Hrun|].
  rewrite Hmem. split.
  - rewrite <- Hacc. apply load_store_lanes.
    apply lookup_accumulate_in_range.
    apply Forall_forall. intros x Hx. apply elem_of_replicate in Hx as [-> _].
    pow2. lia.
  - intros x Hx. apply store_lanes_outside. rewrite Hacc. lia.
Qed.

(** X3.  For every step the unrolled kernel supports, with at least one
    feature (and fewer than 2^31), an embedding dimension that is not
    negative, the output aligned to 32 bytes and addresses below 2^64, the
    emitted code, entered with anything in the general and in the vector
    registers, runs to its end and leaves in the output the
    resolved rows added, in the order of the features, to a cleared vector:
    the row of the index for an id >= 0, the last row of the matrix for -1,
    nothing for another negative id.  What the registers and the output held
    before does not matter, and nothing but the output is written. *)
Theorem DragnnLookupUnrolled_sums_rows (cpu : CPU) (step : Step) (data : Z)
    (m : Memory) (ids : Z -> Z) (st0 : Machine) :
  let f := input step 0 in
  let M := input step 1 in
  let v := output step 0 in
  let n := dim f 1 in
  let dims := dim v 1 in
  let ms := stride M 0 in
  let oov := dim M 0 - 1 in
  let inp := tensor_address data m f in
  let base := tensor_address data m M in
  let out := tensor_address data m v in
  let row_of (r : Z) := load_lanes (Z.to_nat dims) m (base + r * ms) in
  DragnnLookupUnrolled.Supports cpu step = true ->
  entered data m st0 ->
  1 <= n < 2 ^ 31 ->
  0 <= dims ->
  0 <= out /\ out + 4 * dims < 2 ^ 64 ->
  out mod 32 = 0 ->
  0 <= inp /\ inp + 4 * n < 2 ^ 64 ->
  (forall i, 0 <= i < n ->
     holds_int32 m (inp + 4 * i) (ids i) /\
     (0 <= ids i ->
      0 <= base + ids i * ms /\ base + ids i * ms + 4 * dims < 2 ^ 64) /\
     (ids i = -1 ->
      0 <= base + oov * ms /\ base + oov * ms + 4 * dims < 2 ^ 64)) ->
  exists code fuel st',
    emitted DragnnLookupUnrolled.Generate step = Ok code /\
    run fuel code st0 = Halted st' /\
    load_lanes (Z.to_nat dims) (mem st') out
    = lookup_accumulate (dim M 0) row_of (feature_list ids 0 (Z.to_nat n))
        (replicate (Z.to_nat dims) 0) /\
    (forall x, x < out \/ out + 4 * dims <= x -> mem st' x = m x).
Proof.
  intros f M v n dims ms oov inp base out row_of
         Hsup Hent Hn Hdims Hout Halign Hinp Hids.
  destruct (unrolled_blocks cpu step Hsup Hdims) as (Hb & Hlanes & Hbytes).
  fold v dims in Hlanes, Hbytes. unfold row_of.
  rewrite Hlanes, Hbytes in *.
  apply (DragnnLookupUnrolled_result step data m ids st0); assumption.
Qed.

(** At [lookup3_step], entered with 1.0 in every lane of the vector
    registers and with 1.0 left in the output: the code ends with row 0 plus
    the OOV row, (2.5, 0, ..., 0, 1.0). *)
Lemma DragnnLookupUnrolled_sums_rows_witness :
  exists code fuel st',
    emitted DragnnLookupUnrolled.Generate lookup3_step = Ok code /\
    run fuel code (dirty_entry lookup8_data lookup3_memory_used)
    = Halted st' /\
    load_lanes 8 (mem st') 1056
    = [0x40200000; 0; 0; 0; 0; 0; 0; 0x3f800000].
Proof.
  destruct (DragnnLookupUnrolled_sums_rows (mkCPU [AVX]) lookup3_step
              lookup8_data lookup3_memory_used lookup3_ids
              (dirty_entry lookup8_data lookup3_memory_used))
    as (code & fuel & st' & Hcode & Hrun & Hout & _).
  - reflexivity.
  - apply entered_dirty_entry.
  - change (1 <= 3 < 2 ^ 31). pow2. lia.
  - change (0 <= 8). lia.
  - change (0 <= 1056 /\ 1056 + 4 * 8 < 2 ^ 64). pow2. lia.
  - reflexivity.
  - change (0 <= 1024 /\ 1024 + 4 * 3 < 2 ^ 64). pow2. lia.
  - intros i Hi. change (0 <= i < 3) in Hi.
    change (holds_int32 lookup3_memory_used (1024 + 4 * i) (lookup3_ids i) /\
            (0 <= lookup3_ids i ->
             0 <= 4096 + lookup3_ids i * 32 /\
             4096 + lookup3_ids i * 32 + 4 * 8 < 2 ^ 64) /\
            (lookup3_ids i = -1 ->
             0 <= 4096 + (2 - 1) * 32 /\
             4096 + (2 - 1) * 32 + 4 * 8 < 2 ^ 64)).
    assert (Hcases : i = 0 \/ i = 1 \/ i = 2) by lia.
    destruct Hcases as [-> | [-> | ->]]; unfold holds_int32;
      change (lookup3_ids 0) with 0; change (lookup3_ids 1) with (-1);
      change (lookup3_ids 2) with (-7); pow2;
      (split; [split; [lia | reflexivity] | split; intros _; lia]).
  - exists code, fuel, st'. split; [exact Hcode|]. split; [exact Hrun|].
    exact Hout.
Defined.
(** ** The accumulating lookups and the sum of the rows *)





(** ** The two accumulating lookups, side by side *)



(** ** What the scalar lookup leaves alone *)

Lemma lookup_features_outside (dims ms base oov out : Z) (ids : Z -> Z)
    (k : nat) :
  0 <= dims ->
  forall (i : Z) (m : Memory) (x : Z),
    x < out \/ out + 4 * dims <= x ->
    lookup_features dims ms base oov out ids k i m x = m x.
Proof.
  intros Hdims. induction k as [|k IH]; intros i m x Hx; [reflexivity|].
  cbn [lookup_features]. rewrite IH by exact Hx.
  apply lookup_feature_outside; assumption.
Qed.

Lemma lookup_features_skipped (dims ms base oov out : Z) (ids : Z -> Z)
    (k : nat) :
  forall (i : Z) (m : Memory),
    (forall j, i <= j < i + Z.of_nat k -> ids j < -1) ->
    lookup_features dims ms base oov out ids k i m = m.
Proof.
  induction k as [|k IH]; intros i m Hskip; [reflexivity|].
  cbn [lookup_features]. rewrite IH by (intros j Hj; apply Hskip; lia).
  unfold lookup_feature. specialize (Hskip i ltac:(lia)).
  replace (ids i <? 0) with true by (symmetry; apply Z.ltb_lt; lia).
  replace (ids i =? -1) with false by (symmetry; apply Z.eqb_neq; lia).
  reflexivity.
Qed.

(** X2.  On a step with at least one feature id and an embedding dimension
    of at least one (fewer than 2^31 of each, addresses below 2^64, the
    output stored apart from the features), the code of the scalar lookup,
    entered with anything in the registers, runs to its end and writes to
    the output vector only; and
    when every feature id is below -1 it writes nothing at all: the memory
    ends as it was, the old content of the output included. *)
Theorem DragnnLookup_writes_output_only (step : Step) (data : Z)
    (m : Memory) (ids : Z -> Z) (st0 : Machine) :
  let f := input step 0 in
  let M := input step 1 in
  let v := output step 0 in
  let n := dim f 1 in
  let dims := dim v 1 in
  let ms := stride M 0 in
  let oov := dim M 0 - 1 in
  let inp := tensor_address data m f in
  let base := tensor_address data m M in
  let out := tensor_address data m v in
  entered data m st0 ->
  1 <= n < 2 ^ 31 ->
  1 <= dims < 2 ^ 31 ->
  0 <= out /\ out + 4 * dims < 2 ^ 64 ->
  0 <= inp /\ inp + 4 * n < 2 ^ 64 ->
  apart out (out + 4 * dims) inp (4 * n) ->
  (forall i, 0 <= i < n ->
     holds_int32 m (inp + 4 * i) (ids i) /\
     (0 <= ids i ->
      0 <= base + ids i * ms /\ base + ids i * ms + 4 * dims <= 2 ^ 64) /\
     (ids i = -1 ->
      0 <= base + oov * ms /\ base + oov * ms + 4 * dims <= 2 ^ 64)) ->
  exists code fuel st',
    emitted DragnnLookup.Generate step = Ok code /\
    run fuel code st0 = Halted st' /\
    (forall x, x < out \/ out + 4 * dims <= x -> mem st' x = m x) /\
    ((forall i, 0 <= i < n -> ids i < -1) -> mem st' = m).
Proof.
  intros f M v n dims ms oov inp base out
         Hent Hn Hdims Hout Hinp Hfeat Hids.
  destruct (DragnnLookup_runs step data m ids st0 Hent Hn Hdims Hout Hinp
              Hfeat Hids)
    as (code & fuel & st' & Hcode & Hrun & Hmem).
  fold f M v n dims ms oov inp base out in Hmem.
  exists code, fuel, st'. split; [exact Hcode|]. split; [exact Hrun|].
  rewrite Hmem. split.
  - intros x Hx. apply lookup_features_outside; [lia | exact Hx].
  - intros Hskip. apply lookup_features_skipped.
    intros j Hj. apply Hskip. lia.
Qed.

Lemma DragnnLookup_writes_output_only_witness :
  exists code fuel st',
    emitted DragnnLookup.Generate lookup8_step = Ok code /\
    run fuel code (dirty_entry lookup8_data lookup8_memory_skipped)
    = Halted st' /\
    mem st' = lookup8_memory_skipped.
Proof.
  destruct (DragnnLookup_writes_output_only lookup8_step lookup8_data
              lookup8_memory_skipped (fun _ => -7)
              (dirty_entry lookup8_data lookup8_memory_skipped))
    as (code & fuel & st' & Hcode & Hrun & _ & Hskip).
  - apply entered_dirty_entry.
  - change (1 <= 1 < 2 ^ 31). pow2. lia.
  - change (1 <= 8 < 2 ^ 31). pow2. lia.
  - change (0 <= 1056 /\ 1056 + 4 * 8 < 2 ^ 64). pow2. lia.
  - change (0 <= 1024 /\ 1024 + 4 * 1 < 2 ^ 64). pow2. lia.
  - change (apart 1056 (1056 + 4 * 8) 1024 (4 * 1)). unfold apart. lia.
  - intros i Hi. change (0 <= i < 1) in Hi. assert (i = 0) as -> by lia.
    change (holds_int32 lookup8_memory_skipped 1024 (-7) /\
            (0 <= -7 -> 0 <= 4096 + -7 * 32 /\
                        4096 + -7 * 32 + 4 * 8 <= 2 ^ 64) /\
            (-7 = -1 -> 0 <= 4096 + (2 - 1) * 32 /\
                        4096 + (2 - 1) * 32 + 4 * 8 <= 2 ^ 64)).
    unfold holds_int32. pow2.
    split; [split; [lia | reflexivity] | split; intros H; lia].
  - exists code, fuel, st'. split; [exact Hcode|]. split; [exact Hrun|].
    apply Hskip. intros i _. lia.
Defined.

(** ** Negative ids in the zero-copy lookup *)

(** X5.  The zero-copy lookup replaces every negative feature id by the index
    of the OOV row, not only -1: the address it stores for an id below -1 is
    the address of the last row of the matrix (where the accumulating lookups
    skip such a feature), whatever the registers hold when the code is
    entered. *)
Theorem DragnnLookupSingle_negative_id_is_oov
    (step : Step) (data : Z) (m : Memory) (id : Z) (st0 : Machine) :
  entered data m st0 ->
  ref_ (input step 0) = false ->
  holds_int32 m (wrap64 (data + offset_ (input step 0))) id ->
  id < 0 ->
  let M := input step 1 in
  let slot := wrap64 (data + offset_ (output step 0)) in
  exists code st',
    emitted DragnnLookupSingle.Generate step = Ok code /\
    run (length code) code st0 = Halted st' /\
    load 8 (mem st') slot
    = wrap64 (tensor_address data m M + (dim M 0 - 1) * stride M 0).
Proof.
  intros Hent Href Hid Hneg M slot.
  destruct (DragnnLookupSingle_run (input step 0) M (output step 0)
              data m id st0 Hent Hid) as (st' & Hsteps & Hpc & Hmem).
  eexists. exists st'. split; [apply DragnnLookupSingle_emitted, Href|].
  split.
  - apply steps_halt; [exact Hsteps|]. rewrite Hpc. reflexivity.
  - rewrite Hmem. fold slot. rewrite load_store_same.
    + replace (id <? 0) with true by (symmetry; apply Z.ltb_lt; exact Hneg).
      reflexivity.
    + change (256 ^ Z.of_nat 8) with (2 ^ 64). apply wrap64_range.
Qed.

Lemma DragnnLookupSingle_negative_id_is_oov_witness :
  exists code st',
    emitted DragnnLookupSingle.Generate lookup8_step = Ok code /\
    run (length code) code (dirty_entry lookup8_data lookup8_memory_skipped)
    = Halted st' /\
    load 8 (mem st') 1056 = 4128.
Proof.
  apply (DragnnLookupSingle_negative_id_is_oov lookup8_step lookup8_data
           lookup8_memory_skipped (-7)
           (dirty_entry lookup8_data lookup8_memory_skipped)).
  - apply entered_dirty_entry.
  - reflexivity.
  - split; [pow2; lia | reflexivity].
  - lia.
Defined.
(** ** What the collect kernel leaves alone *)

Lemma collect_rows_untouched (dims ms base out rs : Z) (ids : Z -> Z)
    (k : nat) :
  0 <= dims ->
  forall (i : Z) (m : Memory) (x : Z),
    (forall j, i <= j < i + Z.of_nat k ->
       x < out + j * rs \/ out + j * rs + (dims + 1) * 4 <= x) ->
    collect_rows dims ms base out rs ids k i m x = m x.
Proof.
  intros Hdims. induction k as [|k IH]; intros i m x Hx; [reflexivity|].
  cbn [collect_rows]. rewrite IH by (intros j Hj; apply Hx; lia).
  apply collect_row_outside; [exact Hdims|]. apply Hx. lia.
Qed.

(** X6.  On a batch of at least one row (and fewer than 2^31, the output
    rows at least [dims] + 1 floats apart, addresses below 2^64, the output
    stored apart from the features and from the rows read), the code of the
    collect kernel, entered with anything in the registers, runs to its end
    and writes to the first [dims] + 1 floats of the output rows only: every
    other byte of the memory, the padding between the rows included, ends as
    it was. *)
Theorem DragnnCollect_writes_rows_only (step : Step) (data : Z) (m : Memory)
    (ids : Z -> Z) (st0 : Machine) :
  let f := input step 0 in
  let M := input step 1 in
  let R := output step 0 in
  let n := dim f 1 in
  let dims := dim M 1 in
  let ms := stride M 0 in
  let rs := stride R 0 in
  let inp := tensor_address data m f in
  let base := tensor_address data m M in
  let out := tensor_address data m R in
  entered data m st0 ->
  1 <= n < 2 ^ 31 ->
  0 <= dims ->
  (dims + 1) * 4 <= rs ->
  0 <= out /\ out + n * rs < 2 ^ 64 ->
  0 <= inp /\ inp + 4 * n < 2 ^ 64 ->
  apart out (out + n * rs) inp (4 * n) ->
  (forall i, 0 <= i < n ->
     holds_int32 m (inp + 4 * i) (ids i) /\
     (0 <= ids i ->
      0 <= base + ids i * ms < 2 ^ 64 /\
      apart out (out + n * rs) (base + ids i * ms) (dims * 4))) ->
  exists code fuel st',
    emitted DragnnCollect.Generate step = Ok code /\
    run fuel code st0 = Halted st' /\
    forall x,
      (forall j, 0 <= j < n ->
         x < out + j * rs \/ out + j * rs + (dims + 1) * 4 <= x) ->
      mem st' x = m x.
Proof.
  intros f M R n dims ms rs inp base out
         Hent Hn Hdims Hrow Hout Hinp Hfeat Hids.
  destruct (DragnnCollect_runs step data m ids st0 Hent Hn Hdims Hrow Hout
              Hinp Hfeat Hids) as (code & fuel & st' & Hcode & Hrun & Hmem).
  fold f M R n dims ms rs inp base out in Hmem.
  exists code, fuel, st'. split; [exact Hcode|]. split; [exact Hrun|].
  intros x Hx. rewrite Hmem. apply collect_rows_untouched; [exact Hdims|].
  intros j Hj. apply Hx. lia.
Qed.

Lemma DragnnCollect_writes_rows_only_witness :
  exists code fuel st',
    emitted DragnnCollect.Generate collect_step = Ok code /\
    run fuel code (dirty_entry collect_data collect_memory0) = Halted st' /\
    mem st' 1024 = collect_memory0 1024.
Proof.
  destruct (DragnnCollect_writes_rows_only collect_step collect_data
              collect_memory0 collect_ids
              (dirty_entry collect_data collect_memory0))
    as (code & fuel & st' & Hcode & Hrun & Hframe).
  - apply entered_dirty_entry.
  - change (1 <= 3 < 2 ^ 31). pow2. lia.
  - change (0 <= 2). lia.
  - change ((2 + 1) * 4 <= 12). lia.
  - change (0 <= 1088 /\ 1088 + 3 * 12 < 2 ^ 64). pow2. lia.
  - change (0 <= 1024 /\ 1024 + 4 * 3 < 2 ^ 64). pow2. lia.
  - change (apart 1088 (1088 + 3 * 12) 1024 (4 * 3)). unfold apart. lia.
  - intros i Hi. change (0 <= i < 3) in Hi.
    change (holds_int32 collect_memory0 (1024 + 4 * i) (collect_ids i) /\
            (0 <= collect_ids i ->
             0 <= 4096 + collect_ids i * 8 < 2 ^ 64 /\
             apart 1088 (1088 + 3 * 12) (4096 + collect_ids i * 8) (2 * 4))).
    assert (Hcases : i = 0 \/ i = 1 \/ i = 2) by lia.
    destruct Hcases as [-> | [-> | ->]]; unfold holds_int32, apart;
      change (collect_ids 0) with 1; change (collect_ids 1) with (-1);
      change (collect_ids 2) with (-5); pow2;
      (split; [split; [lia | reflexivity] | intros _; lia]).
  - exists code, fuel, st'. split; [exact Hcode|]. split; [exact Hrun|].
    apply Hframe. intros j Hj.
    change (1024 < 1088 + j * 12 \/ 1088 + j * 12 + (2 + 1) * 4 <= 1024).
    change (0 <= j < 3) in Hj. lia.
Defined.
(** ** Which lookup kernel a step gets *)

Lemma DragnnLookupSingle_Supports_inv (step : Step) :
  DragnnLookupSingle.Supports step = true ->
  DragnnLookup.Supports step = true /\ elements (input step 0) = 1.
Proof.
  rewrite DragnnLookup_Supports_iff. unfold DragnnLookupSingle.Supports.
  split_supports; try discriminate. intros _. intuition congruence.
Qed.

(** X10.  For a step of operation "Lookup" the kernels are tried in the order
    of their registration: the zero-copy kernel for a single feature first,
    then the unrolled kernel, then the scalar one. Both special kernels accept
    only steps the scalar kernel accepts, so a lookup step is left without a
    kernel exactly when [DragnnLookup::Supports] rejects it. *)
Theorem Lookup_kernels_in_registration_order (cpu : CPU) (library : Library)
    (step : Step) :
  step_type step = "Lookup" ->
  Forall (fun k => Operation k <> "Lookup") (kernels library) ->
  select (RegisterDragnnKernels cpu library) step
  = (if DragnnLookupSingle.Supports step
     then Some DragnnLookupSingle.kernel
     else if DragnnLookupUnrolled.Supports cpu step
     then Some (DragnnLookupUnrolled.kernel cpu)
     else if DragnnLookup.Supports step
     then Some DragnnLookup.kernel
     else None) /\
  (select (RegisterDragnnKernels cpu library) step = None <->
   DragnnLookup.Supports step = false).
Proof.
  intros Hop Hnone.
  assert (Hselect : select (RegisterDragnnKernels cpu library) step
    = (if DragnnLookupSingle.Supports step
       then Some DragnnLookupSingle.kernel
       else if DragnnLookupUnrolled.Supports cpu step
       then Some (DragnnLookupUnrolled.kernel cpu)
       else if DragnnLookup.Supports step
       then Some DragnnLookup.kernel
       else None)).
  { unfold select, RegisterDragnnKernels, Register_, RegisterTyper.
    cbn [kernels typers]. rewrite <- !app_assoc. rewrite select_after.
    - cbn [app find Operation Supports DragnnInitializer.kernel
           DragnnLookupSingle.kernel DragnnLookupUnrolled.kernel
           DragnnLookup.kernel]. rewrite Hop. cbn [String.eqb andb].
      change (String.eqb DragnnInitializer.Operation "Lookup") with false.
      change (String.eqb DragnnLookupSingle.Operation "Lookup") with true.
      change (String.eqb DragnnLookupUnrolled.Operation "Lookup") with true.
      change (String.eqb DragnnLookup.Operation "Lookup") with true.
      cbn [andb].
      destruct (DragnnLookupSingle.Supports step); [reflexivity|].
      destruct (DragnnLookupUnrolled.Supports cpu step); [reflexivity|].
      destruct (DragnnLookup.Supports step); reflexivity.
    - eapply Forall_impl; [exact Hnone|]. intros k Hk. cbn beta.
      rewrite Hop. apply String.eqb_neq in Hk. rewrite Hk. reflexivity. }
  split; [exact Hselect|]. rewrite Hselect.
  destruct (DragnnLookupSingle.Supports step) eqn:Hsingle.
  { apply DragnnLookupSingle_Supports_inv in Hsingle as [-> _].
    split; discriminate. }
  destruct (DragnnLookupUnrolled.Supports cpu step) eqn:Hunrolled.
  { apply DragnnLookupUnrolled_Supports_inv in Hunrolled as (_ & -> & _).
    split; discriminate. }
  destruct (DragnnLookup.Supports step); split; congruence.
Qed.

Lemma Lookup_kernels_in_registration_order_witness :
  select (RegisterDragnnKernels (mkCPU [AVX]) empty_library) lookup8_step
  = Some DragnnLookupSingle.kernel /\
  select (RegisterDragnnKernels (mkCPU [AVX]) empty_library) lookup3_step
  = Some (DragnnLookupUnrolled.kernel (mkCPU [AVX])) /\
  select (RegisterDragnnKernels (mkCPU []) empty_library) lookup3_step
  = Some DragnnLookup.kernel.
Proof.
  split; [|split].
  - apply (Lookup_kernels_in_registration_order (mkCPU [AVX]) empty_library
             lookup8_step); [reflexivity | constructor].
  - apply (Lookup_kernels_in_registration_order (mkCPU [AVX]) empty_library
             lookup3_step); [reflexivity | constructor].
  - apply (Lookup_kernels_in_registration_order (mkCPU []) empty_library
             lookup3_step); [reflexivity | constructor].
Defined.

(** ** What [Adjust] leaves alone *)

Lemma map_alter_same {A B : Type} (p : A -> B) (h : A -> A) (i : nat)
    (l : list A) :
  (forall t, p (h t) = p t) -> map p (alter h i l) = map p l.
Proof.
  intros Hp. revert i. induction l as [|t l IH]; intros [|i]; cbn;
    try reflexivity; f_equal; auto.
Qed.

Ltac adjusted_fields :=
  unfold on_input, on_output; cbn [inputs_ outputs_ step_type];
  rewrite ?map_alter_same by (intros t; reflexivity); reflexivity.

(** The arities at which a kernel of two inputs and one output can apply. *)
Ltac by_arity step :=
  destruct step as [name op ins outs];
  destruct ins as [|f [|M [|x ins]]]; try reflexivity;
  destruct outs as [|v [|y outs]]; try reflexivity.

(** X9.  [Adjust], for each of the registered kernels, changes neither the
    operation of the step nor the element type or the shape of any of its
    inputs and outputs (it files layout requests and sets reference, link and
    sharing marks); so [Supports] answers on the adjusted step what it
    answered before. *)
Theorem Adjust_keeps_types_shapes_and_applicability (cpu : CPU) (k : Kernel)
    (step step' : Step) :
  In k (kernels (RegisterDragnnKernels cpu empty_library)) ->
  Adjust k step = Ok step' ->
  step_type step' = step_type step /\
  map type_ (inputs_ step') = map type_ (inputs_ step) /\
  map shape_ (inputs_ step') = map shape_ (inputs_ step) /\
  map type_ (outputs_ step') = map type_ (outputs_ step) /\
  map shape_ (outputs_ step') = map shape_ (outputs_ step) /\
  Supports k step' = Supports k step.
Proof.
  intros Hin Hadjust. cbn in Hin.
  destruct Hin as [<- | [<- | [<- | [<- | [<- | [<- | [<- | []]]]]]]];
    cbn [Adjust Supports DragnnInitializer.kernel DragnnLookupSingle.kernel
         DragnnLookupUnrolled.kernel DragnnLookup.kernel DragnnCollect.kernel
         DragnnConcat.kernel NoOpReshape.kernel] in *.
  - injection Hadjust as <-. repeat split.
  - unfold DragnnLookupSingle.Adjust in Hadjust. injection Hadjust as <-.
    repeat split; try adjusted_fields. by_arity step.
  - unfold DragnnLookupUnrolled.Adjust in Hadjust. injection Hadjust as <-.
    repeat split; try adjusted_fields. by_arity step.
  - unfold DragnnLookup.Adjust in Hadjust. injection Hadjust as <-.
    repeat split; try adjusted_fields. by_arity step.
  - unfold DragnnCollect.Adjust in Hadjust. injection Hadjust as <-.
    repeat split; try adjusted_fields. by_arity step.
  - injection Hadjust as <-. repeat split.
  - unfold NoOpReshape.Adjust, AllowInPlace in Hadjust.
    destruct (shared_ _) in Hadjust; [discriminate|].
    injection Hadjust as <-.
    repeat split; try adjusted_fields. by_arity step.
Qed.

Lemma Adjust_keeps_types_shapes_and_applicability_witness :
  exists step',
    NoOpReshape.Adjust reshape_step = Ok step' /\
    map shape_ (outputs_ step') = [[6]] /\
    NoOpReshape.Supports step' = true.
Proof.
  eexists. split; [reflexivity|].
  destruct (Adjust_keeps_types_shapes_and_applicability (mkCPU [AVX])
              NoOpReshape.kernel reshape_step
              (on_output 0 (set_shared reshape_x) reshape_step))
    as (_ & _ & _ & _ & Hshape & Hsup).
  - cbn. tauto.
  - reflexivity.
  - split; [exact Hshape | exact Hsup].
Defined.

(** ** The vector registers of the unrolled lookup *)

(** X8.  [DragnnLookupUnrolled::Generate] takes one vector register for each
    block of eight floats and aborts exactly when there are more than sixteen
    blocks. The bound [kMaxEmbeddingDim] of [Supports] is that limit: on a
    step that [Supports] accepts [Generate] does not abort, and it emits 19 +
    3 * blocks instructions. *)
Theorem DragnnLookupUnrolled_Generate_register_limit (cpu : CPU)
    (step : Step) :
  let blocks := Z.quot (dim (output step 0) 1)
                       DragnnLookupUnrolled.kBlockSize in
  is_fatal (emitted DragnnLookupUnrolled.Generate step) = (16 <? blocks) /\
  (DragnnLookupUnrolled.Supports cpu step = true ->
   exists code,
     emitted DragnnLookupUnrolled.Generate step = Ok code /\
     length code = (19 + 3 * Z.to_nat blocks)%nat).
Proof.
  intros blocks. pose proof (DragnnLookupUnrolled_emitted step) as Hemit.
  cbv zeta in Hemit. change 8 with DragnnLookupUnrolled.kBlockSize in Hemit.
  fold blocks in Hemit. split.
  - rewrite Hemit. destruct (Nat.leb_spec (Z.to_nat blocks) 16) as [Hle|Hgt];
      cbn [is_fatal]; symmetry; [apply Z.ltb_ge | apply Z.ltb_lt]; lia.
  - intros Hsup. apply DragnnLookupUnrolled_Supports_inv in Hsup
      as (_ & _ & Heq & Hmax & _).
    assert (Hblocks : blocks <= 16).
    { unfold blocks. rewrite Heq.
      change DragnnLookupUnrolled.kBlockSize with 8.
      change 16 with (Z.quot 128 8). apply Z.quot_le_mono; lia. }
    replace (Z.to_nat blocks <=? 16)%nat with true in Hemit
      by (symmetry; apply Nat.leb_le; lia).
    eexists. split; [exact Hemit | apply unrolled_code_length].
Qed.

Lemma DragnnLookupUnrolled_Generate_register_limit_witness :
  (exists code,
     emitted DragnnLookupUnrolled.Generate lookup8_step = Ok code /\
     length code = 22%nat) /\
  DragnnLookupUnrolled.Supports (mkCPU [AVX]) lookup136_step = false /\
  is_fatal (emitted DragnnLookupUnrolled.Generate lookup136_step) = true.
Proof.
  split; [|split].
  - apply (DragnnLookupUnrolled_Generate_register_limit (mkCPU [AVX])
             lookup8_step). reflexivity.
  - reflexivity.
  - apply (DragnnLookupUnrolled_Generate_register_limit (mkCPU [AVX])
             lookup136_step).
Defined.

(** ** The type inference hook, run again *)

Lemma alter_twice {A : Type} (g : A -> A) (i : nat) (l : list A) :
  (forall x, g (g x) = g x) -> alter g i (alter g i l) = alter g i l.
Proof.
  intros Hg. revert i. induction l as [|x l IH]; intros [|i]; cbn;
    try reflexivity; f_equal; auto.
Qed.

(** X11.  [InferTypes] answers that no further pass is needed, and a further
    pass would indeed change nothing: run on its own result it returns the
    same variables. It never adds, drops or renames a variable. *)
Theorem DragnnTyper_InferTypes_idempotent (op : Flow.Operation)
    (vars : Store) :
  DragnnTyper.InferTypes op (snd (DragnnTyper.InferTypes op vars))
  = DragnnTyper.InferTypes op vars /\
  length (snd (DragnnTyper.InferTypes op vars)) = length vars /\
  map Flow.name (snd (DragnnTyper.InferTypes op vars)) = map Flow.name vars.
Proof.
  unfold DragnnTyper.InferTypes. cbn [snd].
  destruct (String.eqb _ _); [|repeat split].
  destruct (Flow.outdegree op =? 1); [|repeat split].
  split; [|split].
  - f_equal. apply alter_twice. reflexivity.
  - apply length_alter.
  - apply map_alter_same. reflexivity.
Qed.
(** ** The scalar lookup on an empty feature tensor *)

Ltac counts_features_goals :=
  unfold counts_features, reg;
  cbn [pc regs flags length nth code_of];
  repeat match goal with
         | |- _ /\ _ => split
         | |- _ -> _ => intros ?
         | |- exists fl, Some _ = Some fl /\ _ => eexists; split; [reflexivity|]
         end;
  try lia; try discriminate; try assumption; try reflexivity.

(** One case for each position in the code. *)
Ltac by_pc p :=
  first [ exfalso; lia | destruct p as [|p]; [ | by_pc p ] ].

Lemma counts_features_step (f M v : Tensor) (c t : Z) (st : Machine)
    (i : Instr) :
  dim f 1 = 0 ->
  counts_features c st ->
  c <= t -> t + 1 < 2 ^ 64 ->
  nth_error (lookup_code f M v) (pc st) = Some i ->
  exists st' c',
    exec (lookup_code f M v) i st = Some st' /\
    counts_features c' st' /\ c' <= t + 1.
Proof.
  intros Hn Hinv Hc Ht Hnth. unfold lookup_code in *. rewrite Hn in *.
  destruct st as [p rs fl sd m].
  destruct Hinv as (Hlen & Hpc & Hc0 & Hrsi & Hinc & H8 & H10 & H22 & H26).
  cbn [pc regs flags] in *.
  do 16 (destruct rs as [|? rs]; [discriminate Hlen|]).
  destruct rs; [|discriminate Hlen]. clear Hlen.
  unfold reg in Hrsi. cbn [regs nth code_of] in Hrsi.
  by_pc p; cbn [nth_error] in Hnth; injection Hnth as <-.
  all: try (specialize (Hrsi ltac:(lia)); subst).
  all: try solve [eexists; exists c; split;
                  [exec_norm; reflexivity
                  | split; [counts_features_goals | lia]]].
  - (* xorq rsi rsi *)
    eexists. exists 0. split; [exec_norm; reflexivity|].
    split; [counts_features_goals | lia].
    apply Z.lxor_nilpotent.
  - (* j positive 2 *)
    destruct fl as [[zf sf]|]; [|exfalso; apply H8; reflexivity].
    destruct sf; eexists; exists c;
      (split; [exec_norm; reflexivity
              | split; [counts_features_goals | lia]]).
  - (* j not_equal 4 *)
    destruct fl as [[zf sf]|]; [|exfalso; apply H10; reflexivity].
    destruct zf; eexists; exists c;
      (split; [exec_norm; reflexivity
              | split; [counts_features_goals | lia]]).
  - (* j not_equal 3 *)
    destruct fl as [[zf sf]|]; [|exfalso; apply H22; reflexivity].
    destruct zf; eexists; exists c;
      (split; [exec_norm; reflexivity
              | split; [counts_features_goals | lia]]).
  - (* incq rsi *)
    eexists. exists (c + 1). split; [exec_norm; reflexivity|].
    split; [counts_features_goals | lia].
    apply wrap64_add_l.
  - (* j not_equal 1 *)
    destruct (H26 eq_refl) as (fl0 & Hfl & Hzf). subst fl.
    destruct fl0 as [zf sf]. cbn [ZF] in Hzf.
    destruct zf.
    + exfalso. symmetry in Hzf. apply Z.eqb_eq in Hzf.
      rewrite (wrap64_small 0) in Hzf by (pow2; lia).
      rewrite Z.sub_0_r, wrap64_idem in Hzf.
      rewrite wrap64_small in Hzf by (pow2; lia).
      specialize (Hinc ltac:(lia)). lia.
    + eexists. exists c. split; [exec_norm; reflexivity|].
      split; [counts_features_goals | lia].
Qed.

Lemma counts_features_run (f M v : Tensor) (fuel : nat) :
  dim f 1 = 0 ->
  forall (c t : Z) (st : Machine),
    counts_features c st ->
    c <= t -> t + Z.of_nat fuel < 2 ^ 64 ->
    run fuel (lookup_code f M v) st = OutOfFuel.
Proof.
  intros Hn. induction fuel as [|fuel IH]; intros c t st Hinv Hc Ht.
  - destruct Hinv as (_ & Hpc & _). cbn [run].
    destruct (nth_error (lookup_code f M v) (pc st)) eqn:Hnth; [reflexivity|].
    apply nth_error_None in Hnth. cbn [lookup_code length] in Hnth. lia.
  - cbn [run].
    destruct (nth_error (lookup_code f M v) (pc st)) as [i|] eqn:Hnth.
    + destruct (counts_features_step f M v c t st i Hn Hinv Hc)
        as (st' & c' & Hexec & Hinv' & Hc'); [lia | exact Hnth |].
      rewrite Hexec. apply (IH c' (t + 1)); [exact Hinv' | exact Hc' | lia].
    + destruct Hinv as (_ & Hpc & _).
      apply nth_error_None in Hnth. cbn [lookup_code length] in Hnth. lia.
Qed.

(** X7.  [DragnnLookup::Supports] does not look at the shape of the features,
    and the loop over the features tests its bound after the body. On a step
    with no feature ([f->dim(1)] = 0) the emitted code therefore enters the
    body, and it cannot leave the loop before the feature index has wrapped
    around 2^64: whatever the memory and the registers hold when it is
    entered, the code is still running after any number of instructions
    below 2^64. *)
Theorem DragnnLookup_empty_features_never_halt (step : Step) (data : Z)
    (m : Memory) (fuel : nat) (st0 : Machine) :
  entered data m st0 ->
  dim (input step 0) 1 = 0 ->
  Z.of_nat fuel < 2 ^ 64 ->
  exists code,
    emitted DragnnLookup.Generate step = Ok code /\
    run fuel code st0 = OutOfFuel.
Proof.
  intros Hent Hn Hfuel. eexists. split; [apply DragnnLookup_emitted|].
  apply (counts_features_run _ _ _ fuel Hn 0 0); [|lia|lia].
  destruct Hent as (Hpc & Hlen & _).
  unfold counts_features. rewrite Hpc.
  repeat split; try assumption; try lia; try discriminate.
Qed.

Lemma DragnnLookup_empty_features_never_halt_witness :
  DragnnLookup.Supports lookup0_step = true /\
  exists code,
    emitted DragnnLookup.Generate lookup0_step = Ok code /\
    run 1000 code (dirty_entry lookup8_data lookup8_memory) = OutOfFuel.
Proof.
  split; [reflexivity|].
  apply (DragnnLookup_empty_features_never_halt lookup0_step lookup8_data
           lookup8_memory 1000 (dirty_entry lookup8_data lookup8_memory)).
  - apply entered_dirty_entry.
  - reflexivity.
  - pow2. lia.
Defined.
(** ** The zero-copy lookup, from [Adjust] to the reader of the output *)

(** X12.  [Adjust] and [Generate] of the zero-copy lookup fit together: on
    the step as [Adjust] leaves it, the emitted code, entered with anything
    in the registers, runs to its end, and the
    output tensor, now a reference, is then found at the address of the
    resolved row of the embedding matrix; read through the reference, the
    output holds the floats of that row (the row of the index for an id >= 0,
    the last row for a negative id). *)
Theorem DragnnLookupSingle_output_refers_to_row (step step' : Step)
    (data : Z) (m : Memory) (id : Z) (st0 : Machine) :
  let M := input step 1 in
  let slot := wrap64 (data + offset_ (output step 0)) in
  let row := tensor_address data m M
             + (if id <? 0 then dim M 0 - 1 else id) * stride M 0 in
  entered data m st0 ->
  DragnnLookupSingle.Supports step = true ->
  DragnnLookupSingle.Adjust step = Ok step' ->
  ref_ (input step 0) = false ->
  data_ (output step 0) = None ->
  holds_int32 m (wrap64 (data + offset_ (input step 0))) id ->
  0 <= row < 2 ^ 64 ->
  exists code st',
    emitted DragnnLookupSingle.Generate step' = Ok code /\
    run (length code) code st0 = Halted st' /\
    tensor_address data (mem st') (output step' 0) = row /\
    forall n : nat,
      apart slot (slot + 8) row (4 * Z.of_nat n) ->
      load_lanes n (mem st') (tensor_address data (mem st') (output step' 0))
      = load_lanes n m row.
Proof.
  intros M slot row Hent Hsup Hadjust Href Hdata Hid Hrow.
  apply DragnnLookupSingle_Supports_inv in Hsup as [Hsup _].
  apply DragnnLookup_Supports_iff in Hsup as (Hin & Hout & _).
  destruct (indegree_2 _ Hin) as (f & M0 & Hins).
  destruct (outdegree_1 _ Hout) as (v & Houts).
  destruct step as [name op ins outs]. cbn in Hins, Houts. subst ins outs.
  unfold DragnnLookupSingle.Adjust in Hadjust. injection Hadjust as <-.
  unfold input, output, on_input, on_output in *.
  cbn [inputs_ outputs_ lookup alter list_lookup list_alter default
       from_option Datatypes.id] in *.
  destruct (DragnnLookupSingle_run f (SetRequiredOrder ROW_MAJOR M0)
              (set_link M0 (set_ref true v)) data m id st0 Hent Hid)
    as (st' & Hsteps & Hpc & Hmem).
  assert (Haddr : tensor_address data (mem st')
                    (set_link M0 (set_ref true v)) = row).
  { unfold tensor_address at 1, slot_of.
    cbn [ref_ data_ offset_ set_link set_ref]. rewrite Hdata, Hmem.
    rewrite load_store_same
      by (change (256 ^ Z.of_nat 8) with (2 ^ 64); apply wrap64_range).
    apply wrap64_small. exact Hrow. }
  eexists. exists st'. split.
  { apply DragnnLookupSingle_emitted. exact Href. }
  split.
  { apply steps_halt; [exact Hsteps|]. rewrite Hpc. reflexivity. }
  split; [exact Haddr|].
  intros n Hapart. rewrite Haddr. apply load_lanes_ext.
  intros x Hx. rewrite Hmem. apply store_outside.
  unfold apart in Hapart. cbn. fold slot. lia.
Qed.

Lemma DragnnLookupSingle_output_refers_to_row_witness :
  exists step' code st',
    DragnnLookupSingle.Adjust lookup8_step = Ok step' /\
    emitted DragnnLookupSingle.Generate step' = Ok code /\
    run (length code) code (dirty_entry lookup8_data lookup8_memory)
    = Halted st' /\
    load_lanes 8 (mem st')
      (tensor_address lookup8_data (mem st') (output step' 0))
    = nth 0 lookup8_rows [].
Proof.
  exists lookup8_adjusted.
  destruct (DragnnLookupSingle_output_refers_to_row lookup8_step
              lookup8_adjusted lookup8_data lookup8_memory 0
              (dirty_entry lookup8_data lookup8_memory))
    as (code & st' & Hcode & Hrun & _ & Hrow).
  - apply entered_dirty_entry.
  - reflexivity.
  - reflexivity.
  - reflexivity.
  - reflexivity.
  - split; [pow2; lia | reflexivity].
  - change (0 <= 4096 < 2 ^ 64). pow2. lia.
  - exists code, st'. split; [reflexivity|]. split; [exact Hcode|].
    split; [exact Hrun|]. rewrite (Hrow 8%nat); [reflexivity|].
    change (apart 1056 (1056 + 8) 4096 (4 * 8)). unfold apart. lia.
Defined.
